(** * String Analyzer Service: a shallow embedding and its properties

    The development follows the worker's sources:
    - [src/utils.ts]: the analyzer ([computeSHA256], [isPalindrome],
      [countUniqueChars], [countWords], [getCharFrequency],
      [analyzeString]);
    - the route handler of the worker, its entry module, called
      [index.ts] here (routing, [applyFilters],
      [parseNaturalLanguageQuery]);
    - the second version of that handler recorded in [README.md], whose
      definitions carry the suffix [_v2]: it does not trim the posted
      value, checks the query parameters of [GET /strings], and
      lower-cases both sides of the containment test.

    Modelling conventions.
    - A JavaScript string is the list of its UTF-16 code units, each a [Z].
    - A JavaScript number is [NaN], an infinity, or an integer that a
      double holds: [parseInt] and [+] round to the nearest double, ties
      to the even significand, as IEEE 754 arithmetic does.  The numbers
      of the worker are the results of [parseInt] and of [n + 1], and
      the lengths and counts of the analyzer, which are small integers.
    - The key-value store maps a key to the record whose JSON text it
      holds ([JSON.stringify] of a record is a non-empty string that
      [JSON.parse] inverts).
    - What the platform provides and the worker only calls is a section
      variable: [String.prototype.toLowerCase], the SHA-256 digest of
      [crypto.subtle], [decodeURIComponent], the printing of a number by
      [String(v)]. The facts used about them are hypotheses of the
      section: the case mapping is the ASCII one on ASCII text, the
      digest is a sequence of bytes, and a number prints as ECMA-262
      requires (a numeral that reads back as the number below 10^21,
      exponent notation from there on). *)

From Stdlib Require Import ZArith List Ascii String Lia Bool.
From Stdlib Require DecimalPos.
From stdpp Require Import base option list gmap.

Local Open Scope Z_scope.

(** ** JavaScript strings *)

Abbreviation jsstring := (list Z).

(** The code units of an ASCII literal. *)
Definition js (s : string) : jsstring :=
  map (fun a => Z.of_N (N_of_ascii a)) (list_ascii_of_string s).

Definition in_range (lo hi c : Z) : bool := (lo <=? c) && (c <=? hi).

Definition is_digit (c : Z) : bool := in_range 48 57 c.
Definition is_upper (c : Z) : bool := in_range 65 90 c.
Definition is_lower (c : Z) : bool := in_range 97 122 c.

(** [\w] is [[A-Za-z0-9_]] (no [u] or [i] flag anywhere in the sources). *)
Definition is_word (c : Z) : bool :=
  is_upper c || is_lower c || is_digit c || (c =? 95).

(** [[\W_]]: everything outside [\w], and the underscore. *)
Definition is_nonword_or_underscore (c : Z) : bool :=
  negb (is_word c) || (c =? 95).

(** White space and line terminators, as [\s] and [trim] understand them. *)
Definition is_space (c : Z) : bool :=
  in_range 9 13 c || (c =? 32) || (c =? 160) || (c =? 5760)
  || in_range 8192 8202 c || (c =? 8232) || (c =? 8233) || (c =? 8239)
  || (c =? 8287) || (c =? 12288) || (c =? 65279).

Definition is_ascii (c : Z) : bool := in_range 0 127 c.

(** ASCII case mapping of one code unit. *)
Definition lower_unit (c : Z) : Z := if is_upper c then c + 32 else c.

(** The restriction of [toLowerCase] to ASCII strings; it also serves as
    the concrete case mapping when the model is run. *)
Definition ascii_toLowerCase (s : jsstring) : jsstring := map lower_unit s.

Fixpoint trimStart (s : jsstring) : jsstring :=
  match s with
  | c :: rest => if is_space c then trimStart rest else s
  | [] => []
  end.

Definition trimEnd (s : jsstring) : jsstring := rev (trimStart (rev s)).

Definition trim (s : jsstring) : jsstring := trimEnd (trimStart s).

Definition jsstring_eqb (a b : jsstring) : bool := bool_decide (a = b).

(** [eat l s]: the rest of [s] after the literal [l], when [s] starts with it. *)
Fixpoint eat (l s : jsstring) : option jsstring :=
  match l, s with
  | [], _ => Some s
  | a :: l', b :: s' => if a =? b then eat l' s' else None
  | _ :: _, [] => None
  end.

Definition startsWith (s l : jsstring) : bool :=
  match eat l s with Some _ => true | None => false end.

(** [s.includes(t)]: [t] occurs in [s] at some index. *)
Fixpoint includes (s t : jsstring) : bool :=
  startsWith s t ||
  match s with
  | _ :: rest => includes rest t
  | [] => false
  end.

(** [s.split(sep)] for a one-unit separator. *)
Fixpoint split_on (sep : Z) (cur : jsstring) (s : jsstring) : list jsstring :=
  match s with
  | [] => [cur]
  | c :: rest =>
      if c =? sep then cur :: split_on sep [] rest
      else split_on sep (cur ++ [c]) rest
  end.

Definition split (s : jsstring) (sep : Z) : list jsstring := split_on sep [] s.

(** [s.split(/\s+/)]: a maximal run of white space is one separator. *)
Fixpoint split_spaces_go (skipping : bool) (cur : jsstring) (s : jsstring)
  : list jsstring :=
  match s with
  | [] => [cur]
  | c :: rest =>
      if is_space c then
        if skipping then split_spaces_go true [] rest
        else cur :: split_spaces_go true [] rest
      else split_spaces_go false (cur ++ [c]) rest
  end.

Definition split_spaces (s : jsstring) : list jsstring :=
  split_spaces_go false [] s.

(** [s.replace(/\/+$/, "")]: drop the slashes that end the string. *)
Definition strip_trailing_slashes (s : jsstring) : jsstring :=
  let fix go (r : jsstring) : jsstring :=
    match r with
    | c :: rest => if c =? 47 then go rest else r
    | [] => []
    end in
  rev (go (rev s)).

(** ** Numbers *)

(** A number that is not [NaN]: an integer, or an infinity with its sign.
    The integers that occur are those a double holds. *)
Inductive double : Type :=
| Fin (z : Z)
| Inf (negative : bool).

#[global] Instance double_eq_dec : EqDecision double.
Proof. solve_decision. Defined.

(** A number: [None] is [NaN]. *)
Abbreviation number := (option double).

(** The double nearest to the natural number [z]: [z] itself below 2^53,
    else [z] rounded to 53 significant bits, a tie going to the even
    significand, and the infinity when that reaches 2^1024. *)
Definition round_double (z : Z) : double :=
  if z <? 2 ^ 53 then Fin z
  else
    let e := Z.log2 z - 52 in
    let q := Z.shiftr z e in
    let r := z - Z.shiftl q e in
    let half := Z.shiftl 1 (e - 1) in
    let q' := if (half <? r) || ((r =? half) && Z.odd q) then q + 1 else q in
    if 2 ^ 1024 <=? Z.shiftl q' e then Inf false else Fin (Z.shiftl q' e).

Definition double_opp (d : double) : double :=
  match d with
  | Fin z => Fin (- z)
  | Inf negative => Inf (negb negative)
  end.

(** The number value of the integer [z]. *)
Definition to_double (z : Z) : double :=
  if z <? 0 then double_opp (round_double (- z)) else round_double z.

Arguments round_double : simpl never.
Arguments to_double : simpl never.

(** [a + b] *)
Definition double_add (a b : double) : number :=
  match a, b with
  | Fin x, Fin y => Some (to_double (x + y))
  | Inf s, Fin _ | Fin _, Inf s => Some (Inf s)
  | Inf s, Inf s' => if eqb s s' then Some (Inf s) else None
  end.

(** [a <= b] *)
Definition double_leb (a b : double) : bool :=
  match a, b with
  | Fin x, Fin y => x <=? y
  | Inf true, _ => true
  | _, Inf false => true
  | _, _ => false
  end.

(** [a < b] *)
Definition double_ltb (a b : double) : bool := negb (double_leb b a).

Fixpoint digits_value (acc : Z) (ds : jsstring) : Z :=
  match ds with
  | d :: rest => digits_value (10 * acc + (d - 48)) rest
  | [] => acc
  end.

Fixpoint take_digits (s : jsstring) : jsstring :=
  match s with
  | c :: rest => if is_digit c then c :: take_digits rest else []
  | [] => []
  end.

(** [parseInt(s, 10)]: leading white space, an optional sign, then the
    longest run of decimal digits, read as a number; [NaN] without a
    digit. *)
Definition parseInt (s : jsstring) : number :=
  let t := trimStart s in
  let '(sign, u) :=
    match t with
    | c :: rest =>
        if c =? 45 then (-1, rest)      (* - *)
        else if c =? 43 then (1, rest)  (* + *)
        else (1, t)
    | [] => (1, t)
    end in
  match take_digits u with
  | [] => None
  | ds => Some (to_double (sign * digits_value 0 ds))
  end.

(** The decimal digits of a natural number, most significant first. *)
Fixpoint uint_units (d : Decimal.uint) : jsstring :=
  match d with
  | Decimal.Nil => []
  | Decimal.D0 d => 48 :: uint_units d
  | Decimal.D1 d => 49 :: uint_units d
  | Decimal.D2 d => 50 :: uint_units d
  | Decimal.D3 d => 51 :: uint_units d
  | Decimal.D4 d => 52 :: uint_units d
  | Decimal.D5 d => 53 :: uint_units d
  | Decimal.D6 d => 54 :: uint_units d
  | Decimal.D7 d => 55 :: uint_units d
  | Decimal.D8 d => 56 :: uint_units d
  | Decimal.D9 d => 57 :: uint_units d
  end.

(** The decimal numeral of an integer [n]. *)
Definition decimal (n : Z) : jsstring :=
  match n with
  | Z0 => [48]
  | Zpos p => uint_units (Pos.to_uint p)
  | Zneg p => 45 :: uint_units (Pos.to_uint p)
  end.

(** ** Regular expressions

    The fragment of the regular-expression language the sources use, with
    the backtracking order of the JavaScript matcher: [ms r st] lists the
    states in which a match of [r] started in [st] can end, in the order in
    which the matcher tries them. *)

Inductive regex : Type :=
| Lit (l : jsstring)            (* a literal text *)
| Cls (p : Z -> bool)           (* one code unit of a class *)
| Plus (p : Z -> bool)          (* [c+], greedy *)
| WordB                         (* [\b] *)
| Seq (r1 r2 : regex)
| Alt (r1 r2 : regex)           (* [r1|r2] *)
| Opt (r : regex)               (* [r?], greedy *)
| Cap (r : regex).              (* the capturing group [(r)] *)

(** A matcher state: the text before the position (nearest unit first),
    the text from the position on, and what group 1 holds. *)
Record mstate : Type := MState {
  before : jsstring;
  after : jsstring;
  group1 : option jsstring
}.

Definition head_is_word (s : jsstring) : bool :=
  match s with c :: _ => is_word c | [] => false end.

Definition at_word_boundary (st : mstate) : bool :=
  xorb (head_is_word (before st)) (head_is_word (after st)).

(** The states after one or more units of class [p], longest run first. *)
Fixpoint plus_states (p : Z -> bool) (b a : jsstring) (g : option jsstring)
  : list mstate :=
  match a with
  | c :: rest =>
      if p c then plus_states p (c :: b) rest g ++ [MState (c :: b) rest g]
      else []
  | [] => []
  end.

Definition consumed (st st' : mstate) : jsstring :=
  take (length (after st) - length (after st'))%nat (after st).

Fixpoint ms (r : regex) (st : mstate) : list mstate :=
  match r with
  | Lit l =>
      match eat l (after st) with
      | Some rest => [MState (rev l ++ before st) rest (group1 st)]
      | None => []
      end
  | Cls p =>
      match after st with
      | c :: rest => if p c then [MState (c :: before st) rest (group1 st)] else []
      | [] => []
      end
  | Plus p => plus_states p (before st) (after st) (group1 st)
  | WordB => if at_word_boundary st then [st] else []
  | Seq r1 r2 => st1 ← ms r1 st; ms r2 st1
  | Alt r1 r2 => ms r1 st ++ ms r2 st
  | Opt r1 => ms r1 st ++ [st]
  | Cap r1 =>
      (fun st' => MState (before st') (after st') (Some (consumed st st')))
        <$> ms r1 st
  end.

(** The first match of [r] at or after the current position. *)
Fixpoint exec_from (r : regex) (b a : jsstring) : option mstate :=
  match ms r (MState b a None) with
  | st :: _ => Some st
  | [] =>
      match a with
      | c :: rest => exec_from r (c :: b) rest
      | [] => None
      end
  end.

(** [r.test(s)] *)
Definition regex_test (r : regex) (s : jsstring) : bool :=
  match exec_from r [] s with Some _ => true | None => false end.

(** [s.match(r)[1]], when [s.match(r)] is not null and group 1 took part. *)
Definition match_group1 (r : regex) (s : jsstring) : option jsstring :=
  st ← exec_from r [] s; group1 st.

(** ** Values and objects *)

Inductive JSVal : Type :=
| VNum (n : number)
| VStr (s : jsstring)
| VBool (b : bool).

(** An object with string keys, in the order the keys were added. *)
Abbreviation JSObject := (list (jsstring * JSVal)).

Definition obj_get (k : jsstring) (o : JSObject) : option JSVal :=
  snd <$> find (fun kv => bool_decide (kv.1 = k)) o.

(** [o[k] = v] *)
Fixpoint obj_set (k : jsstring) (v : JSVal) (o : JSObject) : JSObject :=
  match o with
  | [] => [(k, v)]
  | (k', v') :: rest =>
      if bool_decide (k' = k) then (k, v) :: rest
      else (k', v') :: obj_set k v rest
  end.

Definition obj_keys (o : JSObject) : list jsstring := o.*1.

(** ** URLSearchParams *)

Abbreviation URLSearchParams := (list (jsstring * jsstring)).

Definition params_has (k : jsstring) (ps : URLSearchParams) : bool :=
  bool_decide (k ∈ ps.*1).

(** [ps.get(k)]: the first value under the name [k]. *)
Definition params_get (k : jsstring) (ps : URLSearchParams) : option jsstring :=
  snd <$> find (fun kv => bool_decide (kv.1 = k)) ps.

(** [ps.set(k, v)]: the first pair named [k] takes the value [v] and the
    other pairs named [k] go; without one, the pair is appended. *)
Definition params_set (k v : jsstring) (ps : URLSearchParams) : URLSearchParams :=
  let fix go (l : URLSearchParams) : URLSearchParams :=
    match l with
    | [] => []
    | (k', v') :: rest =>
        if bool_decide (k' = k)
        then (k, v) :: filter (fun kv => kv.1 ≠ k) rest
        else (k', v') :: go rest
    end in
  if params_has k ps then go ps else ps ++ [(k, v)].

(** [a || b] on strings: the empty string is falsy. *)
Definition or_else (a : option jsstring) (b : jsstring) : jsstring :=
  match a with
  | Some (c :: s) => c :: s
  | _ => b
  end.

(** ** The patterns of [parseNaturalLanguageQuery] *)

(** [/\b(single word|one word|\b1 word)\b/] *)
Definition re_single_word : regex :=
  Seq WordB
    (Seq (Cap (Alt (Lit (js "single word"))
              (Alt (Lit (js "one word"))
                   (Seq WordB (Lit (js "1 word"))))))
         WordB).

(** [/(palindromic|palindrome|palindromic strings|palindromes)/] *)
Definition re_palindromic : regex :=
  Cap (Alt (Lit (js "palindromic"))
      (Alt (Lit (js "palindrome"))
      (Alt (Lit (js "palindromic strings"))
           (Lit (js "palindromes"))))).

(** [/longer than (\d+) characters?/] *)
Definition re_longer_than : regex :=
  Seq (Lit (js "longer than "))
    (Seq (Cap (Plus is_digit))
      (Seq (Lit (js " character")) (Opt (Lit (js "s"))))).

(** [/contain(?:ing|s)? the letter ([a-z])/] *)
Definition re_contain_the_letter : regex :=
  Seq (Lit (js "contain"))
    (Seq (Opt (Alt (Lit (js "ing")) (Lit (js "s"))))
      (Seq (Lit (js " the letter ")) (Cap (Cls is_lower)))).

(** [/containing (?:the )?([a-z])/] *)
Definition re_containing : regex :=
  Seq (Lit (js "containing "))
    (Seq (Opt (Lit (js "the "))) (Cap (Cls is_lower))).

(** ** Code points, UTF-8 and hexadecimal *)

Definition is_high_surrogate (c : Z) : bool := in_range 55296 56319 c.
Definition is_low_surrogate (c : Z) : bool := in_range 56320 57343 c.

(** What [for (const char of value)] and [new Set(value)] iterate over:
    a surrogate pair is one element, any other code unit is one element. *)
Fixpoint code_points (s : jsstring) : list jsstring :=
  match s with
  | [] => []
  | c :: rest =>
      match rest with
      | d :: rest' =>
          if is_high_surrogate c && is_low_surrogate d
          then [c; d] :: code_points rest'
          else [c] :: code_points rest
      | [] => [[c]]
      end
  end.

(** The scalar value of one element of [code_points]; a lone surrogate
    is encoded as U+FFFD. *)
Definition scalar_value (cp : jsstring) : Z :=
  match cp with
  | [c; d] => 65536 + Z.shiftl (c - 55296) 10 + (d - 56320)
  | [c] => if is_high_surrogate c || is_low_surrogate c then 65533 else c
  | _ => 65533
  end.

Definition utf8_of_scalar (u : Z) : list Z :=
  if u <? 128 then [u]
  else if u <? 2048 then
    [Z.lor 192 (Z.shiftr u 6); Z.lor 128 (Z.land u 63)]
  else if u <? 65536 then
    [Z.lor 224 (Z.shiftr u 12); Z.lor 128 (Z.land (Z.shiftr u 6) 63);
     Z.lor 128 (Z.land u 63)]
  else
    [Z.lor 240 (Z.shiftr u 18); Z.lor 128 (Z.land (Z.shiftr u 12) 63);
     Z.lor 128 (Z.land (Z.shiftr u 6) 63); Z.lor 128 (Z.land u 63)].

(** [new TextEncoder().encode(value)] *)
Definition TextEncoder_encode (s : jsstring) : list Z :=
  cp ← code_points s; utf8_of_scalar (scalar_value cp).

Definition hex_digit (n : Z) : Z := if n <? 10 then 48 + n else 87 + n.

(** [b.toString(16).padStart(2, "0")] for a byte [b]. *)
Definition hex_byte (b : Z) : jsstring :=
  [hex_digit (Z.shiftr b 4); hex_digit (Z.land b 15)].

(** ** Records, store, requests and responses *)

(** The object [analyzeString] returns. *)
Record StringProperties : Type := {
  p_length : Z;
  p_is_palindrome : bool;
  p_unique_characters : Z;
  p_word_count : Z;
  p_sha256_hash : jsstring;
  p_character_frequency_map : gmap jsstring Z
}.

(** A stored record: [{ id, value, properties, created_at }]. *)
Record StringRecord : Type := {
  r_id : jsstring;
  r_value : jsstring;
  r_properties : StringProperties;
  r_created_at : jsstring
}.

(** The KV namespace [STRING_STORE]. *)
Abbreviation Store := (gmap jsstring StringRecord).

(** [STRING_STORE.list()] and the loop that fetches each listed key. *)
Definition store_records (st : Store) : list StringRecord :=
  k ← (map_to_list st).*1;
  match st !! k with
  | Some r => [r]
  | None => []
  end.

(** A parsed JSON request body. *)
#[local] Unset Elimination Schemes.
Inductive JSON : Type :=
| JNull
| JBool (b : bool)
| JNum (n : Z)
| JStr (s : jsstring)
| JArr (items : list JSON)
| JObj (fields : list (jsstring * JSON)).
#[local] Set Elimination Schemes.

(** [!body] *)
Definition json_falsy (b : JSON) : bool :=
  match b with
  | JNull => true
  | JBool b => negb b
  | JNum n => n =? 0
  | JStr s => bool_decide (s = [])
  | JArr _ | JObj _ => false
  end.

(** [body.value]; [None] is [undefined]. A later duplicate of a key
    replaces an earlier one when the body is parsed. *)
Definition body_value (b : JSON) : option JSON :=
  match b with
  | JObj fields =>
      snd <$> find (fun kv => bool_decide (kv.1 = js "value")) (rev fields)
  | _ => None
  end.

Record Request : Type := {
  req_method : jsstring;              (* [request.method.toUpperCase()] *)
  req_pathname : jsstring;            (* [url.pathname] *)
  req_searchParams : URLSearchParams; (* [url.searchParams] *)
  req_json : option JSON              (* [request.json()], [None] when it rejects *)
}.

(** What [json(data, status)] serialises. *)
Inductive Payload : Type :=
| PError (message : jsstring)
| PRecord (r : StringRecord)
| PFiltered (data : list StringRecord) (count : Z) (filters_applied : JSObject)
| PInterpreted (data : list StringRecord) (count : Z)
    (original : jsstring) (parsed_filters : JSObject).

Inductive Body : Type :=
| BJson (p : Payload)
| BText (s : jsstring)
| BNull.

Record Response : Type := {
  status : Z;
  body : Body
}.

Definition json (data : Payload) (code : Z) : Response :=
  {| status := code; body := BJson data |}.

(** The text of the default route. *)
Definition banner : jsstring :=
  js "Backend Wizards " ++ [8212] ++ js " String Analyzer Stage 1 "
  ++ [55358; 56793; 8205; 9794; 65039].

(** [a >= b] and [a <= b] with [a] an integer and [b] a number. *)
Definition num_geb (a : Z) (b : number) : bool :=
  match b with Some m => double_leb m (Fin a) | None => false end.
Definition num_leb (a : Z) (b : number) : bool :=
  match b with Some m => double_leb (Fin a) m | None => false end.
(** [a === b] *)
Definition num_eqb (a : Z) (b : number) : bool :=
  match b with Some (Fin m) => a =? m | _ => false end.

(** [+v], for the operands of [>]. *)
Definition to_number (StringToNumber : jsstring -> number) (v : JSVal) : number :=
  match v with
  | VNum n => n
  | VBool b => Some (Fin (if b then 1 else 0))
  | VStr s => StringToNumber s
  end.

Fixpoint units_ltb (a b : jsstring) : bool :=
  match a, b with
  | _, [] => false
  | [], _ :: _ => true
  | x :: a', y :: b' => (x <? y) || ((x =? y) && units_ltb a' b')
  end.

(** [a > b]: two strings compare by code units, anything else as numbers. *)
Definition js_gt (StringToNumber : jsstring -> number) (a b : JSVal) : bool :=
  match a, b with
  | VStr x, VStr y => units_ltb y x
  | _, _ =>
      match to_number StringToNumber a, to_number StringToNumber b with
      | Some m, Some n => double_ltb n m
      | _, _ => false
      end
  end.

(** The result of [applyFilters]. *)
Record Filtered : Type := {
  data : list StringRecord;
  applied : JSObject
}.

(** ** Stand-ins to run the model

    Concrete functions for what the platform provides, used where the
    model is evaluated on an example. *)

(** A two-byte checksum in the place of the digest. *)
Definition checksum (data : list Z) : list Z :=
  [Z.of_nat (length data) mod 256; fold_right Z.add 0 data mod 256].

(** A decoder for path segments without escapes. *)
Definition decode_plain (seg : jsstring) : jsstring + jsstring := inl seg.

(** Only the empty string converts to a number here, to 0. *)
Definition empty_to_zero (s : jsstring) : number :=
  match s with [] => Some (Fin 0) | _ => None end.

(** A printer of integers in the place of [Number.prototype.toString]:
    the decimal numeral below 10^21, and the text [1e+21] from there on. *)
Definition print_integer (z : Z) : jsstring :=
  if z <? 10 ^ 21 then decimal z else js "1e+21".

(** [POST /strings] with the body [{"value": "racecar"}]. *)
Definition post_racecar : Request :=
  {| req_method := js "POST"; req_pathname := js "/strings";
     req_searchParams := [];
     req_json := Some (JObj [(js "value", JStr (js "racecar"))]) |}.

(** The record that request creates, with the checksum as digest. *)
Definition record_racecar : StringRecord :=
  {| r_id := js "07d1";
     r_value := js "racecar";
     r_properties :=
       {| p_length := 7;
          p_is_palindrome := true;
          p_unique_characters := 4;
          p_word_count := 1;
          p_sha256_hash := js "07d1";
          p_character_frequency_map :=
            {[ js "r" := 2; js "a" := 2; js "c" := 2; js "e" := 1 ]} |};
     r_created_at := js "2025-10-17T10:00:00.000Z" |}.

(** The store that holds this record and no other. *)
Definition store_racecar : Store := {[ js "07d1" := record_racecar ]}.

(** [GET /strings?<name>=<value>] *)
Definition get_strings_with (name value : string) : Request :=
  {| req_method := js "GET"; req_pathname := js "/strings";
     req_searchParams := [(js name, js value)]; req_json := None |}.

(** [GET /strings/filter-by-natural-language?query=<q>] *)
Definition get_natural (q : string) : Request :=
  {| req_method := js "GET";
     req_pathname := js "/strings/filter-by-natural-language";
     req_searchParams := [(js "query", js q)]; req_json := None |}.

(** [GET /strings/<seg>] *)
Definition get_value (seg : string) : Request :=
  {| req_method := js "GET"; req_pathname := js "/strings/" ++ js seg;
     req_searchParams := []; req_json := None |}.


Section Worker.

(** ** What the platform provides *)

(** [String.prototype.toLowerCase] *)
Variable toLowerCase : jsstring -> jsstring.
(** [crypto.subtle.digest("SHA-256", data)], bytes to bytes *)
Variable sha256 : list Z -> list Z.
(** [decodeURIComponent]; on the right, the message of the error it throws *)
Variable decodeURIComponent : jsstring -> jsstring + jsstring.
(** The conversion of a string to a number *)
Variable StringToNumber : jsstring -> number.
(** [Number.prototype.toString], through [String(v)], on an integer *)
Variable NumberToString : Z -> jsstring.

(** On ASCII text the platform's case mapping is the ASCII one. *)
Hypothesis toLowerCase_ascii :
  forall s : jsstring, forallb is_ascii s = true -> toLowerCase s = ascii_toLowerCase s.
(** The digest of the platform is a sequence of bytes. *)
Hypothesis sha256_bytes :
  forall data, forallb (in_range 0 255) (sha256 data) = true.
(** ECMA-262, Number::toString.  A number below 10^21 that is an integer
    prints as a decimal numeral whose value is, or rounds to, the
    number. *)
Hypothesis NumberToString_numeral :
  forall z, 0 <= z < 10 ^ 21 -> to_double z = Fin z ->
    NumberToString z <> []
    /\ forallb is_digit (NumberToString z) = true
    /\ to_double (digits_value 0 (NumberToString z)) = Fin z.
(** From 10^21 on a number prints in exponent notation: a digit that is
    not [0], followed by [.] or by [e]. *)
Hypothesis NumberToString_exponent :
  forall z, 10 ^ 21 <= z -> to_double z = Fin z ->
    exists d c rest,
      NumberToString z = d :: c :: rest
      /\ 49 <= d <= 57 /\ (c = 46 \/ c = 101).

(** [String(v)] *)
Definition String_of (v : JSVal) : jsstring :=
  match v with
  | VNum (Some (Fin n)) => NumberToString n
  | VNum (Some (Inf false)) => js "Infinity"
  | VNum (Some (Inf true)) => js "-Infinity"
  | VNum None => js "NaN"
  | VStr s => s
  | VBool true => js "true"
  | VBool false => js "false"
  end.

(** ** [src/utils.ts] *)

Definition computeSHA256 (value : jsstring) : jsstring :=
  let data := TextEncoder_encode value in
  let hashArray := sha256 data in
  b ← hashArray; hex_byte b.

Definition isPalindrome (value : jsstring) : bool :=
  let cleaned :=
    toLowerCase (filter (fun c => negb (is_nonword_or_underscore c)) value) in
  jsstring_eqb cleaned (rev cleaned).

Definition countUniqueChars (value : jsstring) : Z :=
  Z.of_nat (size (list_to_set (code_points value) : gset jsstring)).

Definition countWords (value : jsstring) : Z :=
  let words := split_spaces (trim value) in
  if bool_decide (trim value = []) then 0 else Z.of_nat (length words).

Definition getCharFrequency (value : jsstring) : gmap jsstring Z :=
  fold_left
    (fun freq char => <[char := default 0 (freq !! char) + 1]> freq)
    (code_points value) ∅.

Definition analyzeString (value : jsstring) : StringProperties :=
  let sha256_hash := computeSHA256 value in
  {| p_length := Z.of_nat (length value);
     p_is_palindrome := isPalindrome value;
     p_unique_characters := countUniqueChars value;
     p_word_count := countWords value;
     p_sha256_hash := sha256_hash;
     p_character_frequency_map := getCharFrequency value |}.

(** ** [index.ts]: helpers *)

(** The same computation as [computeSHA256] (the platform's [crypto] is
    taken to be present). *)
Definition computeHash (value : jsstring) : jsstring :=
  let data := TextEncoder_encode value in
  let hash := sha256 data in
  b ← hash; hex_byte b.

Definition applyFilters (records : list StringRecord) (params : URLSearchParams)
  : Filtered :=
  let applied : JSObject := [] in
  let filtered := records in
  let '(filtered, applied) :=
    if params_has (js "is_palindrome") params then
      let boolVal :=
        bool_decide (params_get (js "is_palindrome") params = Some (js "true")) in
      (filter (fun r => p_is_palindrome (r_properties r) = boolVal) filtered,
       obj_set (js "is_palindrome") (VBool boolVal) applied)
    else (filtered, applied) in
  let '(filtered, applied) :=
    if params_has (js "min_length") params then
      let min := parseInt (or_else (params_get (js "min_length") params) (js "0")) in
      (filter (fun r => num_geb (p_length (r_properties r)) min = true) filtered,
       obj_set (js "min_length") (VNum min) applied)
    else (filtered, applied) in
  let '(filtered, applied) :=
    if params_has (js "max_length") params then
      let max := parseInt (or_else (params_get (js "max_length") params) (js "99999")) in
      (filter (fun r => num_leb (p_length (r_properties r)) max = true) filtered,
       obj_set (js "max_length") (VNum max) applied)
    else (filtered, applied) in
  let '(filtered, applied) :=
    if params_has (js "word_count") params then
      let wc := parseInt (or_else (params_get (js "word_count") params) (js "0")) in
      (filter (fun r => num_eqb (p_word_count (r_properties r)) wc = true) filtered,
       obj_set (js "word_count") (VNum wc) applied)
    else (filtered, applied) in
  let '(filtered, applied) :=
    if params_has (js "contains_character") params then
      let ch := or_else (params_get (js "contains_character") params) [] in
      (filter (fun r => includes (r_value r) ch = true) filtered,
       obj_set (js "contains_character") (VStr ch) applied)
    else (filtered, applied) in
  {| data := filtered; applied := applied |}.

Definition parseNaturalLanguageQuery (q : jsstring) : option JSObject :=
  let lowered := trim (toLowerCase q) in
  let out : JSObject := [] in
  let singleWord := regex_test re_single_word lowered in
  let out := if singleWord then obj_set (js "word_count") (VNum (Some (Fin 1))) out else out in
  let out :=
    if regex_test re_palindromic lowered
    then obj_set (js "is_palindrome") (VBool true) out
    else out in
  let out :=
    match match_group1 re_longer_than lowered with
    | Some digits =>
        match parseInt digits with
        | Some n => obj_set (js "min_length") (VNum (double_add n (Fin 1))) out
        | None => out
        end
    | None => out
    end in
  let out :=
    match match_group1 re_contain_the_letter lowered with
    | Some c => obj_set (js "contains_character") (VStr c) out
    | None =>
        match match_group1 re_containing lowered with
        | Some c => obj_set (js "contains_character") (VStr c) out
        | None => out
        end
    end in
  if bool_decide (length (obj_keys out) = 0%nat) then None else Some out.

(** [err?.message || "Internal error"] *)
Definition error_message (message : jsstring) : jsstring :=
  or_else (Some message) (js "Internal error").

(** The test on [min_length] and [max_length] after interpretation. *)
Definition conflicting (parsed : JSObject) : bool :=
  match obj_get (js "min_length") parsed, obj_get (js "max_length") parsed with
  | Some lo, Some hi => js_gt StringToNumber lo hi
  | _, _ => false
  end.

(** [Object.entries(parsed).forEach(([k, v]) => params.set(k, String(v)))] *)
Definition params_of_object (parsed : JSObject) : URLSearchParams :=
  fold_left (fun params kv => params_set kv.1 (String_of kv.2) params) parsed [].

Definition count_of (l : list StringRecord) : Z := Z.of_nat (length l).

(** ** [index.ts]: the routes

    [fetch request now st] is the response and the store after the
    request; [now] is what [new Date().toISOString()] returns. *)

Definition post_strings (request : Request) (now : jsstring) (st : Store)
  : Response * Store :=
  let body := default JNull (req_json request) in
  match (if json_falsy body then None else body_value body) with
  | Some (JStr v) =>
      let value := trim v in
      if bool_decide (value = []) then
        (json (PError (js "Empty string not allowed")) 400, st)
      else
        let analysis := analyzeString value in
        let id := p_sha256_hash analysis in
        match st !! id with
        | Some _ => (json (PError (js "String already exists")) 409, st)
        | None =>
            let record :=
              {| r_id := id; r_value := value; r_properties := analysis;
                 r_created_at := now |} in
            (json (PRecord record) 201, <[id := record]> st)
        end
  | _ => (json (PError (js "Invalid or missing 'value' field")) 400, st)
  end.

Definition get_natural_language (request : Request) (st : Store) : Response :=
  let q := or_else (params_get (js "query") (req_searchParams request)) [] in
  if bool_decide (q = []) then json (PError (js "Missing 'query' parameter")) 400
  else
    match parseNaturalLanguageQuery q with
    | None => json (PError (js "Unable to parse natural language query")) 400
    | Some parsed =>
        if conflicting parsed then json (PError (js "Conflicting filters")) 422
        else
          let results := store_records st in
          let params := params_of_object parsed in
          let filters := applyFilters results params in
          json (PInterpreted (data filters) (count_of (data filters)) q parsed) 200
    end.

Definition get_string (hash_of : jsstring -> jsstring) (seg : option jsstring)
    (st : Store) : Response :=
  match seg with
  | None => json (PError (js "Invalid path")) 400
  | Some seg =>
      match decodeURIComponent seg with
      | inr message => json (PError (error_message message)) 500
      | inl value =>
          let hash := hash_of value in
          match st !! hash with
          | None => json (PError (js "String not found")) 404
          | Some r => json (PRecord r) 200
          end
      end
  end.

Definition delete_string (hash_of : jsstring -> jsstring) (seg : option jsstring)
    (st : Store) : Response * Store :=
  match seg with
  | None => (json (PError (js "Invalid path")) 400, st)
  | Some seg =>
      match decodeURIComponent seg with
      | inr message => (json (PError (error_message message)) 500, st)
      | inl value =>
          let hash := hash_of value in
          match st !! hash with
          | None => (json (PError (js "String not found")) 404, st)
          | Some _ => ({| status := 204; body := BNull |}, delete hash st)
          end
      end
  end.

Definition get_strings (request : Request) (st : Store) : Response :=
  let results := store_records st in
  let filters := applyFilters results (req_searchParams request) in
  json (PFiltered (data filters) (count_of (data filters)) (applied filters)) 200.

Definition fetch (request : Request) (now : jsstring) (st : Store)
  : Response * Store :=
  let path := strip_trailing_slashes (req_pathname request) in
  let method := req_method request in
  if bool_decide (method = js "POST") && bool_decide (path = js "/strings") then
    post_strings request now st
  else if bool_decide (method = js "GET")
          && startsWith path (js "/strings/filter-by-natural-language") then
    (get_natural_language request st, st)
  else if bool_decide (method = js "GET") && startsWith path (js "/strings/")
          && bool_decide (length (split path 47) = 3%nat) then
    (get_string computeHash (split path 47 !! 2%nat) st, st)
  else if bool_decide (method = js "DELETE") && startsWith path (js "/strings/")
          && bool_decide (length (split path 47) = 3%nat) then
    delete_string computeHash (split path 47 !! 2%nat) st
  else if bool_decide (method = js "GET") && bool_decide (path = js "/strings") then
    (get_strings request st, st)
  else ({| status := 200; body := BText banner |}, st).

(** ** The route handler recorded in [README.md] *)

Definition applyFilters_v2 (records : list StringRecord) (params : URLSearchParams)
  : Filtered :=
  let applied : JSObject := [] in
  let filtered := records in
  let '(filtered, applied) :=
    if params_has (js "is_palindrome") params then
      let boolVal :=
        bool_decide (params_get (js "is_palindrome") params = Some (js "true")) in
      (filter (fun r => p_is_palindrome (r_properties r) = boolVal) filtered,
       obj_set (js "is_palindrome") (VBool boolVal) applied)
    else (filtered, applied) in
  let '(filtered, applied) :=
    if params_has (js "min_length") params then
      let min := parseInt (or_else (params_get (js "min_length") params) (js "0")) in
      (filter (fun r => num_geb (p_length (r_properties r)) min = true) filtered,
       obj_set (js "min_length") (VNum min) applied)
    else (filtered, applied) in
  let '(filtered, applied) :=
    if params_has (js "max_length") params then
      let max := parseInt (or_else (params_get (js "max_length") params) (js "99999")) in
      (filter (fun r => num_leb (p_length (r_properties r)) max = true) filtered,
       obj_set (js "max_length") (VNum max) applied)
    else (filtered, applied) in
  let '(filtered, applied) :=
    if params_has (js "word_count") params then
      let wc := parseInt (or_else (params_get (js "word_count") params) (js "0")) in
      (filter (fun r => num_eqb (p_word_count (r_properties r)) wc = true) filtered,
       obj_set (js "word_count") (VNum wc) applied)
    else (filtered, applied) in
  let '(filtered, applied) :=
    if params_has (js "contains_character") params then
      let ch :=
        toLowerCase (or_else (params_get (js "contains_character") params) []) in
      (filter (fun r => includes (toLowerCase (r_value r)) ch = true) filtered,
       obj_set (js "contains_character") (VStr ch) applied)
    else (filtered, applied) in
  {| data := filtered; applied := applied |}.

Definition post_strings_v2 (request : Request) (now : jsstring) (st : Store)
  : Response * Store :=
  let body := default JNull (req_json request) in
  match (if json_falsy body then None else body_value body) with
  | None => (json (PError (js "Invalid or missing 'value' field")) 400, st)
  | Some (JStr value) =>
      if bool_decide (length value = 0%nat) then
        (json (PError (js "Empty string not allowed")) 400, st)
      else
        let analysis := analyzeString value in
        let id := p_sha256_hash analysis in
        match st !! id with
        | Some _ => (json (PError (js "String already exists")) 409, st)
        | None =>
            let record :=
              {| r_id := id; r_value := value; r_properties := analysis;
                 r_created_at := now |} in
            (json (PRecord record) 201, <[id := record]> st)
        end
  | Some _ =>
      (json (PError (js "Invalid data type for 'value' (must be string)")) 422, st)
  end.

Definition get_natural_language_v2 (request : Request) (st : Store) : Response :=
  let q := or_else (params_get (js "query") (req_searchParams request)) [] in
  if bool_decide (q = []) then json (PError (js "Missing 'query' parameter")) 400
  else
    match parseNaturalLanguageQuery q with
    | None => json (PError (js "Unable to parse natural language query")) 400
    | Some parsed =>
        if conflicting parsed then json (PError (js "Conflicting filters")) 422
        else
          let results := store_records st in
          let params := params_of_object parsed in
          let filters := applyFilters_v2 results params in
          json (PInterpreted (data filters) (count_of (data filters)) q parsed) 200
    end.

(** [/^\d+$/.test(v)] *)
Definition all_digits (v : jsstring) : bool :=
  negb (bool_decide (v = [])) && forallb is_digit v.

(** The checks of the query parameters; [Some] is the name of the
    parameter that is refused. *)
Definition invalid_param (sp : URLSearchParams) : option jsstring :=
  let bad_number name :=
    params_has (js name) sp
    && negb (all_digits (or_else (params_get (js name) sp) [])) in
  if params_has (js "is_palindrome") sp
     && negb (bool_decide (params_get (js "is_palindrome") sp = Some (js "true")))
     && negb (bool_decide (params_get (js "is_palindrome") sp = Some (js "false")))
  then Some (js "is_palindrome")
  else if bad_number "min_length"%string then Some (js "min_length")
  else if bad_number "max_length"%string then Some (js "max_length")
  else if bad_number "word_count"%string then Some (js "word_count")
  else if params_has (js "contains_character") sp
          && bool_decide
               (length (or_else (params_get (js "contains_character") sp) []) = 0%nat)
  then Some (js "contains_character")
  else None.

Definition get_strings_v2 (request : Request) (st : Store) : Response :=
  match invalid_param (req_searchParams request) with
  | Some name =>
      json (PError (js "Invalid query parameter '" ++ name ++ js "'")) 400
  | None =>
      let results := store_records st in
      let filters := applyFilters_v2 results (req_searchParams request) in
      json (PFiltered (data filters) (count_of (data filters)) (applied filters)) 200
  end.

Definition fetch_v2 (request : Request) (now : jsstring) (st : Store)
  : Response * Store :=
  let path := strip_trailing_slashes (req_pathname request) in
  let segments := filter (fun s => s ≠ []) (split path 47) in
  let method := req_method request in
  let under_strings (n : nat) :=
    bool_decide (length segments = n)
    && bool_decide (segments !! 0%nat = Some (js "strings")) in
  if bool_decide (method = js "POST") && under_strings 1%nat then
    post_strings_v2 request now st
  else if bool_decide (method = js "GET") && under_strings 2%nat
          && bool_decide (segments !! 1%nat = Some (js "filter-by-natural-language")) then
    (get_natural_language_v2 request st, st)
  else if bool_decide (method = js "GET") && under_strings 2%nat then
    (get_string computeSHA256 (segments !! 1%nat) st, st)
  else if bool_decide (method = js "DELETE") && under_strings 2%nat then
    delete_string computeSHA256 (segments !! 1%nat) st
  else if bool_decide (method = js "GET") && under_strings 1%nat then
    (get_strings_v2 request st, st)
  else ({| status := 200; body := BText banner |}, st).

(** ** Notions the properties are stated with *)

(** A letter or a digit, in the ranges [[A-Za-z0-9]] that the class
    [[\W_]] leaves. *)
Definition is_alnum (c : Z) : bool := is_upper c || is_lower c || is_digit c.

(** The sum of the values of a frequency map. *)
Definition freq_total (m : gmap jsstring Z) : Z :=
  map_fold (fun _ v acc => v + acc) 0 m.

(** How often [x] occurs in [l]. *)
Definition occurrences (x : jsstring) (l : list jsstring) : Z :=
  Z.of_nat (length (filter (fun y => y = x) l)).

(** A high surrogate directly followed by a low one: a character outside
    the Basic Multilingual Plane. *)
Fixpoint has_surrogate_pair (s : jsstring) : bool :=
  match s with
  | c :: rest =>
      match rest with
      | d :: _ =>
          (is_high_surrogate c && is_low_surrogate d) || has_surrogate_pair rest
      | [] => false
      end
  | [] => false
  end.

(** The conjunction of the predicates that are present among the query
    parameters: each one that is absent holds of every record, and the
    value of each one that is present is read the way the filter reads
    it.  [contains v c] is the containment test of the stored value [v]
    for the text [c]. *)
Definition passes (contains : jsstring -> jsstring -> bool)
    (params : URLSearchParams) (r : StringRecord) : bool :=
  let present (name : string) (test : option jsstring -> bool) :=
    if params_has (js name) params then test (params_get (js name) params)
    else true in
  present "is_palindrome"%string
    (fun v => eqb (p_is_palindrome (r_properties r))
                  (bool_decide (v = Some (js "true"))))
  && present "min_length"%string
    (fun v => num_geb (p_length (r_properties r)) (parseInt (or_else v (js "0"))))
  && present "max_length"%string
    (fun v => num_leb (p_length (r_properties r)) (parseInt (or_else v (js "99999"))))
  && present "word_count"%string
    (fun v => num_eqb (p_word_count (r_properties r)) (parseInt (or_else v (js "0"))))
  && present "contains_character"%string
    (fun v => contains (r_value r) (or_else v [])).

(** *** The rules of the interpreter, on the lower-cased, trimmed text *)

(** The text [w] stands in [s] after [pre] as a phrase: no word character
    touches it on either side. *)
Definition phrase_at (s pre w post : jsstring) : Prop :=
  s = pre ++ w ++ post
  /\ head_is_word (rev pre) = false
  /\ head_is_word post = false.

Definition single_word_rule (s : jsstring) : Prop :=
  exists pre w post,
    w ∈ [js "single word"; js "one word"; js "1 word"] /\ phrase_at s pre w post.

Definition palindrome_rule (s : jsstring) : Prop :=
  exists pre w post,
    w ∈ [js "palindromic"; js "palindrome"; js "palindromes"]
    /\ s = pre ++ w ++ post.

(** [longer than <ds> character] stands in [s] after [pre], with [ds] a
    decimal numeral. *)
Definition longer_than_at (s pre ds post : jsstring) : Prop :=
  s = pre ++ js "longer than " ++ ds ++ js " character" ++ post
  /\ ds <> [] /\ forallb is_digit ds = true.

(** [contain the letter <c>], [contains the letter <c>] or
    [containing the letter <c>] stands in [s] after [pre]. *)
Definition the_letter_at (s pre : jsstring) (c : Z) : Prop :=
  is_lower c = true
  /\ exists ending post,
       ending ∈ [js "ing"; js "s"; []]
       /\ s = pre ++ js "contain" ++ ending ++ js " the letter " ++ c :: post.

(** [containing the <c>] stands in [s] after [pre], or else
    [containing <c>] does. *)
Definition containing_at (s pre : jsstring) (c : Z) : Prop :=
  is_lower c = true
  /\ ((exists post, s = pre ++ js "containing the " ++ c :: post)
      \/ ((exists post, s = pre ++ js "containing " ++ c :: post)
          /\ ~ exists c' post',
                 is_lower c' = true
                 /\ s = pre ++ js "containing the " ++ c' :: post')).


(** *** The store *)

(** Every key of the store is the [id] of its record, and that [id] is the
    digest of the [value] the record holds. *)
Definition store_inv (st : Store) : Prop :=
  forall k r, st !! k = Some r ->
    k = r_id r /\ r_id r = computeSHA256 (r_value r).

(** A lower-case hexadecimal digit. *)
Definition is_hex_lower (c : Z) : bool := is_digit c || in_range 97 102 c.

(** The names of the five filters. *)
Definition filter_names : list jsstring :=
  [js "is_palindrome"; js "min_length"; js "max_length"; js "word_count";
   js "contains_character"].

(** Two parameter lists that give every filter name the same value. *)
Definition same_filters (sp sp' : URLSearchParams) : Prop :=
  forall name, name ∈ filter_names -> params_get name sp = params_get name sp'.

(** A non-empty run of decimal digits. *)
Definition is_decimal (v : jsstring) : Prop :=
  v <> [] /\ Forall (fun c => is_digit c = true) v.

(** The parameter [name] is there, and the value that is read for it is
    one the checks refuse: an [is_palindrome] that is neither [true] nor
    [false], a [min_length], [max_length] or [word_count] that is not a
    decimal numeral, an empty [contains_character]. *)
Definition offending (name : jsstring) (sp : URLSearchParams) : Prop :=
  exists v,
    params_get name sp = Some v
    /\ ((name = js "is_palindrome" /\ v <> js "true" /\ v <> js "false")
        \/ (name ∈ [js "min_length"; js "max_length"; js "word_count"]
            /\ ~ is_decimal v)
        \/ (name = js "contains_character" /\ v = [])).

(** [name] is offending and no filter name before it, in the order of
    the five, is. *)
Definition first_offending (name : jsstring) (sp : URLSearchParams) : Prop :=
  offending name sp
  /\ forall i j other,
       filter_names !! i = Some other -> filter_names !! j = Some name ->
       (i < j)%nat -> ~ offending other sp.

(** *** Auxiliary notions of the proofs *)

(** One step of the loop of [getCharFrequency]. *)
Definition freq_step (freq : gmap jsstring Z) (char : jsstring) : gmap jsstring Z :=
  <[char := default 0 (freq !! char) + 1]> freq.

(** The patterns with a captured group, at the start of a text [a]:
    the pattern matches there and group 1 holds [d]. *)
Definition longer_than_occ (a ds : jsstring) : Prop :=
  exists post, a = js "longer than " ++ ds ++ js " character" ++ post
    /\ ds <> [] /\ forallb is_digit ds = true.

Definition the_letter_occ (a d : jsstring) : Prop :=
  exists c ending post,
    d = [c] /\ is_lower c = true /\ ending ∈ [js "ing"; js "s"; []]
    /\ a = js "contain" ++ ending ++ js " the letter " ++ c :: post.

Definition containing_occ (a d : jsstring) : Prop :=
  exists c,
    d = [c] /\ is_lower c = true
    /\ ((exists post, a = js "containing the " ++ c :: post)
        \/ ((exists post, a = js "containing " ++ c :: post)
            /\ ~ exists c' post',
                   is_lower c' = true
                   /\ a = js "containing the " ++ c' :: post')).

(** The object [out] of [parseNaturalLanguageQuery], as a function of the
    lower-cased, trimmed query. *)
Definition rules_object (lowered : jsstring) : JSObject :=
  let out : JSObject := [] in
  let singleWord := regex_test re_single_word lowered in
  let out := if singleWord then obj_set (js "word_count") (VNum (Some (Fin 1))) out else out in
  let out :=
    if regex_test re_palindromic lowered
    then obj_set (js "is_palindrome") (VBool true) out
    else out in
  let out :=
    match match_group1 re_longer_than lowered with
    | Some digits =>
        match parseInt digits with
        | Some n => obj_set (js "min_length") (VNum (double_add n (Fin 1))) out
        | None => out
        end
    | None => out
    end in
  let out :=
    match match_group1 re_contain_the_letter lowered with
    | Some c => obj_set (js "contains_character") (VStr c) out
    | None =>
        match match_group1 re_containing lowered with
        | Some c => obj_set (js "contains_character") (VStr c) out
        | None => out
        end
    end in
  out.

(** [parsed?.[k]]: the value the interpretation of [q] gives the key [k]. *)
Definition parsed_key (k : jsstring) (q : jsstring) : option JSVal :=
  out ← parseNaturalLanguageQuery q; obj_get k out.

(** *** Notions of the further properties *)

(** The number of words of a text: the places where a code unit that is
    not white space follows white space or starts the text.
    [after_space] tells whether the text is entered after white space. *)
Fixpoint word_starts (after_space : bool) (s : jsstring) : nat :=
  match s with
  | [] => 0
  | c :: rest =>
      if is_space c then word_starts true rest
      else (if after_space then 1 else 0)%nat + word_starts false rest
  end.

(** Whether a scan of [s], entered after white space or not, ends after
    white space. *)
Fixpoint ends_after_space (after_space : bool) (s : jsstring) : bool :=
  match s with
  | [] => after_space
  | c :: rest => ends_after_space (is_space c) rest
  end.

(** What [isPalindrome] compares: the letters and digits, lower-cased. *)
Definition letters_and_digits (s : jsstring) : jsstring :=
  map lower_unit (filter (fun c => is_alnum c = true) s).

(** A record meets an interpretation [parsed]: each key the interpretation
    holds is a condition on the record.  [contains v c] is the containment
    test of the stored value [v] for the text [c]. *)
Definition meets_interpretation (contains : jsstring -> jsstring -> bool)
    (parsed : JSObject) (r : StringRecord) : Prop :=
  (obj_get (js "word_count") parsed <> None -> p_word_count (r_properties r) = 1)
  /\ (obj_get (js "is_palindrome") parsed <> None ->
      p_is_palindrome (r_properties r) = true)
  /\ (forall n, obj_get (js "min_length") parsed = Some (VNum (Some n)) ->
      double_leb n (Fin (p_length (r_properties r))) = true)
  /\ (forall c, obj_get (js "contains_character") parsed = Some (VStr c) ->
      contains (r_value r) c = true).

(** Every record of the store is what [analyzeString] says of its value,
    and is stored under its [id], the digest among its properties. *)
Definition store_analysed (st : Store) : Prop :=
  forall k r, st !! k = Some r ->
    k = r_id r
    /\ r_properties r = analyzeString (r_value r)
    /\ r_id r = p_sha256_hash (r_properties r).

(** No stored value is empty. *)
Definition store_nonempty (st : Store) : Prop :=
  forall k r, st !! k = Some r -> r_value r <> [].

(** No stored value has white space around it. *)
Definition store_trimmed (st : Store) : Prop :=
  forall k r, st !! k = Some r -> trim (r_value r) = r_value r.

(** The messages of the errors both handlers answer with. *)
Definition error_messages : list jsstring :=
  [js "Invalid or missing 'value' field"; js "Empty string not allowed";
   js "String already exists"; js "Missing 'query' parameter";
   js "Unable to parse natural language query"; js "String not found"].


(** ** The analyzer *)

(** The propositional solvers take a function in the context for an
    implication; they run without the functions of the platform. *)
Ltac pure tac :=
  try clear NumberToString_exponent; try clear NumberToString_numeral;
  try clear sha256_bytes; try clear toLowerCase_ascii;
  try clear NumberToString; try clear StringToNumber;
  try clear decodeURIComponent; try clear sha256; try clear toLowerCase;
  tac.

Lemma strip_keeps_alnum c :
  negb (is_nonword_or_underscore c) = is_alnum c.
Proof.
  unfold is_nonword_or_underscore, is_word, is_alnum, is_upper, is_lower,
    is_digit, in_range.
  destruct (c =? 95) eqn:E; [apply Z.eqb_eq in E; subst; reflexivity|].
  rewrite !orb_false_r, negb_involutive. reflexivity.
Qed.

Lemma filter_strip (s : jsstring) :
  filter (fun c => negb (is_nonword_or_underscore c)) s
  = filter (fun c => is_alnum c = true) s.
Proof.
  apply list_filter_iff. intros c. rewrite strip_keeps_alnum.
  destruct (is_alnum c); simpl; pure ltac:(intuition congruence).
Qed.

Lemma is_alnum_ascii c : is_alnum c = true -> is_ascii c = true.
Proof.
  unfold is_alnum, is_upper, is_lower, is_digit, is_ascii, in_range. lia.
Qed.

Lemma forallb_ascii_filter_alnum (s : jsstring) :
  forallb is_ascii (filter (fun c => is_alnum c = true) s) = true.
Proof.
  induction s as [|c s IH]; [reflexivity|].
  rewrite filter_cons. case_decide; [|exact IH].
  simpl. rewrite is_alnum_ascii by assumption. exact IH.
Qed.

(** *** The frequency map *)

Lemma freq_total_step (m : gmap jsstring Z) k :
  freq_total (freq_step m k) = freq_total m + 1.
Proof.
  unfold freq_total, freq_step.
  assert (Hc : forall (m' : gmap jsstring Z) (j1 j2 : jsstring) (z1 z2 y : Z),
             j1 <> j2 -> m' !! j1 = Some z1 -> m' !! j2 = Some z2 ->
             z1 + (z2 + y) = z2 + (z1 + y)) by (intros; lia).
  destruct (m !! k) as [v|] eqn:E; simpl.
  - rewrite <- insert_delete_eq.
    rewrite map_fold_insert_L; [|apply Hc|apply lookup_delete_eq].
    rewrite <- (insert_id m k v) at 2 by exact E.
    rewrite <- (insert_delete_eq m).
    rewrite map_fold_insert_L; [|apply Hc|apply lookup_delete_eq]. lia.
  - rewrite map_fold_insert_L; [|apply Hc|exact E]. lia.
Qed.

Lemma freq_total_fold (l : list jsstring) (m : gmap jsstring Z) :
  freq_total (fold_left freq_step l m) = freq_total m + Z.of_nat (length l).
Proof.
  revert m. induction l as [|k l IH]; intros m; simpl; [lia|].
  rewrite IH, freq_total_step. lia.
Qed.

Lemma freq_lookup_fold (l : list jsstring) (m : gmap jsstring Z) k :
  default 0 (fold_left freq_step l m !! k) = default 0 (m !! k) + occurrences k l.
Proof.
  revert m. induction l as [|x l IH]; intros m; simpl.
  - unfold occurrences. simpl. lia.
  - rewrite IH. unfold occurrences, freq_step. rewrite filter_cons.
    destruct (decide (x = k)) as [->|Hne].
    + rewrite lookup_insert_eq. simpl. lia.
    + rewrite lookup_insert_ne by exact Hne. lia.
Qed.

Lemma freq_dom_fold (l : list jsstring) (m : gmap jsstring Z) k :
  is_Some (fold_left freq_step l m !! k) <-> is_Some (m !! k) \/ k ∈ l.
Proof.
  revert m. induction l as [|x l IH]; intros m; simpl.
  - split; [auto|]. intros [H|H]; [exact H|]. inversion H.
  - rewrite IH. unfold freq_step. rewrite elem_of_cons.
    destruct (decide (x = k)) as [->|Hne].
    + rewrite lookup_insert_eq. split; [auto|]. intros _. left. eauto.
    + rewrite lookup_insert_ne by exact Hne. pure ltac:(intuition congruence).
Qed.

(** The frequency map counts the elements of [code_points]: a key is
    present exactly when it occurs, with its number of occurrences. *)
Lemma getCharFrequency_lookup value k :
  getCharFrequency value !! k =
    if bool_decide (k ∈ code_points value)
    then Some (occurrences k (code_points value))
    else None.
Proof.
  unfold getCharFrequency. fold freq_step.
  pose proof (freq_dom_fold (code_points value) ∅ k) as Hd.
  pose proof (freq_lookup_fold (code_points value) ∅ k) as Hv.
  rewrite lookup_empty in Hd, Hv. simpl in Hv.
  case_bool_decide as Hin.
  - destruct Hd as [_ Hd]. destruct Hd as [v Ev]; [right; exact Hin|].
    rewrite Ev in *. simpl in Hv. f_equal. lia.
  - destruct (fold_left freq_step (code_points value) ∅ !! k) eqn:E; [|reflexivity].
    destruct Hd as [Hd _]. destruct Hd as [Hd|Hd]; [eauto|by destruct Hd|done].
Qed.

(** The values of the frequency map add up to the number of code points. *)
Lemma getCharFrequency_total value :
  freq_total (getCharFrequency value) = Z.of_nat (length (code_points value)).
Proof.
  unfold getCharFrequency. fold freq_step. rewrite freq_total_fold.
  unfold freq_total. rewrite map_fold_empty. lia.
Qed.

Lemma code_points_length_le (s : jsstring) : (length (code_points s) <= length s)%nat.
Proof.
  remember (length s) as n eqn:En. revert s En.
  induction n as [n IH] using lt_wf_ind. intros s En.
  destruct s as [|c [|d rest]]; simpl in *; [lia|lia|].
  destruct (is_high_surrogate c && is_low_surrogate d); simpl.
  - specialize (IH (length rest) ltac:(lia) rest eq_refl). lia.
  - specialize (IH (length (d :: rest)) ltac:(simpl; lia) (d :: rest) eq_refl).
    simpl in IH. lia.
Qed.

Lemma code_points_cons2 c d (rest : jsstring) :
  code_points (c :: d :: rest) =
    if is_high_surrogate c && is_low_surrogate d
    then [c; d] :: code_points rest
    else [c] :: code_points (d :: rest).
Proof. reflexivity. Qed.

Lemma has_surrogate_pair_cons2 c d (rest : jsstring) :
  has_surrogate_pair (c :: d :: rest) =
    (is_high_surrogate c && is_low_surrogate d) || has_surrogate_pair (d :: rest).
Proof. reflexivity. Qed.

(** Code points and code units agree in number exactly on the strings
    without a surrogate pair. *)
Lemma code_points_length (s : jsstring) :
  length (code_points s) = length s <-> has_surrogate_pair s = false.
Proof.
  induction s as [|c s IH]; [simpl; pure ltac:(tauto)|].
  destruct s as [|d rest]; [simpl; pure ltac:(tauto)|].
  rewrite code_points_cons2, has_surrogate_pair_cons2.
  destruct (is_high_surrogate c && is_low_surrogate d); simpl orb.
  - pose proof (code_points_length_le rest). cbn [length].
    split; [lia|discriminate].
  - rewrite <- IH. cbn [length]. lia.
Qed.

Lemma getCharFrequency_dom value :
  dom (getCharFrequency value) = (list_to_set (code_points value) : gset jsstring).
Proof.
  apply set_eq. intros k.
  rewrite elem_of_dom, getCharFrequency_lookup, elem_of_list_to_set.
  case_bool_decide; split; intros H'; try done; by destruct H'.
Qed.

(** The number of distinct characters is the number of keys of the
    frequency map: these two always agree. *)
Lemma countUniqueChars_size value :
  countUniqueChars value = Z.of_nat (size (getCharFrequency value)).
Proof.
  unfold countUniqueChars. rewrite <- getCharFrequency_dom, size_dom. reflexivity.
Qed.

(** The frequencies add up to [length] exactly for the strings without a
    character outside the Basic Multilingual Plane. *)
Lemma analyzeString_total_length value :
  freq_total (p_character_frequency_map (analyzeString value))
    = p_length (analyzeString value)
  <-> has_surrogate_pair value = false.
Proof.
  cbn [analyzeString p_character_frequency_map p_length].
  rewrite getCharFrequency_total, <- code_points_length. lia.
Qed.

(** C5 (evaluation at the failing input). For the one-character string
    U+1F600, two UTF-16 code units, [analyzeString] reports [length] 2 while
    its frequency map is [{U+1F600: 1}], whose values add up to 1, and
    [unique_characters] is 1: [length] counts code units, the frequency map
    and [unique_characters] count code points. *)
Theorem analyzeString_astral_units :
  let s := [55357; 56832] in
  p_length (analyzeString s) = 2
  /\ p_character_frequency_map (analyzeString s) = {[ s := 1 ]}
  /\ freq_total (p_character_frequency_map (analyzeString s)) = 1
  /\ p_unique_characters (analyzeString s) = 1
  /\ freq_total (p_character_frequency_map (analyzeString s))
       <> p_length (analyzeString s).
Proof.
  cbn zeta. cbn [analyzeString p_length p_character_frequency_map
                 p_unique_characters].
  rewrite getCharFrequency_total, countUniqueChars_size.
  repeat split; vm_compute; congruence.
Qed.

(** ** The palindrome test *)

Lemma isPalindrome_cleaned (s : jsstring) :
  isPalindrome s =
    let cleaned := map lower_unit (filter (fun c => is_alnum c = true) s) in
    bool_decide (cleaned = rev cleaned).
Proof.
  unfold isPalindrome, jsstring_eqb. rewrite filter_strip.
  rewrite toLowerCase_ascii by apply forallb_ascii_filter_alnum. reflexivity.
Qed.

(** C9. [isPalindrome] drops every code unit that is not a letter or a
    digit, lower-cases what is left and compares it with its reversal;
    a string with nothing left is a palindrome; and the four values the
    specification lists. *)
Theorem isPalindrome_strip_lower_reverse (s : jsstring) :
  let cleaned := map lower_unit (filter (fun c => is_alnum c = true) s) in
  (isPalindrome s = true <-> cleaned = rev cleaned)
  /\ (filter (fun c => is_alnum c = true) s = [] -> isPalindrome s = true)
  /\ isPalindrome (js "racecar") = true
  /\ isPalindrome (js "Race, car!") = true
  /\ isPalindrome (js "") = true
  /\ isPalindrome (js "ab") = false.
Proof.
  cbn zeta. rewrite !isPalindrome_cleaned. cbn zeta.
  split; [apply bool_decide_eq_true|].
  split; [intros ->; reflexivity|].
  repeat split; vm_compute; reflexivity.
Qed.

(** ** The filter engine *)

Lemma digits_value_of_uint_acc d acc :
  Zpos (Pos.of_uint_acc d acc) = digits_value (Zpos acc) (uint_units d).
Proof.
  revert acc. induction d; intros acc; cbn [Pos.of_uint_acc uint_units digits_value];
    try reflexivity; rewrite IHd; f_equal; lia.
Qed.

Lemma digits_value_of_uint d :
  Z.of_N (Pos.of_uint d) = digits_value 0 (uint_units d).
Proof.
  induction d; cbn [Pos.of_uint uint_units digits_value]; try reflexivity;
    try exact IHd;
    cbn [Z.of_N]; rewrite digits_value_of_uint_acc; reflexivity.
Qed.

Lemma take_digits_uint d : take_digits (uint_units d) = uint_units d.
Proof. induction d; cbn; congruence. Qed.

Lemma trimStart_uint d : trimStart (uint_units d) = uint_units d.
Proof. destruct d; reflexivity. Qed.

Lemma uint_units_nonempty p : uint_units (Pos.to_uint p) <> [].
Proof.
  pose proof (DecimalPos.Unsigned.to_uint_nonnil p) as H.
  destruct (Pos.to_uint p); [congruence|discriminate..].
Qed.

(** *** Numbers *)

(** The integers below 2^53 are numbers as they are. *)
Lemma round_double_safe z : z < 2 ^ 53 -> round_double z = Fin z.
Proof.
  intros Hz. unfold round_double.
  rewrite (proj2 (Z.ltb_lt z (2 ^ 53)) Hz). reflexivity.
Qed.

Lemma to_double_safe z : - 2 ^ 53 < z < 2 ^ 53 -> to_double z = Fin z.
Proof.
  intros Hz. unfold to_double. destruct (Z.ltb_spec z 0).
  - rewrite round_double_safe by lia. cbn [double_opp]. f_equal. lia.
  - apply round_double_safe. lia.
Qed.


(** Rounding a natural number from 2^53 on gives a number from 2^53 on. *)
Lemma round_double_large z :
  2 ^ 53 <= z -> double_leb (Fin (2 ^ 53)) (round_double z) = true.
Proof.
  intros Hz. unfold round_double.
  rewrite (proj2 (Z.ltb_ge z (2 ^ 53)) Hz). cbv zeta.
  set (e := Z.log2 z - 52).
  match goal with |- context [if ?c || ?d then ?a else ?b] =>
    set (q' := if c || d then a else b) end.
  destruct (2 ^ 1024 <=? Z.shiftl q' e); [reflexivity|].
  cbn [double_leb]. apply Z.leb_le.
  assert (H53 : 53 <= Z.log2 z).
  { change 53 with (Z.log2 (2 ^ 53)). apply Z.log2_le_mono. exact Hz. }
  assert (He : 0 <= e) by (unfold e; lia).
  assert (Hq : 2 ^ 52 <= Z.shiftr z e).
  { rewrite Z.shiftr_div_pow2 by exact He.
    apply Z.div_le_lower_bound; [apply Z.pow_pos_nonneg; lia|].
    rewrite Z.mul_comm, <- Z.pow_add_r by lia.
    replace (52 + e) with (Z.log2 z) by (unfold e; lia).
    apply Z.log2_spec. lia. }
  assert (Hq' : 2 ^ 52 <= q').
  { unfold q'. destruct (_ || _); lia. }
  rewrite Z.shiftl_mul_pow2 by exact He.
  assert (He1 : 1 <= e) by (unfold e; lia).
  assert (H2 : 2 <= 2 ^ e).
  { change 2 with (2 ^ 1) at 1. apply Z.pow_le_mono_r; lia. }
  change (2 ^ 53) with (2 ^ 52 * 2). nia.
Qed.

(** The number of a natural number is not negative, and is at least the
    natural number when that is below 2^53. *)
Lemma to_double_lower z b :
  0 <= z -> b <= z -> b <= 2 ^ 53 -> double_leb (Fin b) (to_double z) = true.
Proof.
  intros Hz Hb Hb53. unfold to_double.
  rewrite (proj2 (Z.ltb_ge z 0) Hz).
  destruct (Z.lt_ge_cases z (2 ^ 53)) as [Hs|Hl].
  - rewrite round_double_safe by exact Hs. cbn [double_leb]. apply Z.leb_le. lia.
  - pose proof (round_double_large z Hl) as H.
    destruct (round_double z) as [w|[|]]; cbn [double_leb] in *;
      try discriminate; try reflexivity.
    apply Z.leb_le in H. apply Z.leb_le. lia.
Qed.

(** A number of 53 bits shifted to the left is a number as it is. *)
Lemma round_double_shift q e :
  2 ^ 52 <= q < 2 ^ 53 -> 1 <= e -> Z.shiftl q e < 2 ^ 1024 ->
  round_double (Z.shiftl q e) = Fin (Z.shiftl q e).
Proof.
  intros Hq He Hfin.
  assert (H2 : 2 <= 2 ^ e).
  { change 2 with (2 ^ 1) at 1. apply Z.pow_le_mono_r; lia. }
  assert (Hz : 2 ^ 53 <= Z.shiftl q e).
  { rewrite Z.shiftl_mul_pow2 by lia. change (2 ^ 53) with (2 ^ 52 * 2). nia. }
  unfold round_double.
  rewrite (proj2 (Z.ltb_ge _ _) Hz). cbv zeta.
  assert (Hlog : Z.log2 (Z.shiftl q e) - 52 = e).
  { rewrite Z.log2_shiftl by lia.
    rewrite (Z.log2_unique q 52); [lia|lia|].
    change (2 ^ (52 + 1)) with (2 ^ 53). exact Hq. }
  rewrite Hlog.
  rewrite Z.shiftr_shiftl_l by lia.
  replace (e - e) with 0 by lia. rewrite Z.shiftl_0_r, Z.sub_diag.
  assert (Hhalf : 0 < Z.shiftl 1 (e - 1)).
  { rewrite Z.shiftl_mul_pow2 by lia. apply Z.mul_pos_pos; [lia|].
    apply Z.pow_pos_nonneg; lia. }
  rewrite (proj2 (Z.ltb_ge _ _)) by lia.
  rewrite (proj2 (Z.eqb_neq _ _)) by lia.
  cbn [orb andb].
  rewrite (proj2 (Z.leb_gt _ _) Hfin). reflexivity.
Qed.

(** Rounding is the identity on what it returns. *)
Lemma round_double_idem z k :
  0 <= z -> round_double z = Fin k -> round_double k = Fin k /\ z <= 2 * k.
Proof.
  intros Hz. destruct (Z.lt_ge_cases z (2 ^ 53)) as [Hs|Hl].
  { rewrite round_double_safe by exact Hs. intros [= <-].
    split; [apply round_double_safe; exact Hs|lia]. }
  unfold round_double at 1.
  rewrite (proj2 (Z.ltb_ge _ _) Hl). cbv zeta.
  set (e := Z.log2 z - 52).
  match goal with |- context [if ?c || ?d then ?a else ?b] =>
    set (q' := if c || d then a else b) end.
  destruct (Z.leb_spec (2 ^ 1024) (Z.shiftl q' e)) as [|Hfin]; [discriminate|].
  intros [= <-].
  assert (H53 : 53 <= Z.log2 z).
  { change 53 with (Z.log2 (2 ^ 53)). apply Z.log2_le_mono. exact Hl. }
  assert (He : 1 <= e) by (unfold e; lia).
  assert (Hpow : 0 < 2 ^ e) by (apply Z.pow_pos_nonneg; lia).
  assert (Hlog : 2 ^ (52 + e) <= z < 2 ^ (52 + e + 1)).
  { replace (52 + e) with (Z.log2 z) by (unfold e; lia).
    replace (Z.log2 z + 1) with (Z.succ (Z.log2 z)) by lia.
    apply Z.log2_spec. lia. }
  rewrite !Z.pow_add_r in Hlog by lia.
  change (2 ^ 1) with 2 in Hlog.
  assert (Hq : 2 ^ 52 <= Z.shiftr z e < 2 ^ 53).
  { rewrite Z.shiftr_div_pow2 by lia. split.
    - apply Z.div_le_lower_bound; [exact Hpow|]. lia.
    - apply Z.div_lt_upper_bound; [exact Hpow|].
      change (2 ^ 53) with (2 ^ 52 * 2). lia. }
  assert (Hdiv : Z.shiftr z e * 2 ^ e <= z).
  { rewrite Z.shiftr_div_pow2 by lia. rewrite Z.mul_comm.
    apply Z.mul_div_le. exact Hpow. }
  assert (Hrest : z < (Z.shiftr z e + 1) * 2 ^ e).
  { rewrite Z.shiftr_div_pow2 by lia.
    pose proof (Z.mul_succ_div_gt z (2 ^ e) Hpow). lia. }
  assert (Hq' : q' = Z.shiftr z e \/ q' = Z.shiftr z e + 1).
  { unfold q'. destruct (_ || _); auto. }
  assert (Hup : q' = Z.shiftr z e + 1 -> z <= 2 * Z.shiftl q' e).
  { intros ->. rewrite Z.shiftl_mul_pow2 by lia. lia. }
  assert (Hdown : q' = Z.shiftr z e -> z <= 2 * Z.shiftl q' e).
  { intros ->. rewrite Z.shiftl_mul_pow2 by lia. nia. }
  split; [|destruct Hq'; auto].
  destruct (Z.eq_dec q' (2 ^ 53)) as [Etop|Ntop].
  - rewrite Etop in *.
    replace (Z.shiftl (2 ^ 53) e) with (Z.shiftl (2 ^ 52) (e + 1)) in *.
    + apply round_double_shift; [lia|lia|exact Hfin].
    + rewrite !Z.shiftl_mul_pow2 by lia. rewrite Z.pow_add_r by lia.
      change (2 ^ 53) with (2 ^ 52 * 2). change (2 ^ 1) with 2. lia.
  - apply round_double_shift; [lia|lia|exact Hfin].
Qed.

Lemma to_double_idem z k :
  0 <= z -> to_double z = Fin k -> to_double k = Fin k /\ 0 <= k /\ z <= 2 * k.
Proof.
  intros Hz. unfold to_double at 1.
  rewrite (proj2 (Z.ltb_ge z 0) Hz). intros H.
  destruct (round_double_idem z k Hz H) as [Hk Hle].
  assert (0 <= k) by lia.
  split; [|split; assumption].
  unfold to_double. rewrite (proj2 (Z.ltb_ge k 0)) by assumption. exact Hk.
Qed.

(** The number of a natural number is never negative infinity. *)
Lemma to_double_not_negative z : 0 <= z -> to_double z <> Inf true.
Proof.
  intros Hz E. pose proof (to_double_lower z 0 Hz Hz ltac:(lia)) as H.
  rewrite E in H. discriminate H.
Qed.

Lemma parseInt_digits (ds : jsstring) :
  ds <> [] -> forallb is_digit ds = true ->
  parseInt ds = Some (to_double (digits_value 0 ds)).
Proof.
  intros Hne Hall. unfold parseInt.
  assert (Ht : take_digits ds = ds).
  { clear Hne. induction ds as [|d ds IH]; [reflexivity|]. cbn in *.
    apply andb_true_iff in Hall as [-> Hall]. rewrite IH by exact Hall.
    reflexivity. }
  destruct ds as [|d ds]; [congruence|]. cbn in Hall.
  apply andb_true_iff in Hall as [Hd _].
  assert (Hs : is_space d = false).
  { unfold is_digit, is_space, in_range in *. lia. }
  cbn [trimStart]. rewrite Hs.
  assert (d <> 45 /\ d <> 43) as [H45 H43].
  { unfold is_digit, in_range in Hd. lia. }
  rewrite (proj2 (Z.eqb_neq d 45) H45), (proj2 (Z.eqb_neq d 43) H43).
  rewrite Ht. f_equal. f_equal. lia.
Qed.

Lemma digits_value_nonneg (ds : jsstring) acc :
  0 <= acc -> forallb is_digit ds = true -> 0 <= digits_value acc ds.
Proof.
  revert acc. induction ds as [|d ds IH]; intros acc Hacc Hall; [exact Hacc|].
  cbn in Hall. apply andb_true_iff in Hall as [Hd Hall].
  cbn [digits_value]. apply IH; [|exact Hall].
  unfold is_digit, in_range in Hd. lia.
Qed.

Lemma uint_units_digits d : forallb is_digit (uint_units d) = true.
Proof. induction d; cbn; auto. Qed.

(** The decimal numeral of a natural number is a run of digits with the
    natural number as its value. *)
Lemma decimal_numeral z :
  0 <= z ->
  decimal z <> [] /\ forallb is_digit (decimal z) = true
  /\ digits_value 0 (decimal z) = z.
Proof.
  intros Hz. destruct z as [|p|p]; [repeat split; discriminate| |lia].
  cbn [decimal]. split; [apply uint_units_nonempty|].
  split; [apply uint_units_digits|].
  rewrite <- digits_value_of_uint, DecimalPos.Unsigned.of_to. reflexivity.
Qed.

(** Reading back a printed number below 10^21: [parseInt(String(n), 10)]
    is [n]. *)
Lemma parseInt_NumberToString z :
  0 <= z < 10 ^ 21 -> to_double z = Fin z ->
  parseInt (NumberToString z) = Some (Fin z).
Proof.
  intros Hz Hd. destruct (NumberToString_numeral z Hz Hd) as (Hne & Hall & Hv).
  rewrite (parseInt_digits _ Hne Hall), Hv. reflexivity.
Qed.

Lemma or_else_NumberToString z d :
  0 <= z < 10 ^ 21 -> to_double z = Fin z ->
  or_else (Some (NumberToString z)) d = NumberToString z.
Proof.
  intros Hz Hd. destruct (NumberToString_numeral z Hz Hd) as (Hne & _).
  destruct (NumberToString z); [congruence|reflexivity].
Qed.

(** Reading back a printed number from 10^21 on gives its first digit. *)
Lemma parseInt_NumberToString_exponent z :
  10 ^ 21 <= z -> to_double z = Fin z ->
  exists d : Z,
    1 <= d <= 9
    /\ parseInt (NumberToString z) = Some (Fin d)
    /\ or_else (Some (NumberToString z)) (js "0") = NumberToString z.
Proof.
  intros Hz Hd.
  destruct (NumberToString_exponent z Hz Hd) as (d & c & rest & -> & Hd9 & Hc).
  exists (d - 48). split; [lia|]. split; [|reflexivity].
  unfold parseInt. cbn [trimStart].
  assert (Hs : is_space d = false) by (unfold is_space, in_range; lia).
  rewrite Hs.
  rewrite (proj2 (Z.eqb_neq d 45)), (proj2 (Z.eqb_neq d 43)) by lia.
  cbn [take_digits].
  assert (Hdig : is_digit d = true) by (unfold is_digit, in_range; lia).
  assert (Hcd : is_digit c = false)
    by (unfold is_digit, in_range; destruct Hc; subst c; reflexivity).
  rewrite Hdig, Hcd. cbn [digits_value].
  rewrite to_double_safe by lia. f_equal. f_equal. lia.
Qed.

Lemma eqb_true_eq (a b : bool) : eqb a b = true <-> a = b.
Proof. destruct a, b; simpl; pure ltac:(intuition congruence). Qed.

Lemma filter_all_pass {A} (P : A -> Prop) `{!forall x, Decision (P x)} (l : list A) :
  (forall x, P x) -> filter P l = l.
Proof.
  intros HP. induction l as [|x l IH]; [reflexivity|].
  rewrite filter_cons. destruct (decide (P x)); [congruence|]. exfalso; auto.
Qed.

Ltac fuse_filters :=
  intros; unfold applyFilters, applyFilters_v2, passes;
  repeat match goal with
  | |- context [params_has ?k ?ps] => destruct (params_has k ps)
  end;
  cbn [data]; rewrite ?list_filter_filter;
  first
    [ symmetry; apply filter_all_pass; intros; reflexivity
    | apply list_filter_iff; intros r;
      rewrite ?andb_true_iff, ?eqb_true_eq; pure ltac:(tauto) ].

(** The five filters applied in sequence are one filter by the
    conjunction of the tests of the parameters that are present. *)
Lemma applyFilters_passes (records : list StringRecord) (params : URLSearchParams) :
  data (applyFilters records params)
  = filter (fun r => passes includes params r = true) records.
Proof. fuse_filters. Qed.

Lemma applyFilters_v2_passes (records : list StringRecord) (params : URLSearchParams) :
  data (applyFilters_v2 records params)
  = filter (fun r => passes (fun v c => includes (toLowerCase v) (toLowerCase c))
                       params r = true) records.
Proof. fuse_filters. Qed.

(** *** Objects and query parameters *)

Lemma obj_get_set_eq k v (o : JSObject) : obj_get k (obj_set k v o) = Some v.
Proof.
  unfold obj_get. induction o as [|[k' v'] o IH]; cbn.
  - rewrite bool_decide_true by reflexivity. reflexivity.
  - case_bool_decide as E; cbn.
    + rewrite bool_decide_true by reflexivity. reflexivity.
    + rewrite bool_decide_false by exact E. exact IH.
Qed.

Lemma obj_get_set_ne k k' v (o : JSObject) :
  k <> k' -> obj_get k (obj_set k' v o) = obj_get k o.
Proof.
  intros Hne. unfold obj_get. induction o as [|[k2 v2] o IH]; cbn.
  - rewrite bool_decide_false by congruence. reflexivity.
  - case_bool_decide as E; cbn.
    + subst k2. rewrite !bool_decide_false by congruence. reflexivity.
    + case_bool_decide; [reflexivity|exact IH].
Qed.

Lemma params_has_get k (ps : URLSearchParams) :
  params_has k ps = bool_decide (is_Some (params_get k ps)).
Proof.
  unfold params_has, params_get. apply bool_decide_ext.
  induction ps as [|[k' v'] ps IH].
  - split; [intros H; inversion H|intros [? H]; discriminate H].
  - rewrite fmap_cons, elem_of_cons. cbn [find fst].
    case_bool_decide as E.
    + subst k'. split; [eauto|auto].
    + rewrite IH. pure ltac:(intuition congruence).
Qed.

Lemma params_get_app k (a b : URLSearchParams) :
  params_get k (a ++ b) =
    match params_get k a with Some v => Some v | None => params_get k b end.
Proof.
  unfold params_get. induction a as [|[k' v'] a IH]; cbn; [reflexivity|].
  case_bool_decide; [reflexivity|exact IH].
Qed.

Lemma params_get_set_eq k v (ps : URLSearchParams) :
  params_get k (params_set k v ps) = Some v.
Proof.
  unfold params_set. rewrite params_has_get.
  case_bool_decide as E.
  - induction ps as [|[k' v'] ps IH]; [by destruct E|].
    unfold params_get in *. cbn in *. case_bool_decide as E'; cbn.
    + rewrite bool_decide_true by reflexivity. reflexivity.
    + rewrite bool_decide_false by exact E'. apply IH. exact E.
  - rewrite params_get_app.
    destruct (params_get k ps); [exfalso; eauto|].
    unfold params_get. cbn. rewrite bool_decide_true by reflexivity. reflexivity.
Qed.

Lemma params_get_filter_ne k k' (ps : URLSearchParams) :
  k <> k' -> params_get k (filter (fun kv => kv.1 <> k') ps) = params_get k ps.
Proof.
  intros Hne. unfold params_get. induction ps as [|[k2 v2] ps IH]; [reflexivity|].
  rewrite filter_cons. cbn. case_decide as E; cbn.
  - case_bool_decide; [reflexivity|exact IH].
  - try apply dec_stable in E. cbn in E. subst k2.
    rewrite bool_decide_false by congruence. exact IH.
Qed.

Lemma params_get_set_ne k k' v (ps : URLSearchParams) :
  k <> k' -> params_get k (params_set k' v ps) = params_get k ps.
Proof.
  intros Hne. unfold params_set. destruct (params_has k' ps).
  - induction ps as [|[k2 v2] ps IH]; [reflexivity|].
    case_bool_decide as E.
    + subst k2. unfold params_get at 1. cbn.
      rewrite !bool_decide_false by congruence.
      apply params_get_filter_ne. exact Hne.
    + unfold params_get in *. cbn. case_bool_decide; [reflexivity|exact IH].
  - rewrite params_get_app. destruct (params_get k ps); [reflexivity|].
    unfold params_get. cbn. rewrite bool_decide_false by congruence. reflexivity.
Qed.

Lemma obj_get_snoc k k' v (o : JSObject) :
  obj_get k (o ++ [(k', v)]) =
    match obj_get k o with
    | Some w => Some w
    | None => if bool_decide (k' = k) then Some v else None
    end.
Proof.
  unfold obj_get. induction o as [|[k2 v2] o IH]; cbn.
  - case_bool_decide; reflexivity.
  - destruct (bool_decide (k2 = k)); [reflexivity|exact IH].
Qed.

(** The parameters built from an object: each key carries the text of the
    value the object last received under it. *)
Lemma params_get_fold k (o : JSObject) (acc : URLSearchParams) :
  params_get k
    (fold_left (fun params kv => params_set kv.1 (String_of kv.2) params) o acc)
  = match obj_get k (rev o) with
    | Some v => Some (String_of v)
    | None => params_get k acc
    end.
Proof.
  revert acc. induction o as [|[k' v'] o IH]; intros acc; [reflexivity|].
  cbn [fold_left rev]. rewrite IH, obj_get_snoc.
  destruct (obj_get k (rev o)); [reflexivity|]. cbn [fst snd].
  case_bool_decide as E.
  - subst k'. apply params_get_set_eq.
  - apply params_get_set_ne. congruence.
Qed.

Lemma params_get_of_object k (o : JSObject) :
  params_get k (params_of_object o) = String_of <$> obj_get k (rev o).
Proof.
  unfold params_of_object. rewrite params_get_fold.
  destruct (obj_get k (rev o)); reflexivity.
Qed.

Lemma params_get_filter_eq k (ps : URLSearchParams) :
  params_get k (filter (fun kv => kv.1 <> k) ps) = None.
Proof.
  unfold params_get. induction ps as [|[k2 v2] ps IH]; [reflexivity|].
  rewrite filter_cons. cbn. case_decide as E; cbn; [|exact IH].
  rewrite bool_decide_false by exact E. exact IH.
Qed.

Lemma or_else_empty (c : jsstring) : or_else (Some c) [] = c.
Proof. destruct c; reflexivity. Qed.

Lemma passes_without_contains contains (params : URLSearchParams) c r :
  params_get (js "contains_character") params = Some c ->
  passes contains params r
  = passes contains
      (filter (fun kv => kv.1 <> js "contains_character") params) r
    && contains (r_value r) c.
Proof.
  intros Hc. unfold passes.
  rewrite !params_has_get, params_get_filter_eq, Hc, or_else_empty.
  rewrite !params_get_filter_ne by (vm_compute; congruence).
  rewrite (bool_decide_true (is_Some (Some c))) by eauto.
  rewrite (bool_decide_false (is_Some None)) by (intros [? ?]; discriminate).
  rewrite andb_true_r. reflexivity.
Qed.

(** With [contains_character = c] among the parameters, [index.ts] keeps,
    of the records the other parameters let through, those whose value
    includes [c] as it is written. *)
Lemma applyFilters_contains (records : list StringRecord) params c :
  params_get (js "contains_character") params = Some c ->
  data (applyFilters records params)
  = filter (fun r => includes (r_value r) c = true)
      (data (applyFilters records
               (filter (fun kv => kv.1 <> js "contains_character") params))).
Proof.
  intros Hc. rewrite !applyFilters_passes, list_filter_filter.
  apply list_filter_iff. intros r.
  rewrite (passes_without_contains _ _ c) by exact Hc.
  rewrite andb_true_iff. pure ltac:(tauto).
Qed.

(** With [contains_character = c] among the parameters, the handler of
    [README.md] keeps, of the records the other parameters let through,
    those whose lower-cased value includes the lower-cased [c]. *)
Lemma applyFilters_v2_contains (records : list StringRecord) params c :
  params_get (js "contains_character") params = Some c ->
  data (applyFilters_v2 records params)
  = filter (fun r => includes (toLowerCase (r_value r)) (toLowerCase c) = true)
      (data (applyFilters_v2 records
               (filter (fun kv => kv.1 <> js "contains_character") params))).
Proof.
  intros Hc. rewrite !applyFilters_v2_passes, list_filter_filter.
  apply list_filter_iff. intros r.
  rewrite (passes_without_contains _ _ c) by exact Hc.
  rewrite andb_true_iff. pure ltac:(tauto).
Qed.

(** C1 (evaluation at the failing input). [index.ts] asked for the records
    containing [a] drops the record whose value is [Apple], although the
    lower-cased value [apple] contains [a]: its containment test compares
    the stored value as written. *)
Theorem applyFilters_contains_case_sensitive (i t : jsstring) (p : StringProperties) :
  let r := {| r_id := i; r_value := js "Apple"; r_properties := p;
              r_created_at := t |} in
  data (applyFilters [r] [(js "contains_character", js "a")]) = []
  /\ includes (ascii_toLowerCase (r_value r)) (ascii_toLowerCase (js "a")) = true.
Proof.
  cbn zeta. split; [|reflexivity].
  rewrite (applyFilters_contains _ _ (js "a")) by reflexivity. reflexivity.
Qed.

(** C2 (evaluation at the failing input). With [min_length = 5],
    [max_length = 5] and [contains_character = a], the record whose value
    is [Apple] satisfies every predicate that is present, the containment
    test being the one on lower-cased texts, but [index.ts] does not
    return it; the two lengths alone let it through.  The defect is the
    one of C1: the containment test of [index.ts] compares the texts as
    they are written. *)
Theorem applyFilters_conjunction_diverges (i t : jsstring) :
  let r :=
    {| r_id := i; r_value := js "Apple";
       r_properties :=
         {| p_length := 5; p_is_palindrome := false;
            p_unique_characters := 4; p_word_count := 1;
            p_sha256_hash := i;
            p_character_frequency_map :=
              {[ js "A" := 1; js "p" := 2; js "l" := 1; js "e" := 1 ]} |};
       r_created_at := t |} in
  let lengths := [(js "min_length", js "5"); (js "max_length", js "5")] in
  let params := lengths ++ [(js "contains_character", js "a")] in
  passes (fun v c => includes (ascii_toLowerCase v) (ascii_toLowerCase c))
    params r = true
  /\ data (applyFilters [r] params) = []
  /\ data (applyFilters [r] lengths) = [r].
Proof.
  cbn zeta. split; [reflexivity|].
  rewrite !applyFilters_passes. split; reflexivity.
Qed.


(** ** The matcher *)

Lemma eat_Some (l s rest : jsstring) : eat l s = Some rest <-> s = l ++ rest.
Proof.
  revert s. induction l as [|a l IH]; intros s; cbn.
  - split; congruence.
  - destruct s as [|b s]; [split; discriminate|].
    destruct (Z.eqb_spec a b) as [->|Hne].
    + rewrite IH. split; congruence.
    + split; [discriminate|]. intros E. congruence.
Qed.

Lemma eat_app (l rest : jsstring) : eat l (l ++ rest) = Some rest.
Proof. apply eat_Some. reflexivity. Qed.

Lemma eat_None (l s : jsstring) :
  eat l s = None <-> forall rest, s <> l ++ rest.
Proof.
  split.
  - intros E rest Hs. apply eat_Some in Hs. congruence.
  - intros H. destruct (eat l s) as [rest|] eqn:E; [|reflexivity].
    apply eat_Some in E. exfalso. exact (H _ E).
Qed.

(** No match anywhere: every attempt, at every position, fails. *)
Lemma exec_from_None r (b a : jsstring) :
  exec_from r b a = None <->
  forall a1 a2, a = a1 ++ a2 -> ms r (MState (rev a1 ++ b) a2 None) = [].
Proof.
  revert b. induction a as [|c a IH]; intros b; cbn [exec_from].
  - destruct (ms r (MState b [] None)) eqn:E.
    + split; [|reflexivity]. intros _ a1 a2 Ha.
      symmetry in Ha. apply app_eq_nil in Ha as [-> ->]. exact E.
    + split; [discriminate|]. intros H. specialize (H [] [] eq_refl).
      cbn in H. congruence.
  - destruct (ms r (MState b (c :: a) None)) eqn:E.
    + rewrite IH. split.
      * intros H [|c' a1] a2 Ha; cbn in Ha.
        -- subst a2. exact E.
        -- injection Ha as <- ->. cbn [rev]. rewrite <- app_assoc. apply H.
           reflexivity.
      * intros H a1 a2 ->. specialize (H (c :: a1) a2 eq_refl).
        cbn [rev] in H. rewrite <- app_assoc in H. exact H.
    + split; [discriminate|]. intros H. specialize (H [] (c :: a) eq_refl).
      cbn in H. congruence.
Qed.

(** The match found is the first result of the first attempt that
    succeeds, from left to right. *)
Lemma exec_from_Some r (b a : jsstring) x :
  exec_from r b a = Some x <->
  exists a1 a2,
    a = a1 ++ a2
    /\ head (ms r (MState (rev a1 ++ b) a2 None)) = Some x
    /\ forall a1' a2', a = a1' ++ a2' -> (length a1' < length a1)%nat ->
         ms r (MState (rev a1' ++ b) a2' None) = [].
Proof.
  revert b. induction a as [|c a IH]; intros b; cbn [exec_from].
  - destruct (ms r (MState b [] None)) as [|y l] eqn:E.
    + split; [discriminate|]. intros (a1 & a2 & Ha & Hh & _).
      symmetry in Ha. apply app_eq_nil in Ha as [-> ->]. cbn in Hh.
      rewrite E in Hh. discriminate.
    + split.
      * intros [= ->]. exists [], []. cbn. rewrite E.
        repeat split. intros ? ? _ Hl. cbn in Hl. lia.
      * intros (a1 & a2 & Ha & Hh & _).
        symmetry in Ha. apply app_eq_nil in Ha as [-> ->]. cbn in Hh.
        rewrite E in Hh. cbn in Hh. congruence.
  - destruct (ms r (MState b (c :: a) None)) as [|y l] eqn:E.
    + rewrite IH. split.
      * intros (a1 & a2 & -> & Hh & Hmin). exists (c :: a1), a2.
        cbn [rev]. rewrite <- app_assoc. repeat split; [exact Hh|].
        intros [|c' a1'] a2' Ha Hl; cbn in Ha.
        -- subst a2'. exact E.
        -- injection Ha as <- Ha. cbn [rev]. rewrite <- app_assoc.
           apply Hmin; [exact Ha|cbn in Hl; lia].
      * intros (a1 & a2 & Ha & Hh & Hmin). destruct a1 as [|c' a1]; cbn in Ha.
        -- subst a2. cbn in Hh. rewrite E in Hh. discriminate.
        -- injection Ha as <- ->. exists a1, a2.
           cbn [rev] in Hh. rewrite <- app_assoc in Hh.
           repeat split; [exact Hh|].
           intros a1' a2' Ha Hl. specialize (Hmin (c :: a1') a2').
           cbn [rev] in Hmin. rewrite <- app_assoc in Hmin. apply Hmin.
           ++ cbn. congruence.
           ++ cbn. lia.
    + split.
      * intros [= ->]. exists [], (c :: a). cbn. rewrite E.
        repeat split. intros ? ? _ Hl. cbn in Hl. lia.
      * intros (a1 & a2 & Ha & Hh & Hmin). destruct a1 as [|c' a1]; cbn in Ha.
        -- subst a2. cbn in Hh. rewrite E in Hh. cbn in Hh. congruence.
        -- specialize (Hmin [] (c :: a) eq_refl ltac:(cbn; lia)).
           cbn in Hmin. congruence.
Qed.

Lemma regex_test_true r (s : jsstring) :
  regex_test r s = true <->
  exists a1 a2, s = a1 ++ a2 /\ ms r (MState (rev a1) a2 None) <> [].
Proof.
  unfold regex_test. destruct (exec_from r [] s) as [x|] eqn:E.
  - split; [intros _|reflexivity].
    apply exec_from_Some in E as (a1 & a2 & Ha & Hh & _).
    exists a1, a2. rewrite app_nil_r in Hh. split; [exact Ha|].
    intros Hn. rewrite Hn in Hh. discriminate.
  - split; [discriminate|]. intros (a1 & a2 & Ha & Hne). exfalso. apply Hne.
    rewrite exec_from_None in E. specialize (E a1 a2 Ha).
    rewrite app_nil_r in E. exact E.
Qed.

(** *** What a match consumes *)

Lemma consumed_prefix st y (m : jsstring) :
  after st = m ++ after y -> consumed st y = m.
Proof.
  intros Ha. unfold consumed. rewrite Ha, length_app.
  replace (length m + length (after y) - length (after y))%nat
    with (length m) by lia.
  apply take_app_length.
Qed.

Lemma elem_of_plus_states p (b a : jsstring) g x :
  x ∈ plus_states p b a g <->
  exists ds, ds <> [] /\ forallb p ds = true
    /\ a = ds ++ after x /\ before x = rev ds ++ b /\ group1 x = g.
Proof.
  revert b. induction a as [|c a IH]; intros b; cbn [plus_states].
  - split; [intros H; inversion H|].
    intros (ds & Hne & _ & Ha & _). symmetry in Ha.
    apply app_eq_nil in Ha as [-> _]. congruence.
  - destruct (p c) eqn:Hp.
    + rewrite elem_of_app, IH, list_elem_of_singleton. split.
      * intros [(ds & Hne & Hall & Ha & Hb & Hg)| ->].
        -- exists (c :: ds). cbn. rewrite Hp, Hall, Ha, Hb, <- app_assoc.
           repeat split; congruence.
        -- exists [c]. cbn. rewrite Hp. repeat split; congruence.
      * intros (ds & Hne & Hall & Ha & Hb & Hg).
        destruct ds as [|d ds]; [congruence|]. cbn in Ha, Hall, Hb.
        injection Ha as <- Ha. apply andb_true_iff in Hall as [_ Hall].
        destruct ds as [|d' ds].
        -- right. destruct x as [xb xa xg]. cbn in *. congruence.
        -- left. exists (d' :: ds). rewrite <- app_assoc in Hb.
           repeat split; try assumption; congruence.
    + split; [intros H; inversion H|].
      intros (ds & Hne & Hall & Ha & _).
      destruct ds as [|d ds]; [congruence|]. cbn in Ha, Hall.
      injection Ha as <- _. rewrite Hp in Hall. discriminate.
Qed.

(** *** The results of a match, constructor by constructor *)

Lemma elem_ms_Lit l st x :
  x ∈ ms (Lit l) st <->
  exists rest, after st = l ++ rest
    /\ x = MState (rev l ++ before st) rest (group1 st).
Proof.
  cbn [ms]. destruct (eat l (after st)) as [rest|] eqn:E.
  - apply eat_Some in E. rewrite list_elem_of_singleton. split.
    + intros ->. eauto.
    + intros (rest' & Ha & ->). rewrite E in Ha. apply app_inv_head in Ha.
      congruence.
  - split; [intros H; inversion H|]. intros (rest & Ha & _).
    rewrite eat_None in E. exfalso. exact (E _ Ha).
Qed.

Lemma elem_ms_Cls p st x :
  x ∈ ms (Cls p) st <->
  exists c rest, after st = c :: rest /\ p c = true
    /\ x = MState (c :: before st) rest (group1 st).
Proof.
  cbn [ms]. destruct (after st) as [|c rest].
  - split; [intros H; inversion H|]. intros (? & ? & ? & _). discriminate.
  - destruct (p c) eqn:Hp.
    + rewrite list_elem_of_singleton. split.
      * intros ->. eauto.
      * intros (c' & rest' & [= <- <-] & _ & ->). reflexivity.
    + split; [intros H; inversion H|].
      intros (c' & rest' & [= <- <-] & Hp' & _). congruence.
Qed.

Lemma elem_ms_Plus p st x :
  x ∈ ms (Plus p) st <->
  exists ds, ds <> [] /\ forallb p ds = true
    /\ after st = ds ++ after x /\ before x = rev ds ++ before st
    /\ group1 x = group1 st.
Proof. cbn [ms]. apply elem_of_plus_states. Qed.

Lemma elem_ms_WordB st x :
  x ∈ ms WordB st <-> at_word_boundary st = true /\ x = st.
Proof.
  cbn [ms]. destruct (at_word_boundary st).
  - rewrite list_elem_of_singleton. pure ltac:(tauto).
  - split; [intros H; inversion H|]. intros [? _]. discriminate.
Qed.

Lemma elem_ms_Seq r1 r2 st x :
  x ∈ ms (Seq r1 r2) st <-> exists y, y ∈ ms r1 st /\ x ∈ ms r2 y.
Proof. cbn [ms]. rewrite list_elem_of_bind. pure ltac:(firstorder). Qed.

Lemma elem_ms_Alt r1 r2 st x :
  x ∈ ms (Alt r1 r2) st <-> x ∈ ms r1 st \/ x ∈ ms r2 st.
Proof. cbn [ms]. apply elem_of_app. Qed.

Lemma elem_ms_Opt r st x :
  x ∈ ms (Opt r) st <-> x ∈ ms r st \/ x = st.
Proof. cbn [ms]. rewrite elem_of_app, list_elem_of_singleton. reflexivity. Qed.

Lemma elem_ms_Cap r st x :
  x ∈ ms (Cap r) st <->
  exists y, y ∈ ms r st
    /\ x = MState (before y) (after y) (Some (consumed st y)).
Proof. cbn [ms]. rewrite list_elem_of_fmap. pure ltac:(firstorder). Qed.

Lemma nonempty_elem {A} (l : list A) : l <> [] <-> exists x, x ∈ l.
Proof.
  destruct l as [|x l].
  - split; [congruence|]. intros [x H]. inversion H.
  - split; [intros _; exists x; left|discriminate].
Qed.

Lemma head_elem {A} (l : list A) x : head l = Some x -> x ∈ l.
Proof. destruct l; [discriminate|]. intros [= ->]. left. Qed.

(** Take a membership in the results of a match apart, down to the
    literals and classes of the pattern. *)
Ltac ms_inv :=
  repeat match goal with
  | H : _ ∈ ms (Seq _ _) _ |- _ =>
      let y := fresh "y" in let Hy := fresh "Hy" in
      apply elem_ms_Seq in H as (y & Hy & H)
  | H : _ ∈ ms (Alt _ _) _ |- _ => apply elem_ms_Alt in H as [H|H]
  | H : _ ∈ ms (Opt _) _ |- _ => apply elem_ms_Opt in H as [H|H]
  | H : _ ∈ ms (Cap _) _ |- _ =>
      let y := fresh "y" in let Hy := fresh "Hy" in
      apply elem_ms_Cap in H as (y & Hy & H)
  | H : _ ∈ ms WordB _ |- _ =>
      let Hb := fresh "Hb" in apply elem_ms_WordB in H as [Hb H]
  | H : _ ∈ ms (Lit _) _ |- _ =>
      let rest := fresh "rest" in let Ha := fresh "Ha" in
      apply elem_ms_Lit in H as (rest & Ha & H)
  | H : _ ∈ ms (Cls _) _ |- _ =>
      let c := fresh "c" in let rest := fresh "rest" in
      let Ha := fresh "Ha" in let Hc := fresh "Hc" in
      apply elem_ms_Cls in H as (c & rest & Ha & Hc & H)
  | H : _ ∈ ms (Plus _) _ |- _ =>
      let ds := fresh "ds" in let Hne := fresh "Hne" in
      let Hall := fresh "Hall" in let Ha := fresh "Ha" in
      let Hb := fresh "Hb" in
      apply elem_ms_Plus in H as (ds & Hne & Hall & Ha & Hb & H)
  end.

(** *** Building a match *)

Lemma ms_Lit_intro l b rest g :
  MState (rev l ++ b) rest g ∈ ms (Lit l) (MState b (l ++ rest) g).
Proof. apply elem_ms_Lit. exists rest. split; reflexivity. Qed.

Lemma ms_Cls_intro p c b rest g :
  p c = true -> MState (c :: b) rest g ∈ ms (Cls p) (MState b (c :: rest) g).
Proof. intros Hp. apply elem_ms_Cls. exists c, rest. auto. Qed.

Lemma ms_Plus_intro p ds b rest g :
  ds <> [] -> forallb p ds = true ->
  MState (rev ds ++ b) rest g ∈ ms (Plus p) (MState b (ds ++ rest) g).
Proof. intros Hne Hall. apply elem_ms_Plus. exists ds. auto. Qed.

Lemma ms_WordB_intro st : at_word_boundary st = true -> st ∈ ms WordB st.
Proof. intros Hb. apply elem_ms_WordB. auto. Qed.

Lemma ms_Seq_intro r1 r2 st y x :
  y ∈ ms r1 st -> x ∈ ms r2 y -> x ∈ ms (Seq r1 r2) st.
Proof. intros H1 H2. apply elem_ms_Seq. eauto. Qed.

Lemma ms_Alt_l r1 r2 st x : x ∈ ms r1 st -> x ∈ ms (Alt r1 r2) st.
Proof. intros H'. apply elem_ms_Alt. auto. Qed.

Lemma ms_Alt_r r1 r2 st x : x ∈ ms r2 st -> x ∈ ms (Alt r1 r2) st.
Proof. intros H'. apply elem_ms_Alt. auto. Qed.

Lemma ms_Opt_taken r st x : x ∈ ms r st -> x ∈ ms (Opt r) st.
Proof. intros H'. apply elem_ms_Opt. auto. Qed.

Lemma ms_Opt_skipped r st : st ∈ ms (Opt r) st.
Proof. apply elem_ms_Opt. auto. Qed.

Lemma ms_Cap_intro r st y :
  y ∈ ms r st ->
  MState (before y) (after y) (Some (consumed st y)) ∈ ms (Cap r) st.
Proof. intros H'. apply elem_ms_Cap. eauto. Qed.

(** *** The leftmost match *)


Lemma match_group1_None r (s : jsstring) :
  (forall a1 a2, s = a1 ++ a2 -> ms r (MState (rev a1) a2 None) = []) ->
  match_group1 r s = None.
Proof.
  intros H. unfold match_group1.
  assert (E : exec_from r [] s = None).
  { apply exec_from_None. intros a1 a2 Ha. rewrite app_nil_r. auto. }
  rewrite E. reflexivity.
Qed.

(** *** Patterns with one captured group

    [Occ a d]: the pattern matches at the start of [a] and group 1 then
    holds [d]. Given that the first result of an attempt is such an
    occurrence, that an occurrence makes the attempt succeed, and that the
    text fixes what an occurrence captures, [s.match(r)[1]] is what the
    leftmost occurrence captures. *)
Section Capture.

Variable r : regex.
Variable Occ : jsstring -> jsstring -> Prop.

Hypothesis Occ_first :
  forall b a x, head (ms r (MState b a None)) = Some x ->
    exists d, Occ a d /\ group1 x = Some d.
Hypothesis Occ_succeeds :
  forall b a d, Occ a d -> ms r (MState b a None) <> [].
Hypothesis Occ_unique :
  forall a d d', Occ a d -> Occ a d' -> d = d'.

Lemma capture_None (s : jsstring) :
  match_group1 r s = None <->
  forall pre a d, s = pre ++ a -> ~ Occ a d.
Proof.
  split.
  - intros E pre a d Hs HO. unfold match_group1 in E.
    destruct (exec_from r [] s) as [x|] eqn:Ex.
    + apply exec_from_Some in Ex as (a1 & a2 & _ & Hh & _).
      apply Occ_first in Hh as (d' & _ & Hg). cbn in E. congruence.
    + rewrite exec_from_None in Ex. specialize (Ex pre a Hs).
      exact (Occ_succeeds _ _ _ HO Ex).
  - intros H. apply match_group1_None. intros a1 a2 Hs.
    destruct (ms r (MState (rev a1) a2 None)) as [|x l] eqn:E; [reflexivity|].
    exfalso. destruct (Occ_first (rev a1) a2 x) as (d & HO & _).
    + rewrite E. reflexivity.
    + exact (H a1 a2 d Hs HO).
Qed.


Lemma capture_Some (s d : jsstring) :
  match_group1 r s = Some d -> exists pre a, s = pre ++ a /\ Occ a d.
Proof.
  unfold match_group1. intros E.
  destruct (exec_from r [] s) as [x|] eqn:Ex; [|discriminate]. cbn in E.
  apply exec_from_Some in Ex as (a1 & a2 & Hs & Hh & _).
  apply Occ_first in Hh as (d' & HO & Hg).
  exists a1, a2. split; [exact Hs|]. congruence.
Qed.

End Capture.

(** ** The patterns of the interpreter *)

Lemma head_is_word_app_l (w post : jsstring) :
  w <> [] -> head_is_word (w ++ post) = head_is_word w.
Proof. destruct w; [congruence|reflexivity]. Qed.

Ltac word_boundary :=
  apply ms_WordB_intro; unfold at_word_boundary; cbn [before after];
  rewrite ?head_is_word_app_l by (cbv; discriminate);
  repeat match goal with
  | H : head_is_word _ = false |- _ => rewrite H
  end;
  reflexivity.

Lemma single_word_at (b a : jsstring) :
  ms re_single_word (MState b a None) <> [] <->
  exists w post,
    w ∈ [js "single word"; js "one word"; js "1 word"]
    /\ a = w ++ post /\ head_is_word b = false /\ head_is_word post = false.
Proof.
  rewrite nonempty_elem. unfold re_single_word. split.
  - intros [x Hx]. ms_inv; subst; cbn [after before group1] in *; subst.
    all: unfold at_word_boundary in *; cbn [after before] in *.
    all: rewrite ?head_is_word_app_l in * by (cbv; discriminate).
    all: eexists _, _; split; [|split; [reflexivity|]].
    all: try (destruct (head_is_word b), (head_is_word rest);
              pure ltac:(vm_compute in *; intuition congruence)).
    all: first [left|right; left|right; right; left].
  - intros (w & post & Hw & -> & Hb & Hpost).
    rewrite !elem_of_cons in Hw.
    destruct Hw as [->|[->|[->|Hw]]]; [..|inversion Hw].
    all: eexists; eapply ms_Seq_intro; [word_boundary|].
    all: eapply ms_Seq_intro; [apply ms_Cap_intro|].
    1: apply ms_Alt_l, ms_Lit_intro.
    2: apply ms_Alt_r, ms_Alt_l, ms_Lit_intro.
    3: { apply ms_Alt_r, ms_Alt_r.
         eapply ms_Seq_intro; [word_boundary|apply ms_Lit_intro]. }
    all: word_boundary.
Qed.

Lemma single_word_test (s : jsstring) :
  regex_test re_single_word s = true <-> single_word_rule s.
Proof.
  rewrite regex_test_true. unfold single_word_rule, phrase_at. split.
  - intros (a1 & a2 & -> & Hne). apply single_word_at in Hne.
    destruct Hne as (w & post & Hw & -> & Hb & Hpost).
    exists a1, w, post. auto.
  - intros (pre & w & post & Hw & -> & Hb & Hpost).
    exists pre, (w ++ post). split; [reflexivity|].
    apply single_word_at. exists w, post. auto.
Qed.

Lemma palindromic_at (b a : jsstring) :
  ms re_palindromic (MState b a None) <> [] <->
  exists w post,
    w ∈ [js "palindromic"; js "palindrome"; js "palindromes"] /\ a = w ++ post.
Proof.
  rewrite nonempty_elem. unfold re_palindromic. split.
  - intros [x Hx]. ms_inv; subst; cbn [after before group1] in *; subst.
    + exists (js "palindromic"), rest. split; [left|reflexivity].
    + exists (js "palindrome"), rest. split; [right; left|reflexivity].
    + exists (js "palindromic"), (js " strings" ++ rest).
      split; [left|reflexivity].
    + exists (js "palindromes"), rest. split; [right; right; left|reflexivity].
  - intros (w & post & Hw & ->). rewrite !elem_of_cons in Hw.
    destruct Hw as [->|[->|[->|Hw]]]; [..|inversion Hw]; eexists;
      apply ms_Cap_intro.
    + apply ms_Alt_l, ms_Lit_intro.
    + apply ms_Alt_r, ms_Alt_l, ms_Lit_intro.
    + apply ms_Alt_r, ms_Alt_r, ms_Alt_r, ms_Lit_intro.
Qed.

Lemma palindromic_test (s : jsstring) :
  regex_test re_palindromic s = true <-> palindrome_rule s.
Proof.
  rewrite regex_test_true. unfold palindrome_rule. split.
  - intros (a1 & a2 & -> & Hne). apply palindromic_at in Hne.
    destruct Hne as (w & post & Hw & ->). exists a1, w, post. auto.
  - intros (pre & w & post & Hw & ->).
    exists pre, (w ++ post). split; [reflexivity|].
    apply palindromic_at. exists w, post. auto.
Qed.

Lemma longer_than_ms (b a : jsstring) x :
  x ∈ ms re_longer_than (MState b a None) ->
  exists ds post,
    a = js "longer than " ++ ds ++ js " character" ++ post
    /\ ds <> [] /\ forallb is_digit ds = true /\ group1 x = Some ds.
Proof.
  unfold re_longer_than. intros Hx.
  ms_inv; subst; cbn [after before group1] in *; subst.
  all: rewrite (consumed_prefix _ _ ds) by reflexivity.
  all: match goal with H : after _ = _ |- _ => rewrite H end.
  all: eexists ds, _; repeat split; assumption.
Qed.

Lemma longer_than_ms_intro (b ds post : jsstring) :
  ds <> [] -> forallb is_digit ds = true ->
  ms re_longer_than
     (MState b (js "longer than " ++ ds ++ js " character" ++ post) None) <> [].
Proof.
  intros Hne Hall. apply nonempty_elem. unfold re_longer_than.
  eexists. eapply ms_Seq_intro; [apply ms_Lit_intro|].
  eapply ms_Seq_intro; [apply ms_Cap_intro, ms_Plus_intro; assumption|].
  cbn [before after].
  eapply ms_Seq_intro; [apply ms_Lit_intro|apply ms_Opt_skipped].
Qed.



Lemma longer_than_occ_first b a x :
  head (ms re_longer_than (MState b a None)) = Some x ->
  exists ds, longer_than_occ a ds /\ group1 x = Some ds.
Proof.
  intros Hh. apply head_elem, longer_than_ms in Hh.
  destruct Hh as (ds & post & Ha & Hne & Hall & Hg).
  exists ds. split; [exists post; auto|exact Hg].
Qed.

Lemma longer_than_occ_succeeds (b a ds : jsstring) :
  longer_than_occ a ds -> ms re_longer_than (MState b a None) <> [].
Proof.
  intros (post & -> & Hne & Hall). apply longer_than_ms_intro; assumption.
Qed.


Lemma the_letter_ms (b a : jsstring) x :
  x ∈ ms re_contain_the_letter (MState b a None) ->
  exists d, the_letter_occ a d /\ group1 x = Some d.
Proof.
  unfold re_contain_the_letter. intros Hx.
  ms_inv; subst; cbn [after before group1] in *; subst.
  all: rewrite (consumed_prefix _ _ [c]) by reflexivity.
  all: exists [c]; split; [|reflexivity].
  - exists c, (js "ing"); eexists. repeat split; [assumption|left].
  - exists c, (js "s"); eexists. repeat split; [assumption|right; left].
  - exists c, []; eexists. repeat split; [assumption|right; right; left].
Qed.

Lemma the_letter_occ_succeeds (b a d : jsstring) :
  the_letter_occ a d -> ms re_contain_the_letter (MState b a None) <> [].
Proof.
  intros (c & ending & post & -> & Hc & He & ->). apply nonempty_elem.
  unfold re_contain_the_letter. rewrite !elem_of_cons in He.
  destruct He as [->|[->|[->|He]]]; [..|inversion He]; cbn [app]; eexists;
    (eapply ms_Seq_intro; [apply ms_Lit_intro|]);
    cbn [before after]; eapply ms_Seq_intro.
  1: apply ms_Opt_taken, ms_Alt_l, ms_Lit_intro.
  2: apply ms_Opt_taken, ms_Alt_r, ms_Lit_intro.
  3: apply ms_Opt_skipped.
  all: (eapply ms_Seq_intro; [apply ms_Lit_intro|]);
    apply ms_Cap_intro, ms_Cls_intro; exact Hc.
Qed.


Lemma consumed_unit b c (rest : jsstring) g b' g' :
  consumed (MState b (c :: rest) g) (MState b' rest g') = [c].
Proof. apply consumed_prefix. reflexivity. Qed.

(** The results of [re_containing], in the order the matcher tries them:
    first through [the ], then without it. *)
Lemma ms_containing (b a : jsstring) :
  ms re_containing (MState b a None) =
    match eat (js "containing ") a with
    | None => []
    | Some r1 =>
        match eat (js "the ") r1 with
        | Some (c :: r2) =>
            if is_lower c
            then [MState (c :: rev (js "the ") ++ rev (js "containing ") ++ b)
                    r2 (Some [c])]
            else []
        | _ => []
        end
        ++ match r1 with
           | c :: r2 =>
               if is_lower c
               then [MState (c :: rev (js "containing ") ++ b) r2 (Some [c])]
               else []
           | [] => []
           end
    end.
Proof.
  unfold re_containing. cbn [ms after before group1].
  destruct (eat (js "containing ") a) as [r1|]; [|reflexivity].
  cbn [mbind list_bind app]. rewrite app_nil_r.
  cbn [ms after before group1]. rewrite bind_app.
  f_equal.
  - destruct (eat (js "the ") r1) as [[|c r2]|]; try reflexivity.
    cbn [mbind list_bind after before group1 app].
    destruct (is_lower c); [|reflexivity].
    cbn [fmap list_fmap app before after]. rewrite consumed_unit. reflexivity.
  - cbn [mbind list_bind after before group1 app]. rewrite app_nil_r.
    destruct r1 as [|c r2]; [reflexivity|].
    destruct (is_lower c); [|reflexivity].
    cbn [fmap list_fmap app before after]. rewrite consumed_unit. reflexivity.
Qed.

Lemma containing_the_split (rest : jsstring) :
  js "containing the " ++ rest = js "containing " ++ js "the " ++ rest.
Proof. reflexivity. Qed.

Lemma containing_occ_first b a x :
  head (ms re_containing (MState b a None)) = Some x ->
  exists d, containing_occ a d /\ group1 x = Some d.
Proof.
  rewrite ms_containing.
  destruct (eat (js "containing ") a) as [r1|] eqn:E1; [|discriminate].
  apply eat_Some in E1. subst a.
  assert (Hskip : forall c r2 y,
            r1 = c :: r2 -> is_lower c = true ->
            (~ exists c' post', is_lower c' = true
                 /\ js "containing " ++ r1 = js "containing the " ++ c' :: post') ->
            y = MState (c :: rev (js "containing ") ++ b) r2 (Some [c]) ->
            exists d, containing_occ (js "containing " ++ r1) d
                      /\ group1 y = Some d).
  { intros c r2 y -> Hc Hno ->. exists [c]. split; [|reflexivity].
    exists c. repeat split; [exact Hc|]. right. split; [eauto|exact Hno]. }
  destruct (eat (js "the ") r1) as [[|c r2]|] eqn:E2.
  - apply eat_Some in E2. subst r1. cbn [app]. intros Hh.
    apply (Hskip 116 (js "he ") x); [reflexivity|reflexivity| |].
    + intros (c' & post' & _ & E). rewrite containing_the_split in E.
      do 2 apply app_inv_head in E. cbv in E. discriminate.
    + cbv in Hh. injection Hh as <-. reflexivity.
  - apply eat_Some in E2. subst r1. destruct (is_lower c) eqn:Hc.
    + cbn [app head]. intros [= <-]. exists [c]. split; [|reflexivity].
      exists c. repeat split; [exact Hc|]. left. eauto.
    + cbn [app]. intros Hh.
      apply (Hskip 116 (js "he " ++ c :: r2) x); [reflexivity|reflexivity| |].
      * intros (c' & post' & Hc' & E). rewrite containing_the_split in E.
        do 2 apply app_inv_head in E. congruence.
      * change (js "the " ++ c :: r2) with (116 :: js "he " ++ c :: r2) in Hh.
        change (is_lower 116) with true in Hh. cbn [head] in Hh.
        injection Hh as <-. reflexivity.
  - cbn [app]. destruct r1 as [|c r2]; [discriminate|].
    destruct (is_lower c) eqn:Hc; [|discriminate]. cbn [head]. intros [= <-].
    eapply Hskip; [reflexivity|exact Hc| |reflexivity].
    intros (c' & post' & _ & E). rewrite containing_the_split in E.
    apply app_inv_head in E. rewrite eat_None in E2. exact (E2 _ E).
Qed.

Lemma containing_occ_succeeds (b a d : jsstring) :
  containing_occ a d -> ms re_containing (MState b a None) <> [].
Proof.
  intros (c & -> & Hc & [[post ->]|[[post ->] _]]); rewrite ms_containing.
  - rewrite containing_the_split, !eat_app, Hc. discriminate.
  - rewrite eat_app, Hc. intros E. apply app_eq_nil in E as [_ E].
    discriminate.
Qed.


(** ** The interpreter *)

Lemma parseNaturalLanguageQuery_unfold q :
  parseNaturalLanguageQuery q =
    let out := rules_object (trim (toLowerCase q)) in
    if bool_decide (length (obj_keys out) = 0%nat) then None else Some out.
Proof. reflexivity. Qed.

Lemma parsed_key_rules k q :
  parsed_key k q = obj_get k (rules_object (trim (toLowerCase q))).
Proof.
  unfold parsed_key. rewrite parseNaturalLanguageQuery_unfold. cbn zeta.
  case_bool_decide as E; [|reflexivity].
  destruct (rules_object (trim (toLowerCase q))); [reflexivity|discriminate].
Qed.

Lemma parseNaturalLanguageQuery_Some q out :
  parseNaturalLanguageQuery q = Some out ->
  out = rules_object (trim (toLowerCase q)).
Proof.
  rewrite parseNaturalLanguageQuery_unfold. cbn zeta.
  case_bool_decide; congruence.
Qed.

Lemma obj_set_nonempty k v (o : JSObject) : obj_set k v o <> [].
Proof. destruct o as [|[k' v'] o]; cbn; [|case_bool_decide]; discriminate. Qed.

Lemma obj_keys_set k v (o : JSObject) :
  obj_keys (obj_set k v o) =
    if bool_decide (k ∈ obj_keys o) then obj_keys o else obj_keys o ++ [k].
Proof.
  unfold obj_keys. induction o as [|[k' v'] o IH]; cbn [obj_set fmap list_fmap fst].
  - rewrite bool_decide_false by (intros H; inversion H). reflexivity.
  - destruct (decide (k' = k)) as [->|Hne].
    + rewrite (bool_decide_true (k = k)) by reflexivity.
      rewrite bool_decide_true by left. reflexivity.
    + rewrite (bool_decide_false (k' = k)) by exact Hne.
      cbn [fmap list_fmap fst]. rewrite IH.
      destruct (decide (k ∈ o.*1)) as [Hin|Hnin].
      * rewrite !bool_decide_true; [reflexivity|right; exact Hin|exact Hin].
      * rewrite !bool_decide_false; [reflexivity| |exact Hnin].
        rewrite elem_of_cons. pure ltac:(intuition congruence).
Qed.

Ltac key_ne := cbv; congruence.

Ltac rules_cases lowered :=
  unfold rules_object;
  destruct (regex_test re_single_word lowered);
  destruct (regex_test re_palindromic lowered);
  (destruct (match_group1 re_longer_than lowered) as [digits|];
   [destruct (parseInt digits)|]);
  destruct (match_group1 re_contain_the_letter lowered);
  try destruct (match_group1 re_containing lowered).

Lemma rules_word_count lowered :
  obj_get (js "word_count") (rules_object lowered) =
    if regex_test re_single_word lowered then Some (VNum (Some (Fin 1))) else None.
Proof.
  rules_cases lowered; cbn zeta;
    rewrite ?obj_get_set_ne by key_ne; rewrite ?obj_get_set_eq; reflexivity.
Qed.

Lemma rules_is_palindrome lowered :
  obj_get (js "is_palindrome") (rules_object lowered) =
    if regex_test re_palindromic lowered then Some (VBool true) else None.
Proof.
  rules_cases lowered; cbn zeta;
    rewrite ?obj_get_set_ne by key_ne; rewrite ?obj_get_set_eq; reflexivity.
Qed.

Lemma rules_min_length lowered :
  obj_get (js "min_length") (rules_object lowered) =
    match match_group1 re_longer_than lowered with
    | Some digits =>
        match parseInt digits with
        | Some n => Some (VNum (double_add n (Fin 1)))
        | None => None
        end
    | None => None
    end.
Proof.
  rules_cases lowered; cbn zeta;
    rewrite ?obj_get_set_ne by key_ne; rewrite ?obj_get_set_eq; reflexivity.
Qed.

Lemma rules_contains_character lowered :
  obj_get (js "contains_character") (rules_object lowered) =
    match match_group1 re_contain_the_letter lowered with
    | Some c => Some (VStr c)
    | None =>
        match match_group1 re_containing lowered with
        | Some c => Some (VStr c)
        | None => None
        end
    end.
Proof.
  rules_cases lowered; cbn zeta;
    rewrite ?obj_get_set_ne by key_ne; rewrite ?obj_get_set_eq; reflexivity.
Qed.

Lemma rules_other_key lowered k :
  k ∉ [js "word_count"; js "is_palindrome"; js "min_length";
       js "contains_character"] ->
  obj_get k (rules_object lowered) = None.
Proof.
  intros Hk. rewrite !not_elem_of_cons in Hk.
  destruct Hk as (H1 & H2 & H3 & H4 & _).
  rules_cases lowered; cbn zeta;
    rewrite ?obj_get_set_ne by assumption; reflexivity.
Qed.

Lemma rules_keys_NoDup lowered : NoDup (obj_keys (rules_object lowered)).
Proof.
  rules_cases lowered; cbn zeta;
    apply (bool_decide_unpack _); vm_compute; exact I.
Qed.

Lemma rules_empty lowered :
  rules_object lowered = [] <->
  regex_test re_single_word lowered = false
  /\ regex_test re_palindromic lowered = false
  /\ match_group1 re_longer_than lowered = None
  /\ match_group1 re_contain_the_letter lowered = None
  /\ match_group1 re_containing lowered = None.
Proof.
  pose proof (capture_Some re_longer_than longer_than_occ longer_than_occ_first
                lowered) as Hd.
  unfold rules_object.
  destruct (regex_test re_single_word lowered);
  destruct (regex_test re_palindromic lowered);
  destruct (match_group1 re_longer_than lowered) as [digits|] eqn:E3;
  destruct (match_group1 re_contain_the_letter lowered);
  destruct (match_group1 re_containing lowered); cbn zeta.
  all: try (destruct (Hd digits eq_refl) as (? & ? & _ & ? & _ & Hne & Hall);
            rewrite (parseInt_digits digits Hne Hall)).
  all: split; [intros H; try (exfalso; revert H; apply obj_set_nonempty);
               try discriminate H; auto
              |intros (? & ? & ? & ? & ?); try discriminate; reflexivity].
Qed.

Lemma longer_than_at_occ (s pre ds post : jsstring) :
  longer_than_at s pre ds post ->
  s = pre ++ (js "longer than " ++ ds ++ js " character" ++ post)
  /\ longer_than_occ (js "longer than " ++ ds ++ js " character" ++ post) ds.
Proof. intros (Hs & Hne & Hall). split; [exact Hs|]. exists post. auto. Qed.

Lemma longer_than_occ_at (s pre a ds : jsstring) :
  s = pre ++ a -> longer_than_occ a ds ->
  exists post, longer_than_at s pre ds post.
Proof. intros -> (post & -> & Hne & Hall). exists post. repeat split; auto. Qed.

Lemma the_letter_at_occ (s pre : jsstring) c :
  the_letter_at s pre c <-> exists a, s = pre ++ a /\ the_letter_occ a [c].
Proof.
  split.
  - intros (Hc & ending & post & He & ->). eexists. split; [reflexivity|].
    exists c, ending, post. auto.
  - intros (a & -> & c' & ending & post & [= ->] & Hc & He & ->).
    split; [exact Hc|]. exists ending, post. auto.
Qed.

Lemma containing_at_occ (s pre : jsstring) c :
  containing_at s pre c <-> exists a, s = pre ++ a /\ containing_occ a [c].
Proof.
  split.
  - intros (Hc & [[post ->]|[[post ->] Hno]]).
    + eexists. split; [reflexivity|]. exists c. repeat split; [exact Hc|].
      left. eauto.
    + eexists. split; [reflexivity|]. exists c. repeat split; [exact Hc|].
      right. split; [eauto|]. intros (c' & post' & Hc' & E). apply Hno.
      exists c', post'. split; [exact Hc'|]. rewrite E. reflexivity.
  - intros (a & -> & c' & [= ->] & Hc & [[post ->]|[[post ->] Hno]]).
    + split; [exact Hc|]. left. eauto.
    + split; [exact Hc|]. right. split; [eauto|].
      intros (c'' & post' & Hc'' & E). apply Hno. exists c'', post'.
      split; [exact Hc''|]. apply app_inv_head in E. exact E.
Qed.


(** *** What the routes do with the interpretation *)

Lemma rules_no_max_length lowered :
  obj_get (js "max_length") (rules_object lowered) = None.
Proof.
  apply rules_other_key. rewrite !not_elem_of_cons.
  repeat split; try key_ne. intros H. inversion H.
Qed.

Lemma interpreted_never_conflicting q out :
  parseNaturalLanguageQuery q = Some out ->
  obj_get (js "max_length") out = None /\ conflicting out = false.
Proof.
  intros Hout. apply parseNaturalLanguageQuery_Some in Hout. subst out.
  unfold conflicting. rewrite rules_no_max_length.
  split; [reflexivity|].
  destruct (obj_get (js "min_length") _); reflexivity.
Qed.

Ltac response_differs :=
  let E := fresh "E" in
  intros E; unfold json in E;
  first [discriminate E | cbv in E; discriminate E].

Lemma get_natural_language_not_conflicting request st :
  get_natural_language request st <> json (PError (js "Conflicting filters")) 422
  /\ status (get_natural_language request st) <> 422.
Proof.
  unfold get_natural_language.
  case_bool_decide; [split; [response_differs|discriminate]|].
  destruct (parseNaturalLanguageQuery _) as [parsed|] eqn:Hq;
    [|split; [response_differs|discriminate]].
  destruct (interpreted_never_conflicting _ _ Hq) as [_ ->].
  split; [response_differs|discriminate].
Qed.

Lemma get_natural_language_v2_not_conflicting request st :
  get_natural_language_v2 request st <> json (PError (js "Conflicting filters")) 422
  /\ status (get_natural_language_v2 request st) <> 422.
Proof.
  unfold get_natural_language_v2.
  case_bool_decide; [split; [response_differs|discriminate]|].
  destruct (parseNaturalLanguageQuery _) as [parsed|] eqn:Hq;
    [|split; [response_differs|discriminate]].
  destruct (interpreted_never_conflicting _ _ Hq) as [_ ->].
  split; [response_differs|discriminate].
Qed.

Lemma get_string_not_conflicting hash_of seg st :
  get_string hash_of seg st <> json (PError (js "Conflicting filters")) 422.
Proof. unfold get_string. repeat case_match; response_differs. Qed.

Lemma delete_string_not_conflicting hash_of seg st :
  (delete_string hash_of seg st).1 <> json (PError (js "Conflicting filters")) 422.
Proof. unfold delete_string. repeat case_match; cbn [fst]; response_differs. Qed.

Lemma post_strings_not_conflicting request now st :
  (post_strings request now st).1 <> json (PError (js "Conflicting filters")) 422.
Proof. unfold post_strings. repeat case_match; cbn [fst]; response_differs. Qed.

Lemma post_strings_v2_not_conflicting request now st :
  (post_strings_v2 request now st).1
  <> json (PError (js "Conflicting filters")) 422.
Proof. unfold post_strings_v2. repeat case_match; cbn [fst]; response_differs. Qed.

Lemma fetch_not_conflicting request now st :
  (fetch request now st).1 <> json (PError (js "Conflicting filters")) 422.
Proof.
  unfold fetch. cbn zeta.
  repeat match goal with
  | |- context [if ?c then _ else _] => destruct c
  end; cbn [fst].
  - apply post_strings_not_conflicting.
  - apply get_natural_language_not_conflicting.
  - apply get_string_not_conflicting.
  - apply delete_string_not_conflicting.
  - unfold get_strings. response_differs.
  - response_differs.
Qed.

Lemma fetch_v2_not_conflicting request now st :
  (fetch_v2 request now st).1 <> json (PError (js "Conflicting filters")) 422.
Proof.
  unfold fetch_v2. cbn zeta.
  repeat match goal with
  | |- context [if ?c then _ else _] => destruct c
  end; cbn [fst].
  - apply post_strings_v2_not_conflicting.
  - apply get_natural_language_v2_not_conflicting.
  - apply get_string_not_conflicting.
  - apply delete_string_not_conflicting.
  - unfold get_strings_v2. case_match; response_differs.
  - response_differs.
Qed.

(** C10. No interpretation carries the key [max_length]; so the test for
    conflicting filters is never true of an interpretation, and neither
    route for natural-language queries, nor any other route of either
    handler, answers with the conflicting-filters error. *)
Theorem max_length_never_interpreted
    (q : jsstring) (request : Request) (now : jsstring) (st : Store) :
  (forall out, parseNaturalLanguageQuery q = Some out ->
     obj_get (js "max_length") out = None /\ conflicting out = false)
  /\ parsed_key (js "max_length") q = None
  /\ (get_natural_language request st
        <> json (PError (js "Conflicting filters")) 422
      /\ status (get_natural_language request st) <> 422)
  /\ (get_natural_language_v2 request st
        <> json (PError (js "Conflicting filters")) 422
      /\ status (get_natural_language_v2 request st) <> 422)
  /\ (fetch request now st).1 <> json (PError (js "Conflicting filters")) 422
  /\ (fetch_v2 request now st).1 <> json (PError (js "Conflicting filters")) 422.
Proof.
  split; [apply interpreted_never_conflicting|].
  split; [rewrite parsed_key_rules; apply rules_no_max_length|].
  split; [apply get_natural_language_not_conflicting|].
  split; [apply get_natural_language_v2_not_conflicting|].
  split; [apply fetch_not_conflicting|apply fetch_v2_not_conflicting].
Qed.

Lemma parseNaturalLanguageQuery_None q :
  parseNaturalLanguageQuery q = None <->
  rules_object (trim (toLowerCase q)) = [].
Proof.
  rewrite parseNaturalLanguageQuery_unfold. cbn zeta.
  destruct (rules_object (trim (toLowerCase q))) as [|kv o].
  - split; reflexivity.
  - split; discriminate.
Qed.

(** C4. The interpreter returns [null] exactly when none of its rules
    fires ([the quick brown fox] is such a query); both routes answer a
    query without interpretation with the parse-failure error, status 400,
    not with a list of records; and that answer differs from the
    conflicting-filters error in status and in message. *)
Theorem parseNaturalLanguageQuery_null
    (q : jsstring) (request : Request) (now : jsstring) (st : Store) :
  let lowered := trim (toLowerCase q) in
  let parse_failure :=
    json (PError (js "Unable to parse natural language query")) 400 in
  (parseNaturalLanguageQuery q = None <->
     ~ single_word_rule lowered
     /\ ~ palindrome_rule lowered
     /\ (forall pre ds post, ~ longer_than_at lowered pre ds post)
     /\ (forall pre c, ~ the_letter_at lowered pre c)
     /\ (forall pre c, ~ containing_at lowered pre c))
  /\ parseNaturalLanguageQuery (js "the quick brown fox") = None
  /\ (let query := or_else (params_get (js "query") (req_searchParams request)) [] in
      query <> [] -> parseNaturalLanguageQuery query = None ->
      get_natural_language request st = parse_failure
      /\ get_natural_language_v2 request st = parse_failure
      /\ (req_method request = js "GET" ->
          strip_trailing_slashes (req_pathname request)
            = js "/strings/filter-by-natural-language" ->
          fetch request now st = (parse_failure, st)
          /\ fetch_v2 request now st = (parse_failure, st)))
  /\ status parse_failure <> 422
  /\ body parse_failure <> BJson (PError (js "Conflicting filters"))
  /\ parse_failure <> json (PError (js "Conflicting filters")) 422.
Proof.
  cbn zeta. set (lowered := trim (toLowerCase q)).
  split.
  { rewrite parseNaturalLanguageQuery_None, rules_empty. fold lowered.
    rewrite <- !not_true_iff_false, single_word_test, palindromic_test.
    rewrite (capture_None _ longer_than_occ longer_than_occ_first
               longer_than_occ_succeeds).
    rewrite (capture_None _ the_letter_occ
               (fun b a x Hh => the_letter_ms b a x (head_elem _ _ Hh))
               the_letter_occ_succeeds).
    rewrite (capture_None _ containing_occ containing_occ_first
               containing_occ_succeeds).
    split.
    - intros (H1 & H2 & H3 & H4 & H5). repeat split; try assumption.
      + intros pre ds post Hat. apply longer_than_at_occ in Hat as [Hs HO].
        exact (H3 _ _ _ Hs HO).
      + intros pre c Hat. apply the_letter_at_occ in Hat as (a & Hs & HO).
        exact (H4 _ _ _ Hs HO).
      + intros pre c Hat. apply containing_at_occ in Hat as (a & Hs & HO).
        exact (H5 _ _ _ Hs HO).
    - intros (H1 & H2 & H3 & H4 & H5). repeat split; try assumption.
      + intros pre a d Hs HO.
        destruct (longer_than_occ_at _ _ _ _ Hs HO) as [post Hat].
        exact (H3 _ _ _ Hat).
      + intros pre a d Hs HO. pose proof HO as (c & ? & ? & -> & _).
        apply (H4 pre c). apply the_letter_at_occ. eauto.
      + intros pre a d Hs HO. pose proof HO as (c & -> & _).
        apply (H5 pre c). apply containing_at_occ. eauto. }
  split.
  { unfold parseNaturalLanguageQuery. rewrite toLowerCase_ascii by reflexivity.
    vm_compute. reflexivity. }
  split.
  { intros Hq Hnone.
    assert (H1 : get_natural_language request st
                 = json (PError (js "Unable to parse natural language query")) 400).
    { unfold get_natural_language. rewrite bool_decide_false by exact Hq.
      rewrite Hnone. reflexivity. }
    assert (H2 : get_natural_language_v2 request st
                 = json (PError (js "Unable to parse natural language query")) 400).
    { unfold get_natural_language_v2. rewrite bool_decide_false by exact Hq.
      rewrite Hnone. reflexivity. }
    split; [exact H1|]. split; [exact H2|].
    intros Hm Hp. split.
    - unfold fetch. cbn zeta. rewrite Hm, Hp, H1. reflexivity.
    - unfold fetch_v2. cbn zeta. rewrite Hm, Hp, H2. reflexivity. }
  split; [discriminate|].
  split; [intros E; cbv in E; discriminate E|response_differs].
Qed.

(** ** The store *)

Lemma store_inv_empty : store_inv ∅.
Proof. intros k r H. rewrite lookup_empty in H. discriminate. Qed.

Lemma store_inv_insert (st : Store) value now :
  store_inv st ->
  store_inv
    (<[computeSHA256 value :=
         {| r_id := computeSHA256 value; r_value := value;
            r_properties := analyzeString value; r_created_at := now |}]> st).
Proof.
  intros Hinv k r. rewrite lookup_insert. case_decide as E.
  - intros [= <-]. cbn. split; [symmetry; exact E|reflexivity].
  - apply Hinv.
Qed.

Lemma store_inv_delete (st : Store) k : store_inv st -> store_inv (delete k st).
Proof.
  intros Hinv k' r. rewrite lookup_delete. case_decide; [discriminate|].
  apply Hinv.
Qed.

Lemma post_strings_inv request now st :
  store_inv st -> store_inv (post_strings request now st).2.
Proof.
  intros Hinv. unfold post_strings. cbn zeta.
  repeat case_match; cbn [snd]; try exact Hinv.
  all: apply store_inv_insert; exact Hinv.
Qed.


Lemma delete_string_inv hash_of seg st :
  store_inv st -> store_inv (delete_string hash_of seg st).2.
Proof.
  intros Hinv. unfold delete_string.
  repeat case_match; cbn [snd]; try exact Hinv.
  all: apply store_inv_delete; exact Hinv.
Qed.

Lemma fetch_inv request now st :
  store_inv st -> store_inv (fetch request now st).2.
Proof.
  intros Hinv. unfold fetch. cbn zeta.
  repeat match goal with
  | |- context [if ?c then _ else _] => destruct c
  end; cbn [snd]; try exact Hinv.
  - apply post_strings_inv. exact Hinv.
  - apply delete_string_inv. exact Hinv.
Qed.




Lemma hex_digit_lower n : 0 <= n < 16 -> is_hex_lower (hex_digit n) = true.
Proof.
  intros Hn. unfold is_hex_lower, hex_digit, is_digit, in_range.
  destruct (Z.ltb_spec n 10); lia.
Qed.

Lemma post_keeps (st : Store) key (record : StringRecord) k r :
  st !! key = None -> st !! k = Some r ->
  <[key := record]> st !! k = Some r \/ <[key := record]> st !! k = None.
Proof.
  intros Hnone Hk. left. rewrite lookup_insert_ne; [exact Hk|]. congruence.
Qed.

Lemma delete_keeps (st : Store) key k r :
  st !! k = Some r ->
  delete key st !! k = Some r \/ delete key st !! k = None.
Proof.
  intros Hk. rewrite lookup_delete. case_decide; [right; reflexivity|left; exact Hk].
Qed.

(** No route replaces the record under a key: after a request the key
    holds the same record, or nothing. *)
Lemma fetch_no_update request now st k r :
  st !! k = Some r ->
  (fetch request now st).2 !! k = Some r \/ (fetch request now st).2 !! k = None.
Proof.
  intros Hk. unfold fetch, post_strings, delete_string. cbn zeta.
  repeat case_match; cbn [snd]; auto using post_keeps, delete_keeps.
Qed.

Lemma fetch_v2_no_update request now st k r :
  st !! k = Some r ->
  (fetch_v2 request now st).2 !! k = Some r
  \/ (fetch_v2 request now st).2 !! k = None.
Proof.
  intros Hk. unfold fetch_v2, post_strings_v2, delete_string. cbn zeta.
  repeat case_match; cbn [snd]; auto using post_keeps, delete_keeps.
Qed.

Lemma body_value_not_falsy body v :
  body_value body = Some v -> json_falsy body = false.
Proof. destruct body; cbn; congruence. Qed.

Lemma post_strings_conflict request now st v k r :
  store_inv st ->
  body_value (default JNull (req_json request)) = Some (JStr v) ->
  trim v <> [] -> st !! k = Some r -> r_value r = trim v ->
  post_strings request now st
  = (json (PError (js "String already exists")) 409, st).
Proof.
  intros Hinv Hbody Hne Hk Hv. unfold post_strings. cbn zeta.
  rewrite (body_value_not_falsy _ _ Hbody), Hbody.
  rewrite bool_decide_false by exact Hne.
  destruct (Hinv k r Hk) as [Hkid Hid]. cbn [analyzeString p_sha256_hash].
  rewrite <- Hv, <- Hid, <- Hkid, Hk. reflexivity.
Qed.

Lemma post_strings_v2_conflict request now st v k r :
  store_inv st ->
  body_value (default JNull (req_json request)) = Some (JStr v) ->
  v <> [] -> st !! k = Some r -> r_value r = v ->
  post_strings_v2 request now st
  = (json (PError (js "String already exists")) 409, st).
Proof.
  intros Hinv Hbody Hne Hk Hv. unfold post_strings_v2. cbn zeta.
  rewrite (body_value_not_falsy _ _ Hbody), Hbody.
  rewrite bool_decide_false by (destruct v; [congruence|discriminate]).
  destruct (Hinv k r Hk) as [Hkid Hid]. cbn [analyzeString p_sha256_hash].
  rewrite <- Hv, <- Hid, <- Hkid, Hk. reflexivity.
Qed.

Lemma fetch_post request now st :
  req_method request = js "POST" ->
  strip_trailing_slashes (req_pathname request) = js "/strings" ->
  fetch request now st = post_strings request now st
  /\ fetch_v2 request now st = post_strings_v2 request now st.
Proof.
  intros Hm Hp. unfold fetch, fetch_v2. cbn zeta. rewrite Hm, Hp.
  split; reflexivity.
Qed.

(** One record per value: two stored records with the same value are the
    same record under the same key. *)
Lemma store_inv_one_record st k1 k2 r1 r2 :
  store_inv st -> st !! k1 = Some r1 -> st !! k2 = Some r2 ->
  r_value r1 = r_value r2 -> k1 = k2 /\ r1 = r2.
Proof.
  intros Hinv H1 H2 Hv.
  destruct (Hinv _ _ H1) as [E1 E1'], (Hinv _ _ H2) as [E2 E2'].
  assert (k1 = k2) by congruence. subst k2. split; congruence.
Qed.

(** C8. A POST of a value that already has a record is answered with 409
    and leaves the store as it was, in both handlers; the store holds one
    record per value; and no request replaces the record under a key. *)
Theorem post_duplicate_rejected
    (request : Request) (now : jsstring) (st : Store) (v : jsstring) :
  store_inv st ->
  body_value (default JNull (req_json request)) = Some (JStr v) ->
  let conflict := json (PError (js "String already exists")) 409 in
  (trim v <> [] ->
   (exists k r, st !! k = Some r /\ r_value r = trim v) ->
   post_strings request now st = (conflict, st)
   /\ (req_method request = js "POST" ->
       strip_trailing_slashes (req_pathname request) = js "/strings" ->
       fetch request now st = (conflict, st)))
  /\ (v <> [] ->
      (exists k r, st !! k = Some r /\ r_value r = v) ->
      post_strings_v2 request now st = (conflict, st)
      /\ (req_method request = js "POST" ->
          strip_trailing_slashes (req_pathname request) = js "/strings" ->
          fetch_v2 request now st = (conflict, st)))
  /\ (forall k1 k2 r1 r2,
        st !! k1 = Some r1 -> st !! k2 = Some r2 ->
        r_value r1 = r_value r2 -> k1 = k2 /\ r1 = r2)
  /\ (forall request' now' k r,
        st !! k = Some r ->
        ((fetch request' now' st).2 !! k = Some r
         \/ (fetch request' now' st).2 !! k = None)
        /\ ((fetch_v2 request' now' st).2 !! k = Some r
            \/ (fetch_v2 request' now' st).2 !! k = None)).
Proof.
  intros Hinv Hbody. cbn zeta.
  split.
  { intros Hne (k & r & Hk & Hv).
    pose proof (post_strings_conflict _ now _ _ _ _ Hinv Hbody Hne Hk Hv) as Hpost.
    split; [exact Hpost|]. intros Hm Hp.
    rewrite (proj1 (fetch_post request now st Hm Hp)). exact Hpost. }
  split.
  { intros Hne (k & r & Hk & Hv).
    pose proof (post_strings_v2_conflict _ now _ _ _ _ Hinv Hbody Hne Hk Hv)
      as Hpost.
    split; [exact Hpost|]. intros Hm Hp.
    rewrite (proj2 (fetch_post request now st Hm Hp)). exact Hpost. }
  split.
  { intros k1 k2 r1 r2. apply store_inv_one_record. exact Hinv. }
  intros request' now' k r Hk.
  split; [apply fetch_no_update|apply fetch_v2_no_update]; exact Hk.
Qed.

Lemma hex_byte_lower b :
  in_range 0 255 b = true -> forallb is_hex_lower (hex_byte b) = true.
Proof.
  intros Hb. unfold in_range in Hb. unfold hex_byte. cbn [forallb].
  rewrite !hex_digit_lower; [reflexivity| |].
  - change 15 with (Z.ones 4). rewrite Z.land_ones by lia.
    pose proof (Z.mod_pos_bound b (2 ^ 4)). lia.
  - rewrite Z.shiftr_div_pow2 by lia. change (2 ^ 4) with 16.
    split; [apply Z.div_pos; lia|apply Z.div_lt_upper_bound; lia].
Qed.

Lemma hex_bytes_lower (bytes : list Z) :
  forallb (in_range 0 255) bytes = true ->
  forallb is_hex_lower (b ← bytes; hex_byte b) = true
  /\ length (b ← bytes; hex_byte b) = (2 * length bytes)%nat.
Proof.
  induction bytes as [|b bytes IH]; [split; reflexivity|].
  cbn [forallb]. rewrite andb_true_iff. intros [Hb Hall].
  destruct (IH Hall) as [IH1 IH2]. rewrite bind_cons. split.
  - rewrite forallb_app, (hex_byte_lower b Hb), IH1. reflexivity.
  - rewrite length_app, IH2. cbn [hex_byte length]. lia.
Qed.


(** ** The query parameters of [GET /strings] *)

Lemma all_digits_decimal v : all_digits v = true <-> is_decimal v.
Proof.
  unfold all_digits, is_decimal.
  rewrite andb_true_iff, negb_true_iff, bool_decide_eq_false, forallb_forall.
  rewrite Forall_forall. split; intros [H1 H2]; (split; [exact H1|]);
    intros c Hc; apply H2; apply list_elem_of_In; exact Hc.
Qed.

Ltac use_same_filters Hsame :=
  rewrite !params_has_get;
  rewrite !(Hsame (js "is_palindrome")), !(Hsame (js "min_length")),
    !(Hsame (js "max_length")), !(Hsame (js "word_count")),
    !(Hsame (js "contains_character"))
    by (unfold filter_names; rewrite !elem_of_cons; auto 10);
  reflexivity.

Lemma applyFilters_same_filters records sp sp' :
  same_filters sp sp' -> applyFilters records sp = applyFilters records sp'.
Proof. intros Hsame. unfold applyFilters. use_same_filters Hsame. Qed.

Lemma applyFilters_v2_same_filters records sp sp' :
  same_filters sp sp' -> applyFilters_v2 records sp = applyFilters_v2 records sp'.
Proof. intros Hsame. unfold applyFilters_v2. use_same_filters Hsame. Qed.

Lemma invalid_param_same_filters sp sp' :
  same_filters sp sp' -> invalid_param sp = invalid_param sp'.
Proof. intros Hsame. unfold invalid_param. use_same_filters Hsame. Qed.

Lemma same_filters_unrecognized sp k v :
  k ∉ filter_names -> same_filters sp ((k, v) :: sp).
Proof.
  intros Hk name Hname. unfold params_get. cbn [find fst].
  rewrite bool_decide_false; [reflexivity|]. congruence.
Qed.

Lemma get_strings_v2_rejects request st name :
  invalid_param (req_searchParams request) = Some name ->
  get_strings_v2 request st
  = json (PError (js "Invalid query parameter '" ++ name ++ js "'")) 400.
Proof. intros E. unfold get_strings_v2. rewrite E. reflexivity. Qed.

Lemma invalid_param_name sp name :
  invalid_param sp = Some name -> name ∈ filter_names.
Proof.
  unfold invalid_param, filter_names.
  repeat match goal with
  | |- context [if ?c then _ else _] => destruct c
  end; intros [= <-]; rewrite !elem_of_cons; auto 10.
Qed.

(** *** The checks, one by one *)

Lemma check_truth sp :
  params_has (js "is_palindrome") sp
  && negb (bool_decide (params_get (js "is_palindrome") sp = Some (js "true")))
  && negb (bool_decide (params_get (js "is_palindrome") sp = Some (js "false")))
  = true
  <-> offending (js "is_palindrome") sp.
Proof.
  unfold offending. rewrite params_has_get.
  destruct (params_get (js "is_palindrome") sp) as [v|].
  - rewrite bool_decide_true by eauto. cbn [andb].
    rewrite andb_true_iff, !negb_true_iff, !bool_decide_eq_false. split.
    + intros [Ht Hf]. exists v. split; [reflexivity|]. left.
      split; [reflexivity|]. split; congruence.
    + intros (v' & [= <-] & [(_ & Ht & Hf)|[[Hn _]|[Hn _]]]).
      * split; congruence.
      * exfalso. revert Hn. apply (bool_decide_unpack _). vm_compute. exact I.
      * discriminate Hn.
  - rewrite bool_decide_false by (intros [? ?]; discriminate).
    split; [discriminate|]. intros (v & Hv & _). discriminate Hv.
Qed.

Lemma check_number name sp :
  name ∈ [js "min_length"; js "max_length"; js "word_count"] ->
  params_has name sp && negb (all_digits (or_else (params_get name sp) [])) = true
  <-> offending name sp.
Proof.
  intros Hname. unfold offending. rewrite params_has_get.
  destruct (params_get name sp) as [v|].
  - rewrite bool_decide_true by eauto. cbn [andb].
    rewrite negb_true_iff, or_else_empty, <- not_true_iff_false,
      all_digits_decimal.
    split.
    + intros Hd. exists v. split; [reflexivity|]. right. left. auto.
    + intros (v' & [= <-] & [(Hn & _)|[[_ Hd]|[Hn _]]]); [|exact Hd|];
        exfalso; subst name; revert Hname;
        apply (bool_decide_unpack _); vm_compute; exact I.
  - rewrite bool_decide_false by (intros [? ?]; discriminate).
    split; [discriminate|]. intros (v & Hv & _). discriminate Hv.
Qed.

Lemma check_character sp :
  params_has (js "contains_character") sp
  && bool_decide
       (length (or_else (params_get (js "contains_character") sp) []) = 0%nat)
  = true
  <-> offending (js "contains_character") sp.
Proof.
  unfold offending. rewrite params_has_get.
  destruct (params_get (js "contains_character") sp) as [v|].
  - rewrite bool_decide_true by eauto. cbn [andb]. rewrite or_else_empty.
    rewrite bool_decide_eq_true, length_zero_iff_nil. split.
    + intros ->. exists []. split; [reflexivity|]. right. right. auto.
    + intros (v' & [= <-] & [(Hn & _)|[[Hn _]|[_ Hv]]]); [| |exact Hv].
      * discriminate Hn.
      * exfalso. revert Hn. apply (bool_decide_unpack _). vm_compute. exact I.
  - rewrite bool_decide_false by (intros [? ?]; discriminate).
    split; [discriminate|]. intros (v & Hv & _). discriminate Hv.
Qed.

Lemma offending_name name sp : offending name sp -> name ∈ filter_names.
Proof.
  intros (v & _ & [(-> & _)|[[Hn _]|[-> _]]]); unfold filter_names.
  - left.
  - rewrite !elem_of_cons in Hn. rewrite !elem_of_cons.
    destruct Hn as [->|[->|[->|Hn]]]; [| | |inversion Hn]; auto 10.
  - rewrite !elem_of_cons. auto 10.
Qed.

Ltac earlier_names :=
  let i := fresh "i" in let j := fresh "j" in let other := fresh "other" in
  let Hi := fresh "Hi" in let Hj := fresh "Hj" in let Hlt := fresh "Hlt" in
  let Hj5 := fresh "Hj5" in
  intros i j other Hi Hj Hlt;
  pose proof (lookup_lt_Some _ _ _ Hj) as Hj5;
  unfold filter_names in Hi, Hj, Hj5; cbn [length] in Hj5;
  destruct j as [|[|[|[|[|j]]]]]; try lia;
  cbn [lookup list_lookup] in Hj;
  try (exfalso; vm_compute in Hj; discriminate Hj);
  destruct i as [|[|[|[|i]]]]; try lia;
  cbn [lookup list_lookup] in Hi; injection Hi as <-; assumption.

Ltac name_cases Ho Hmin :=
  let Hn := fresh "Hn" in
  pose proof (offending_name _ _ Ho) as Hn;
  unfold filter_names in Hn; rewrite !elem_of_cons in Hn;
  destruct Hn as [->|[->|[->|[->|[->|Hn]]]]]; [..|inversion Hn];
  first
    [ reflexivity
    | contradiction
    | exfalso; solve [eapply (Hmin 0%nat 1%nat); [reflexivity|reflexivity|lia|eassumption]]
    | exfalso; solve [eapply (Hmin 0%nat 2%nat); [reflexivity|reflexivity|lia|eassumption]]
    | exfalso; solve [eapply (Hmin 1%nat 2%nat); [reflexivity|reflexivity|lia|eassumption]]
    | exfalso; solve [eapply (Hmin 0%nat 3%nat); [reflexivity|reflexivity|lia|eassumption]]
    | exfalso; solve [eapply (Hmin 1%nat 3%nat); [reflexivity|reflexivity|lia|eassumption]]
    | exfalso; solve [eapply (Hmin 2%nat 3%nat); [reflexivity|reflexivity|lia|eassumption]]
    | exfalso; solve [eapply (Hmin 0%nat 4%nat); [reflexivity|reflexivity|lia|eassumption]]
    | exfalso; solve [eapply (Hmin 1%nat 4%nat); [reflexivity|reflexivity|lia|eassumption]]
    | exfalso; solve [eapply (Hmin 2%nat 4%nat); [reflexivity|reflexivity|lia|eassumption]]
    | exfalso; solve [eapply (Hmin 3%nat 4%nat); [reflexivity|reflexivity|lia|eassumption]] ].

(** The parameter that is refused is the first offending one. *)
Lemma invalid_param_first sp name :
  invalid_param sp = Some name <-> first_offending name sp.
Proof.
  pose proof (check_truth sp) as H1.
  pose proof (check_number (js "min_length") sp ltac:(left)) as H2.
  pose proof (check_number (js "max_length") sp ltac:(right; left)) as H3.
  pose proof (check_number (js "word_count") sp ltac:(right; right; left)) as H4.
  pose proof (check_character sp) as H5.
  unfold invalid_param. cbv beta zeta.
  destruct (_ && _ && _).
  { apply proj1 in H1. specialize (H1 eq_refl). split.
    - intros [= <-]. split; [exact H1|]. earlier_names.
    - intros [Ho Hmin]. name_cases Ho Hmin. }
  assert (N1 : ~ offending (js "is_palindrome") sp)
    by (intros Ho; apply H1 in Ho; discriminate Ho).
  clear H1.
  destruct (params_has (js "min_length") sp && _).
  { apply proj1 in H2. specialize (H2 eq_refl). split.
    - intros [= <-]. split; [exact H2|]. earlier_names.
    - intros [Ho Hmin]. name_cases Ho Hmin. }
  assert (N2 : ~ offending (js "min_length") sp)
    by (intros Ho; apply H2 in Ho; discriminate Ho).
  clear H2.
  destruct (params_has (js "max_length") sp && _).
  { apply proj1 in H3. specialize (H3 eq_refl). split.
    - intros [= <-]. split; [exact H3|]. earlier_names.
    - intros [Ho Hmin]. name_cases Ho Hmin. }
  assert (N3 : ~ offending (js "max_length") sp)
    by (intros Ho; apply H3 in Ho; discriminate Ho).
  clear H3.
  destruct (params_has (js "word_count") sp && _).
  { apply proj1 in H4. specialize (H4 eq_refl). split.
    - intros [= <-]. split; [exact H4|]. earlier_names.
    - intros [Ho Hmin]. name_cases Ho Hmin. }
  assert (N4 : ~ offending (js "word_count") sp)
    by (intros Ho; apply H4 in Ho; discriminate Ho).
  clear H4.
  destruct (params_has (js "contains_character") sp && _).
  { apply proj1 in H5. specialize (H5 eq_refl). split.
    - intros [= <-]. split; [exact H5|]. earlier_names.
    - intros [Ho Hmin]. name_cases Ho Hmin. }
  assert (N5 : ~ offending (js "contains_character") sp)
    by (intros Ho; apply H5 in Ho; discriminate Ho).
  clear H5.
  split; [discriminate|].
  intros [Ho Hmin]. name_cases Ho Hmin.
Qed.

(** C7, as amended. The handler of [README.md] answers [GET /strings]
    with status 400 exactly when a filter parameter is offending: an
    [is_palindrome] that is present and neither [true] nor [false], a
    [min_length], [max_length] or [word_count] that is present and not a
    non-empty run of decimal digits, or a [contains_character] that is
    present and empty.  The answer then names the parameter: it is
    [Invalid query parameter '<name>'] exactly for the first offending
    filter name, in the order of the five.  A parameter with any other
    name is ignored by both handlers: the response depends only on the
    values of the five filter names. *)
Theorem get_strings_validation (request request' : Request) (st : Store) :
  let sp := req_searchParams request in
  let answer name :=
    get_strings_v2 request st
    = json (PError (js "Invalid query parameter '" ++ name ++ js "'")) 400 in
  (forall name, offending name sp -> status (get_strings_v2 request st) = 400)
  /\ (forall name, answer name <-> first_offending name sp)
  /\ (status (get_strings_v2 request st) = 400 ->
      exists name, first_offending name sp /\ answer name)
  /\ (forall name, offending name sp -> name ∈ filter_names)
  /\ (same_filters sp (req_searchParams request') ->
      get_strings_v2 request' st = get_strings_v2 request st
      /\ get_strings request' st = get_strings request st)
  /\ (forall k v, k ∉ filter_names -> same_filters sp ((k, v) :: sp)).
Proof.
  cbn zeta.
  assert (Hanswer : forall name,
            get_strings_v2 request st
            = json (PError (js "Invalid query parameter '" ++ name ++ js "'")) 400
            <-> first_offending name (req_searchParams request)).
  { intros name. rewrite <- invalid_param_first. unfold get_strings_v2.
    destruct (invalid_param (req_searchParams request)) as [name'|].
    - split.
      + intros [= E]. apply app_inv_tail in E. congruence.
      + intros [= ->]. reflexivity.
    - split; discriminate. }
  assert (Hstatus : status (get_strings_v2 request st) = 400 ->
            exists name, first_offending name (req_searchParams request)
              /\ get_strings_v2 request st
                 = json (PError (js "Invalid query parameter '" ++ name ++ js "'"))
                     400).
  { unfold get_strings_v2.
    destruct (invalid_param (req_searchParams request)) as [name|] eqn:E;
      [|discriminate].
    intros _. exists name. split; [apply invalid_param_first; exact E|reflexivity]. }
  split.
  { intros name Ho. unfold get_strings_v2.
    destruct (invalid_param (req_searchParams request)) as [name'|] eqn:E;
      [reflexivity|].
    exfalso.
    assert (Hnone : forall n, ~ first_offending n (req_searchParams request)).
    { intros n Hn. apply invalid_param_first in Hn. congruence. }
    (* the first offending name, found in the order of the five *)
    assert (Hfind : forall l l',
              filter_names = l ++ l' ->
              (forall other, other ∈ l -> ~ offending other (req_searchParams request)) ->
              forall n, n ∈ l' -> ~ offending n (req_searchParams request)).
    { intros l l'. revert l. induction l' as [|x l' IH]; intros l Hl Hbefore n Hn.
      - inversion Hn.
      - assert (Hx : ~ offending x (req_searchParams request)).
        { intros Hox. apply (Hnone x). split; [exact Hox|].
          intros i j other Hi Hj Hlt. apply Hbefore.
          rewrite Hl in Hi, Hj.
          assert (Hnd : NoDup (l ++ x :: l')).
          { rewrite <- Hl. apply (bool_decide_unpack _). vm_compute. exact I. }
          assert (Hjl : j = length l).
          { apply (NoDup_lookup _ _ _ x Hnd Hj).
            rewrite lookup_app_r by lia.
            replace (length l - length l)%nat with 0%nat by lia. reflexivity. }
          subst j. rewrite lookup_app_l in Hi by exact Hlt.
          apply (list_elem_of_lookup_2 _ _ _ Hi). }
        apply elem_of_cons in Hn as [->|Hn]; [exact Hx|].
        apply (IH (l ++ [x])); [rewrite <- app_assoc; exact Hl| |exact Hn].
        intros other Ho'. apply elem_of_app in Ho' as [Ho'|Ho'];
          [apply Hbefore; exact Ho'|].
        apply list_elem_of_singleton in Ho'. subst other. exact Hx. }
    apply (Hfind [] filter_names eq_refl) with (n := name);
      [intros other Hin; inversion Hin| |exact Ho].
    apply offending_name in Ho. exact Ho. }
  split; [exact Hanswer|].
  split; [exact Hstatus|].
  split; [intros name; apply offending_name|].
  split.
  { intros Hsame. unfold get_strings_v2, get_strings.
    rewrite <- (invalid_param_same_filters _ _ Hsame).
    rewrite <- (applyFilters_v2_same_filters _ _ _ Hsame).
    rewrite <- (applyFilters_same_filters _ _ _ Hsame). split; reflexivity. }
  intros k v Hk. apply same_filters_unrecognized. exact Hk.
Qed.

(** ** Further properties of the analyzer *)

(** *** White space and words *)

Lemma trimStart_split (s : jsstring) :
  exists sp, s = sp ++ trimStart s /\ forallb is_space sp = true.
Proof.
  induction s as [|c s IH]; [exists []; split; reflexivity|].
  cbn [trimStart]. destruct (is_space c) eqn:Hc.
  - destruct IH as (sp & Hs & Hsp). exists (c :: sp). cbn [forallb app].
    rewrite Hc, Hsp, <- Hs. split; reflexivity.
  - exists []. split; reflexivity.
Qed.

Lemma trimStart_head (s : jsstring) :
  match trimStart s with
  | [] => True
  | c :: _ => is_space c = false
  end.
Proof.
  induction s as [|c s IH]; [exact I|].
  cbn [trimStart]. destruct (is_space c) eqn:Hc; [exact IH|exact Hc].
Qed.

Lemma trimStart_nil (s : jsstring) :
  trimStart s = [] <-> forallb is_space s = true.
Proof.
  induction s as [|c s IH]; [split; reflexivity|].
  cbn [trimStart forallb]. destruct (is_space c); [exact IH|].
  split; discriminate.
Qed.

Lemma trimStart_idem (s : jsstring) : trimStart (trimStart s) = trimStart s.
Proof.
  pose proof (trimStart_head s) as H.
  destruct (trimStart s) as [|c t]; [reflexivity|].
  cbn [trimStart]. rewrite H. reflexivity.
Qed.

Lemma forallb_rev {A} (p : A -> bool) (l : list A) :
  forallb p (rev l) = forallb p l.
Proof.
  induction l as [|x l IH]; [reflexivity|].
  cbn [rev forallb]. rewrite forallb_app, IH. cbn [forallb].
  rewrite andb_true_r. apply andb_comm.
Qed.

Lemma trimEnd_split (s : jsstring) :
  exists sp, s = trimEnd s ++ sp /\ forallb is_space sp = true.
Proof.
  unfold trimEnd. destruct (trimStart_split (rev s)) as (sp & Hs & Hsp).
  exists (rev sp). rewrite forallb_rev. split; [|exact Hsp].
  rewrite <- rev_app_distr, <- Hs, rev_involutive. reflexivity.
Qed.

Lemma trimEnd_last (s : jsstring) :
  match rev (trimEnd s) with
  | [] => True
  | c :: _ => is_space c = false
  end.
Proof. unfold trimEnd. rewrite rev_involutive. apply trimStart_head. Qed.

(** Trimming at the end leaves the start as it is. *)
Lemma trimEnd_cons c (s : jsstring) :
  is_space c = false -> trimEnd (c :: s) = c :: trimEnd s.
Proof.
  intros Hc. destruct (trimEnd_split (c :: s)) as (sp & Hs & Hsp).
  destruct (trimEnd_split s) as (sp' & Hs' & Hsp').
  pose proof (trimEnd_last (c :: s)) as Hl.
  pose proof (trimEnd_last s) as Hl'.
  assert (Huniq : forall (a a' b b' : jsstring),
            a ++ b = a' ++ b' ->
            forallb is_space b = true -> forallb is_space b' = true ->
            match rev a with [] => True | x :: _ => is_space x = false end ->
            match rev a' with [] => True | x :: _ => is_space x = false end ->
            (length a <= length a')%nat -> a = a').
  { intros a a' b b' E Hb Hb' Ha Ha' Hlen.
    assert (Hpre : exists m, a' = a ++ m).
    { exists (drop (length a) a').
      apply (f_equal (take (length a))) in E as Et.
      rewrite take_app_length, take_app_le in Et by exact Hlen.
      rewrite Et at 1. rewrite take_drop. reflexivity. }
    destruct Hpre as [m ->]. rewrite <- app_assoc in E.
    apply app_inv_head in E. subst b.
    rewrite forallb_app in Hb. apply andb_true_iff in Hb as [Hm _].
    destruct m as [|x m _] using rev_ind; [rewrite app_nil_r; reflexivity|].
    rewrite app_assoc, rev_app_distr in Ha'. cbn in Ha'.
    rewrite forallb_app in Hm. cbn in Hm. rewrite Ha' in Hm.
    rewrite andb_false_r in Hm. discriminate Hm. }
  assert (Hl2 : match rev (c :: trimEnd s) with
                | [] => True | x :: _ => is_space x = false end).
  { cbn [rev]. destruct (rev (trimEnd s)) as [|x l]; [exact Hc|exact Hl']. }
  assert (E : trimEnd (c :: s) ++ sp = (c :: trimEnd s) ++ sp').
  { rewrite <- Hs. cbn [app]. rewrite <- Hs'. reflexivity. }
  destruct (Nat.le_ge_cases (length (trimEnd (c :: s))) (length (c :: trimEnd s))).
  - eapply Huniq; eassumption.
  - symmetry. symmetry in E. eapply Huniq; eassumption.
Qed.

Lemma trim_nil (s : jsstring) : trim s = [] <-> forallb is_space s = true.
Proof.
  unfold trim. rewrite <- trimStart_nil. unfold trimEnd. split.
  - intros E. apply (f_equal (@rev Z)) in E. rewrite rev_involutive in E.
    cbn in E. apply trimStart_nil in E. rewrite forallb_rev in E.
    pose proof (trimStart_head s) as Hh.
    destruct (trimStart s) as [|c t]; [reflexivity|].
    cbn in E. rewrite Hh in E. discriminate E.
  - intros ->. reflexivity.
Qed.

(** A trimmed text starts and ends outside white space. *)
Lemma trim_ends (s : jsstring) :
  match trim s with [] => True | c :: _ => is_space c = false end
  /\ match rev (trim s) with [] => True | c :: _ => is_space c = false end.
Proof.
  unfold trim. split; [|apply trimEnd_last].
  pose proof (trimStart_head s) as Hh.
  destruct (trimStart s) as [|c t]; [exact I|].
  rewrite (trimEnd_cons c t Hh). exact Hh.
Qed.

Lemma trim_idem (s : jsstring) : trim (trim s) = trim s.
Proof.
  destruct (trim_ends s) as [Hh Hl]. unfold trim at 1.
  assert (E1 : trimStart (trim s) = trim s).
  { destruct (trim s) as [|c t]; [reflexivity|]. cbn [trimStart].
    rewrite Hh. reflexivity. }
  rewrite E1. unfold trimEnd.
  assert (E2 : trimStart (rev (trim s)) = rev (trim s)).
  { destruct (rev (trim s)) as [|c t]; [reflexivity|]. cbn [trimStart].
    rewrite Hl. reflexivity. }
  rewrite E2. apply rev_involutive.
Qed.

Lemma word_starts_spaces_l sk (sp s : jsstring) :
  forallb is_space sp = true ->
  sp <> [] \/ sk = true ->
  word_starts sk (sp ++ s) = word_starts true s.
Proof.
  revert sk. induction sp as [|c sp IH]; intros sk Hsp Hne.
  - destruct Hne as [Hne| ->]; [congruence|reflexivity].
  - cbn [forallb] in Hsp. apply andb_true_iff in Hsp as [Hc Hsp].
    cbn [app word_starts]. rewrite Hc. apply IH; [exact Hsp|right; reflexivity].
Qed.

Lemma word_starts_spaces_r sk (s sp : jsstring) :
  forallb is_space sp = true ->
  word_starts sk (s ++ sp) = word_starts sk s.
Proof.
  intros Hsp. revert sk. induction s as [|c s IH]; intros sk.
  - cbn [app]. induction sp as [|x sp IHsp] in sk, Hsp |- *; [reflexivity|].
    cbn [forallb] in Hsp. apply andb_true_iff in Hsp as [Hx Hsp].
    cbn [word_starts]. rewrite Hx. apply IHsp. exact Hsp.
  - cbn [app word_starts]. destruct (is_space c); rewrite IH; reflexivity.
Qed.

Lemma word_starts_trim (s : jsstring) :
  word_starts true (trim s) = word_starts true s.
Proof.
  unfold trim. destruct (trimStart_split s) as (sp & Hs & Hsp).
  destruct (trimEnd_split (trimStart s)) as (sp' & Hs' & Hsp').
  rewrite Hs at 2. rewrite word_starts_spaces_l by (auto).
  rewrite Hs' at 2. rewrite word_starts_spaces_r by exact Hsp'. reflexivity.
Qed.

(** The number of segments [split(/\s+/)] produces: one per word, one
    more when the text is entered inside a word, and an empty one when the
    text ends in white space. *)
Lemma split_spaces_go_length sk cur (s : jsstring) :
  length (split_spaces_go sk cur s)
  = (word_starts sk s + (if sk then 0 else 1)
     + (if ends_after_space sk s then 1 else 0))%nat.
Proof.
  revert sk cur. induction s as [|c s IH]; intros sk cur.
  - destruct sk; reflexivity.
  - cbn [split_spaces_go word_starts ends_after_space].
    destruct (is_space c), sk; cbn [length]; rewrite IH; lia.
Qed.

Lemma ends_after_space_snoc sk (s : jsstring) c :
  ends_after_space sk (s ++ [c]) = is_space c.
Proof.
  revert sk. induction s as [|x s IH]; intros sk; [reflexivity|].
  cbn [app ends_after_space]. apply IH.
Qed.

Lemma countWords_trimmed (t : jsstring) :
  t <> [] ->
  match t with [] => True | c :: _ => is_space c = false end ->
  match rev t with [] => True | c :: _ => is_space c = false end ->
  length (split_spaces t) = word_starts true t.
Proof.
  intros Hne Hh Hl. unfold split_spaces. rewrite split_spaces_go_length.
  assert (He : ends_after_space false t = false).
  { destruct (rev t) as [|c l] eqn:E.
    - apply (f_equal (@rev Z)) in E. rewrite rev_involutive in E. cbn in E.
      congruence.
    - apply (f_equal (@rev Z)) in E. rewrite rev_involutive in E. cbn in E.
      rewrite E, ends_after_space_snoc. exact Hl. }
  rewrite He. destruct t as [|c t]; [congruence|].
  cbn [word_starts]. rewrite Hh. lia.
Qed.

Lemma word_starts_zero (s : jsstring) :
  word_starts true s = 0%nat <-> forallb is_space s = true.
Proof.
  induction s as [|c s IH]; [split; reflexivity|].
  cbn [word_starts forallb]. destruct (is_space c); [exact IH|].
  split; [lia|discriminate].
Qed.

(** X1. [countWords] counts the words of the text: the maximal runs of
    code units that are not white space. White space around the text and
    the length of the runs of white space between words do not matter,
    and the count is 0 exactly for a text of white space only. *)
Theorem countWords_counts_words (value : jsstring) :
  countWords value = Z.of_nat (word_starts true value)
  /\ (countWords value = 0 <-> forallb is_space value = true)
  /\ countWords (trim value) = countWords value
  /\ (forall sp sp' : jsstring,
        forallb is_space sp = true -> forallb is_space sp' = true ->
        countWords (sp ++ value ++ sp') = countWords value)
  /\ (forall a b sp : jsstring,
        forallb is_space sp = true -> sp <> [] ->
        countWords (a ++ sp ++ b) = countWords (a ++ [32] ++ b)).
Proof.
  assert (Hcount : forall v, countWords v = Z.of_nat (word_starts true v)).
  { intros v. unfold countWords. case_bool_decide as E.
    - apply trim_nil, word_starts_zero in E. rewrite E. reflexivity.
    - destruct (trim_ends v) as [Hh Hl].
      rewrite (countWords_trimmed (trim v) E Hh Hl), word_starts_trim.
      reflexivity. }
  split; [apply Hcount|].
  split; [rewrite Hcount, <- word_starts_zero; lia|].
  split; [rewrite !Hcount, word_starts_trim; reflexivity|].
  split.
  - intros sp sp' Hsp Hsp'. rewrite !Hcount. f_equal.
    rewrite word_starts_spaces_l by auto.
    apply word_starts_spaces_r. exact Hsp'.
  - intros a b sp Hsp Hne. rewrite !Hcount. f_equal.
    assert (Hmid : forall sk (m : jsstring),
              forallb is_space m = true -> m <> [] ->
              word_starts sk (a ++ m ++ b)
              = (word_starts sk a + word_starts true b)%nat).
    { intros sk m Hm Hmne. revert sk. induction a as [|c a IH]; intros sk.
      - cbn [app word_starts]. apply word_starts_spaces_l; auto.
      - cbn [app word_starts]. destruct (is_space c); rewrite IH; lia. }
    rewrite (Hmid true sp Hsp Hne).
    rewrite (Hmid true [32] eq_refl ltac:(discriminate)). reflexivity.
Qed.

(** *** Characters *)

Lemma code_points_concat (s : jsstring) : concat (code_points s) = s.
Proof.
  remember (length s) as n eqn:En. revert s En.
  induction n as [n IH] using lt_wf_ind. intros s En.
  destruct s as [|c [|d rest]]; [reflexivity|reflexivity|].
  rewrite code_points_cons2.
  destruct (is_high_surrogate c && is_low_surrogate d); cbn [concat app].
  - rewrite (IH (length rest)); [reflexivity|subst n; cbn; lia|reflexivity].
  - rewrite (IH (length (d :: rest))); [reflexivity|subst n; cbn; lia|reflexivity].
Qed.

Lemma code_points_bmp (s : jsstring) :
  has_surrogate_pair s = false -> code_points s = (fun c => [c]) <$> s.
Proof.
  induction s as [|c s IH]; [reflexivity|].
  destruct s as [|d rest]; [reflexivity|].
  rewrite code_points_cons2, has_surrogate_pair_cons2.
  destruct (is_high_surrogate c && is_low_surrogate d); [discriminate|].
  cbn [orb]. intros H. rewrite (IH H). reflexivity.
Qed.

Lemma code_points_shape (s k : jsstring) :
  k ∈ code_points s ->
  (exists c, k = [c])
  \/ (exists c d, k = [c; d] /\ is_high_surrogate c = true
                  /\ is_low_surrogate d = true).
Proof.
  remember (length s) as n eqn:En. revert s En.
  induction n as [n IH] using lt_wf_ind. intros s En.
  destruct s as [|c [|d rest]].
  - intros H. inversion H.
  - cbn. rewrite list_elem_of_singleton. intros ->. left. eauto.
  - rewrite code_points_cons2.
    destruct (is_high_surrogate c && is_low_surrogate d) eqn:E;
      rewrite elem_of_cons; intros [->|Hin].
    + apply andb_true_iff in E as [E1 E2]. right. exists c, d. auto.
    + apply (IH (length rest)) with (s := rest); [subst n; cbn; lia|reflexivity|exact Hin].
    + left. eauto.
    + apply (IH (length (d :: rest))) with (s := d :: rest);
        [subst n; cbn; lia|reflexivity|exact Hin].
Qed.

Lemma occurrences_positive (k : jsstring) (l : list jsstring) :
  k ∈ l -> 1 <= occurrences k l.
Proof.
  unfold occurrences. induction 1 as [k l|k x l Hin IH].
  - rewrite filter_cons_True by reflexivity. cbn [length]. lia.
  - rewrite filter_cons. case_decide; cbn [length]; lia.
Qed.

Lemma occurrences_units (c : Z) (s : jsstring) :
  occurrences [c] ((fun c => [c]) <$> s)
  = Z.of_nat (length (filter (fun d => d = c) s)).
Proof.
  unfold occurrences. f_equal. induction s as [|d s IH]; [reflexivity|].
  cbn [fmap list_fmap]. rewrite !filter_cons.
  destruct (decide (d = c)) as [->|Hne].
  - rewrite decide_True by reflexivity. cbn [length]. f_equal. exact IH.
  - rewrite decide_False by congruence. exact IH.
Qed.

(** X2. The frequency map has a key for exactly the characters of the
    text, each a code unit or a surrogate pair, which together are the
    text; the value of a key is its number of occurrences, at least 1;
    the values add up to the number of characters; and in a text without
    a surrogate pair the key of a code unit holds how often that code
    unit occurs. *)
Theorem getCharFrequency_counts (value k : jsstring) :
  (getCharFrequency value !! k = None <-> k ∉ code_points value)
  /\ (forall n, getCharFrequency value !! k = Some n ->
        n = occurrences k (code_points value) /\ 1 <= n)
  /\ (is_Some (getCharFrequency value !! k) ->
      (exists c, k = [c])
      \/ (exists c d, k = [c; d] /\ is_high_surrogate c = true
                      /\ is_low_surrogate d = true))
  /\ concat (code_points value) = value
  /\ freq_total (getCharFrequency value) = Z.of_nat (length (code_points value))
  /\ (has_surrogate_pair value = false ->
      forall c,
        getCharFrequency value !! [c]
        = if bool_decide (c ∈ value)
          then Some (Z.of_nat (length (filter (fun d => d = c) value)))
          else None).
Proof.
  pure idtac. rewrite getCharFrequency_lookup. split.
  { case_bool_decide; split; try done. }
  split.
  { intros n. case_bool_decide as Hin; [|discriminate]. intros [= <-].
    split; [reflexivity|apply occurrences_positive; exact Hin]. }
  split.
  { case_bool_decide as Hin; [|intros [? ?]; discriminate].
    intros _. apply (code_points_shape value k Hin). }
  split; [apply code_points_concat|].
  split; [apply getCharFrequency_total|].
  intros Hbmp c. rewrite getCharFrequency_lookup, (code_points_bmp value Hbmp).
  rewrite occurrences_units.
  rewrite (bool_decide_ext ([c] ∈ (fun c0 => [c0]) <$> value) (c ∈ value));
    [reflexivity|].
  rewrite list_elem_of_fmap. split.
  - intros (d & [= ->] & Hd). exact Hd.
  - intros Hc. eauto.
Qed.

Lemma size_list_to_set_le (l : list jsstring) :
  (size (list_to_set l : gset jsstring) <= length l)%nat.
Proof.
  induction l as [|x l IH]; [rewrite list_to_set_nil, size_empty; cbn; lia|].
  rewrite list_to_set_cons, size_union_alt, size_singleton. cbn [length].
  assert (Hsub : list_to_set l ∖ {[x]} ⊆ (list_to_set l : gset jsstring)).
  { intros y Hy. apply elem_of_difference in Hy. apply Hy. }
  apply subseteq_size in Hsub. lia.
Qed.

Lemma size_list_to_set_units (l : list Z) :
  size (list_to_set ((fun c => [c]) <$> l) : gset jsstring)
  = size (list_to_set l : gset Z).
Proof.
  induction l as [|x l IH]; [reflexivity|].
  cbn [fmap list_fmap]. rewrite !list_to_set_cons.
  destruct (decide (x ∈ l)) as [Hin|Hnin].
  - assert (E1 : {[x]} ∪ list_to_set l = (list_to_set l : gset Z)).
    { apply set_eq. intros y.
      rewrite elem_of_union, elem_of_singleton, !elem_of_list_to_set.
      split; [intros [->|Hy]; assumption|auto]. }
    assert (E2 : {[ [x] ]} ∪ list_to_set ((fun c => [c]) <$> l)
                 = (list_to_set ((fun c => [c]) <$> l) : gset jsstring)).
    { apply set_eq. intros y.
      rewrite elem_of_union, elem_of_singleton, !elem_of_list_to_set.
      split; [intros [->|Hy]; [|exact Hy]|auto].
      apply list_elem_of_fmap. eauto. }
    fold (@fmap list _ Z jsstring (fun c => [c]) l). rewrite E1, E2. exact IH.
  - fold (@fmap list _ Z jsstring (fun c => [c]) l).
    rewrite !size_union, !size_singleton, IH; [reflexivity| |].
    + intros y Hy1 Hy2. apply elem_of_singleton in Hy1. subst y.
      apply elem_of_list_to_set in Hy2. contradiction.
    + intros y Hy1 Hy2. apply elem_of_singleton in Hy1. subst y.
      apply elem_of_list_to_set, list_elem_of_fmap in Hy2.
      destruct Hy2 as (d & [= ->] & Hd). contradiction.
Qed.

(** X3. [countUniqueChars] is the number of keys of the frequency map;
    it lies between 0 and the number of characters, which is at most the
    length; it is 0 only for the empty text; and for a text without a
    surrogate pair it is the number of distinct code units. *)
Theorem countUniqueChars_bounds (value : jsstring) :
  countUniqueChars value = Z.of_nat (size (getCharFrequency value))
  /\ 0 <= countUniqueChars value
     <= Z.of_nat (length (code_points value))
  /\ Z.of_nat (length (code_points value)) <= p_length (analyzeString value)
  /\ p_unique_characters (analyzeString value) <= p_length (analyzeString value)
  /\ (countUniqueChars value = 0 <-> value = [])
  /\ (has_surrogate_pair value = false ->
      countUniqueChars value = Z.of_nat (size (list_to_set value : gset Z))).
Proof.
  pose proof (size_list_to_set_le (code_points value)) as Hle.
  pose proof (code_points_length_le value) as Hlen.
  split; [apply countUniqueChars_size|].
  unfold countUniqueChars.
  cbn [analyzeString p_length p_unique_characters]. unfold countUniqueChars.
  split; [lia|]. split; [lia|]. split; [lia|].
  split.
  { split.
    - intros E.
      assert (Hs : size (list_to_set (code_points value) : gset jsstring) = 0%nat)
        by lia.
      apply size_empty_iff in Hs.
      assert (Hno : forall k, k ∉ code_points value).
      { intros k Hk. apply (elem_of_list_to_set (C := gset jsstring)) in Hk.
        rewrite Hs in Hk. apply not_elem_of_empty in Hk. exact Hk. }
      destruct value as [|c value]; [reflexivity|]. exfalso.
      destruct value as [|d rest].
      + apply (Hno [c]). left.
      + rewrite code_points_cons2 in Hno.
        destruct (is_high_surrogate c && is_low_surrogate d);
          [apply (Hno [c; d])|apply (Hno [c])]; left.
    - intros ->. reflexivity. }
  intros Hbmp. rewrite (code_points_bmp value Hbmp), size_list_to_set_units.
  reflexivity.
Qed.

(** *** Palindromes *)

Lemma letters_and_digits_app (a b : jsstring) :
  letters_and_digits (a ++ b) = letters_and_digits a ++ letters_and_digits b.
Proof. unfold letters_and_digits. rewrite filter_app, map_app. reflexivity. Qed.

Lemma letters_and_digits_rev (s : jsstring) :
  letters_and_digits (rev s) = rev (letters_and_digits s).
Proof.
  induction s as [|c s IH]; [reflexivity|].
  cbn [rev]. rewrite letters_and_digits_app, IH.
  change (c :: s) with ([c] ++ s).
  rewrite (letters_and_digits_app [c] s), rev_app_distr. f_equal.
  unfold letters_and_digits. rewrite filter_cons.
  case_decide; reflexivity.
Qed.

Lemma isPalindrome_letters (s : jsstring) :
  isPalindrome s
  = bool_decide (letters_and_digits s = rev (letters_and_digits s)).
Proof. rewrite isPalindrome_cleaned. reflexivity. Qed.

Lemma lower_unit_alnum c : is_alnum (lower_unit c) = is_alnum c.
Proof.
  unfold lower_unit. destruct (is_upper c) eqn:E; [|reflexivity].
  unfold is_alnum, is_upper, is_lower, is_digit, in_range in *. lia.
Qed.

Lemma lower_unit_idem c : lower_unit (lower_unit c) = lower_unit c.
Proof.
  unfold lower_unit. destruct (is_upper c) eqn:E; [|rewrite E; reflexivity].
  replace (is_upper (c + 32)) with false; [reflexivity|].
  unfold is_upper, in_range in *. lia.
Qed.

Lemma letters_and_digits_lower (s : jsstring) :
  letters_and_digits (ascii_toLowerCase s) = letters_and_digits s.
Proof.
  unfold letters_and_digits, ascii_toLowerCase.
  induction s as [|c s IH]; [reflexivity|].
  cbn [map]. rewrite !filter_cons, lower_unit_alnum.
  case_decide; cbn [map]; rewrite IH, ?lower_unit_idem; reflexivity.
Qed.

(** X4. [isPalindrome] depends only on the letters and digits of the
    text, lower-cased: it does not change when the text is reversed, when
    its ASCII letters change case, or when a code unit that is neither a
    letter nor a digit is inserted; and a text followed by its reversal
    is a palindrome, with or without a middle character. *)
Theorem isPalindrome_symmetries (s t : jsstring) (c : Z) :
  (letters_and_digits s = letters_and_digits t ->
   isPalindrome s = isPalindrome t)
  /\ isPalindrome (rev s) = isPalindrome s
  /\ isPalindrome (ascii_toLowerCase s) = isPalindrome s
  /\ (is_alnum c = false -> isPalindrome (s ++ c :: t) = isPalindrome (s ++ t))
  /\ isPalindrome (s ++ rev s) = true
  /\ isPalindrome (s ++ c :: rev s) = true.
Proof.
  rewrite !isPalindrome_letters.
  split; [intros ->; reflexivity|].
  split.
  { rewrite letters_and_digits_rev, rev_involutive.
    apply bool_decide_ext. split; congruence. }
  split; [rewrite letters_and_digits_lower; reflexivity|].
  split.
  { intros Hc. change (c :: t) with ([c] ++ t).
    rewrite !letters_and_digits_app.
    assert (E : letters_and_digits [c] = []).
    { unfold letters_and_digits. rewrite filter_cons.
      rewrite decide_False by congruence. reflexivity. }
    rewrite E. reflexivity. }
  split.
  { apply bool_decide_eq_true.
    rewrite letters_and_digits_app, letters_and_digits_rev, rev_app_distr,
      rev_involutive. reflexivity. }
  apply bool_decide_eq_true. change (c :: rev s) with ([c] ++ rev s).
  rewrite !letters_and_digits_app, letters_and_digits_rev, !rev_app_distr,
    rev_involutive, <- app_assoc. f_equal. f_equal.
  unfold letters_and_digits. rewrite filter_cons. case_decide; reflexivity.
Qed.

(** *** Digests *)

Lemma hex_digit_inj m n :
  0 <= m < 16 -> 0 <= n < 16 -> hex_digit m = hex_digit n -> m = n.
Proof.
  unfold hex_digit. intros Hm Hn.
  destruct (Z.ltb_spec m 10), (Z.ltb_spec n 10); lia.
Qed.

Lemma hex_byte_inj a b :
  in_range 0 255 a = true -> in_range 0 255 b = true ->
  hex_byte a = hex_byte b -> a = b.
Proof.
  unfold in_range, hex_byte. intros Ha Hb [= Hhi Hlo].
  rewrite !Z.shiftr_div_pow2 in Hhi by lia. change (2 ^ 4) with 16 in Hhi.
  change 15 with (Z.ones 4) in Hlo. rewrite !Z.land_ones in Hlo by lia.
  change (2 ^ 4) with 16 in Hlo.
  pose proof (Z.mod_pos_bound a 16). pose proof (Z.mod_pos_bound b 16).
  assert (0 <= a / 16 < 16).
  { split; [apply Z.div_pos; lia|apply Z.div_lt_upper_bound; lia]. }
  assert (0 <= b / 16 < 16).
  { split; [apply Z.div_pos; lia|apply Z.div_lt_upper_bound; lia]. }
  apply hex_digit_inj in Hhi; [|lia..]. apply hex_digit_inj in Hlo; [|lia..].
  rewrite (Z.div_mod a 16), (Z.div_mod b 16) by lia. congruence.
Qed.

Lemma hex_bytes_inj (l l' : list Z) :
  forallb (in_range 0 255) l = true -> forallb (in_range 0 255) l' = true ->
  (b ← l; hex_byte b) = (b ← l'; hex_byte b) -> l = l'.
Proof.
  revert l'. induction l as [|a l IH]; intros [|a' l'] Hl Hl' E.
  - reflexivity.
  - rewrite bind_cons in E. discriminate E.
  - rewrite bind_cons in E. discriminate E.
  - rewrite !bind_cons in E. cbn [forallb] in Hl, Hl'.
    apply andb_true_iff in Hl as [Ha Hl]. apply andb_true_iff in Hl' as [Ha' Hl'].
    unfold hex_byte at 1 3 in E. cbn [app] in E.
    injection E as E1 E2 E3. f_equal.
    + apply hex_byte_inj; [exact Ha|exact Ha'|]. unfold hex_byte. congruence.
    + apply IH; assumption.
Qed.

Lemma TextEncoder_encode_ascii (s : jsstring) :
  forallb is_ascii s = true -> TextEncoder_encode s = s.
Proof.
  unfold TextEncoder_encode. induction s as [|c s IH]; [reflexivity|].
  cbn [forallb]. rewrite andb_true_iff. intros [Hc Hs].
  assert (Hns : is_high_surrogate c = false /\ is_low_surrogate c = false).
  { unfold is_ascii, is_high_surrogate, is_low_surrogate, in_range in *. lia. }
  destruct Hns as [Hh Hl].
  assert (Hcp : code_points (c :: s) = [c] :: code_points s).
  { destruct s as [|d s']; [reflexivity|].
    rewrite code_points_cons2, Hh. reflexivity. }
  rewrite Hcp, bind_cons, (IH Hs). cbn [scalar_value]. rewrite Hh, Hl.
  cbn [orb]. unfold utf8_of_scalar.
  replace (c <? 128) with true
    by (unfold is_ascii, in_range in Hc; lia).
  reflexivity.
Qed.

(** X5. The identifier [computeSHA256] returns has two hexadecimal digits
    per byte of the digest, and two values have the same identifier
    exactly when the digests of their UTF-8 bytes are the same; for an
    ASCII value those bytes are its code units. *)
Theorem computeSHA256_identifies (value value' : jsstring) :
  length (computeSHA256 value)
  = (2 * length (sha256 (TextEncoder_encode value)))%nat
  /\ (computeSHA256 value = computeSHA256 value'
      <-> sha256 (TextEncoder_encode value) = sha256 (TextEncoder_encode value'))
  /\ (computeHash value = computeHash value'
      <-> sha256 (TextEncoder_encode value) = sha256 (TextEncoder_encode value'))
  /\ (forallb is_ascii value = true ->
      computeSHA256 value = (b ← sha256 value; hex_byte b)).
Proof.
  assert (Hiff : computeSHA256 value = computeSHA256 value'
                 <-> sha256 (TextEncoder_encode value)
                     = sha256 (TextEncoder_encode value')).
  { unfold computeSHA256. cbn zeta. split.
    - apply hex_bytes_inj; apply sha256_bytes.
    - intros ->. reflexivity. }
  split; [apply hex_bytes_lower, sha256_bytes|].
  split; [exact Hiff|]. split; [exact Hiff|].
  intros Hascii. unfold computeSHA256. cbn zeta.
  rewrite (TextEncoder_encode_ascii value Hascii). reflexivity.
Qed.

(** ** Further properties of the routes *)

(** *** Paths *)

Lemma strip_trailing_slashes_snoc (p : jsstring) :
  strip_trailing_slashes (p ++ [47]) = strip_trailing_slashes p.
Proof. unfold strip_trailing_slashes. rewrite rev_app_distr. reflexivity. Qed.

Lemma strip_trailing_slashes_keep (p : jsstring) c :
  c <> 47 -> strip_trailing_slashes (p ++ [c]) = p ++ [c].
Proof.
  intros Hc. unfold strip_trailing_slashes. rewrite rev_app_distr. cbn [rev app].
  rewrite (proj2 (Z.eqb_neq c 47) Hc). cbn [rev]. rewrite rev_involutive.
  reflexivity.
Qed.

Lemma strip_trailing_slashes_idem (p : jsstring) :
  strip_trailing_slashes (strip_trailing_slashes p) = strip_trailing_slashes p.
Proof.
  induction p as [|c p IH] using rev_ind; [reflexivity|].
  destruct (Z.eq_dec c 47) as [->|Hc].
  - rewrite strip_trailing_slashes_snoc. exact IH.
  - rewrite !(strip_trailing_slashes_keep p c Hc). reflexivity.
Qed.

Lemma split_on_no_sep sep cur (s : jsstring) :
  sep ∉ s -> split_on sep cur s = [cur ++ s].
Proof.
  revert cur. induction s as [|c s IH]; intros cur Hs.
  - cbn. rewrite app_nil_r. reflexivity.
  - apply not_elem_of_cons in Hs as [Hc Hs]. cbn [split_on].
    rewrite (proj2 (Z.eqb_neq c sep)) by congruence.
    rewrite (IH _ Hs), <- app_assoc. reflexivity.
Qed.

Lemma startsWith_app (s l rest : jsstring) :
  startsWith (l ++ rest) l = true.
Proof. unfold startsWith. rewrite eat_app. reflexivity. Qed.

Lemma startsWith_prefix (s a b : jsstring) :
  startsWith s (a ++ b) = true -> startsWith s a = true.
Proof.
  unfold startsWith. destruct (eat (a ++ b) s) as [rest|] eqn:E; [|discriminate].
  apply eat_Some in E. subst s. rewrite <- app_assoc, eat_app. reflexivity.
Qed.

(** *** What a request can change *)

Ltac method_of_route :=
  repeat match goal with
  | H : _ && _ = true |- _ => apply andb_true_iff in H as [H _]
  end;
  match goal with
  | H : bool_decide (_ = _) = true |- _ => apply bool_decide_eq_true in H; exact H
  end.

Ltac store_change :=
  first
    [ right; left; eexists _, _; split; [eassumption|];
      split; [reflexivity|method_of_route]
    | right; right; eexists; split; [eexists; eassumption|];
      split; [reflexivity|method_of_route] ].

(** X6. A request changes the store only through [POST /strings], which
    adds one record under a key that was free, or through [DELETE] of a
    value, which removes one key; a request with any other method, a GET
    in particular, leaves the store as it is. *)
Theorem fetch_store_changes (request : Request) (now : jsstring) (st : Store) :
  let st1 := (fetch request now st).2 in
  let st2 := (fetch_v2 request now st).2 in
  (req_method request <> js "POST" -> req_method request <> js "DELETE" ->
   st1 = st /\ st2 = st)
  /\ (req_method request = js "GET" -> st1 = st /\ st2 = st)
  /\ (st1 = st
      \/ (exists k r, st !! k = None /\ st1 = <[k := r]> st
                      /\ req_method request = js "POST")
      \/ (exists k, is_Some (st !! k) /\ st1 = delete k st
                    /\ req_method request = js "DELETE"))
  /\ (st2 = st
      \/ (exists k r, st !! k = None /\ st2 = <[k := r]> st
                      /\ req_method request = js "POST")
      \/ (exists k, is_Some (st !! k) /\ st2 = delete k st
                    /\ req_method request = js "DELETE")).
Proof.
  cbn zeta.
  assert (H1 : (fetch request now st).2 = st
      \/ (exists k r, st !! k = None /\ (fetch request now st).2 = <[k := r]> st
                      /\ req_method request = js "POST")
      \/ (exists k, is_Some (st !! k) /\ (fetch request now st).2 = delete k st
                    /\ req_method request = js "DELETE")).
  { unfold fetch, post_strings, delete_string. cbn zeta.
    repeat case_match; cbn [snd]; try (left; reflexivity); try discriminate;
      store_change. }
  assert (H2 : (fetch_v2 request now st).2 = st
      \/ (exists k r, st !! k = None /\ (fetch_v2 request now st).2 = <[k := r]> st
                      /\ req_method request = js "POST")
      \/ (exists k, is_Some (st !! k) /\ (fetch_v2 request now st).2 = delete k st
                    /\ req_method request = js "DELETE")).
  { unfold fetch_v2, post_strings_v2, delete_string. cbn zeta.
    repeat case_match; cbn [snd]; try (left; reflexivity); try discriminate;
      store_change. }
  assert (Hother : req_method request <> js "POST" ->
                   req_method request <> js "DELETE" ->
                   (fetch request now st).2 = st /\ (fetch_v2 request now st).2 = st).
  { intros Hp Hd. split.
    - destruct H1 as [E|[(k & r & _ & _ & Hm)|(k & _ & _ & Hm)]];
        [exact E|contradiction..].
    - destruct H2 as [E|[(k & r & _ & _ & Hm)|(k & _ & _ & Hm)]];
        [exact E|contradiction..]. }
  split; [exact Hother|].
  split; [|split; assumption].
  intros Hg. apply Hother; rewrite Hg; cbv; congruence.
Qed.

(** *** Status codes *)

Ltac in_list := repeat first [left | right].

Lemma post_strings_status request now st :
  status (post_strings request now st).1 ∈ [201; 400; 409].
Proof. unfold post_strings. cbn zeta. repeat case_match; cbn; in_list. Qed.

Lemma post_strings_v2_status request now st :
  status (post_strings_v2 request now st).1 ∈ [201; 400; 409; 422].
Proof. unfold post_strings_v2. cbn zeta. repeat case_match; cbn; in_list. Qed.

Lemma get_natural_language_status request st :
  status (get_natural_language request st) ∈ [200; 400]
  /\ status (get_natural_language_v2 request st) ∈ [200; 400].
Proof.
  unfold get_natural_language, get_natural_language_v2. cbn zeta.
  case_bool_decide; [split; cbn; in_list|].
  destruct (parseNaturalLanguageQuery _) as [parsed|] eqn:Hq;
    [|split; cbn; in_list].
  destruct (interpreted_never_conflicting _ _ Hq) as [_ ->].
  split; cbn; in_list.
Qed.

Lemma get_string_status hash_of seg st :
  status (get_string hash_of seg st) ∈ [200; 400; 404; 500]
  /\ (status (get_string hash_of seg st) = 500 ->
      exists s message, decodeURIComponent s = inr message).
Proof.
  unfold get_string. repeat case_match; cbn; (split; [in_list|]);
    try discriminate. eauto.
Qed.

Lemma delete_string_status hash_of seg st :
  status (delete_string hash_of seg st).1 ∈ [204; 400; 404; 500]
  /\ (status (delete_string hash_of seg st).1 = 500 ->
      exists s message, decodeURIComponent s = inr message).
Proof.
  unfold delete_string. repeat case_match; cbn; (split; [in_list|]);
    try discriminate. eauto.
Qed.

Lemma get_strings_status request st :
  status (get_strings request st) = 200
  /\ status (get_strings_v2 request st) ∈ [200; 400].
Proof.
  unfold get_strings, get_strings_v2. split; [reflexivity|].
  case_match; cbn; in_list.
Qed.

Ltac absurd_status H :=
  first
    [ discriminate H
    | exfalso; rewrite ?elem_of_cons in H; rewrite ?elem_of_nil in H;
      repeat destruct H as [H|H]; try contradiction; discriminate H ].

Ltac status_imp :=
  let H := fresh "H" in
  intros H; first [solve [auto] | solve [eauto] | absurd_status H].

Ltac status_cases Hs :=
  rewrite ?elem_of_cons in Hs; rewrite ?elem_of_nil in Hs;
  repeat destruct Hs as [Hs|Hs]; try contradiction; rewrite Hs in *;
  (split; [in_list|]); repeat apply conj; status_imp.

Ltac method_eq E :=
  repeat match type of E with
  | _ && _ = true => apply andb_true_iff in E as [E _]
  end;
  apply bool_decide_eq_true in E.

Lemma fetch_status_v1 request now st :
  let code := status (fetch request now st).1 in
  code ∈ [200; 201; 204; 400; 404; 409; 500]
  /\ (code ∈ [201; 409] -> req_method request = js "POST")
  /\ (code = 204 -> req_method request = js "DELETE")
  /\ (code = 404 ->
      req_method request = js "GET" \/ req_method request = js "DELETE")
  /\ (code = 500 -> exists s message, decodeURIComponent s = inr message).
Proof.
  cbn zeta.
  pose proof (post_strings_status request now st) as Hp.
  destruct (get_natural_language_status request st) as [Hn _].
  destruct (get_strings_status request st) as [Hg _].
  unfold fetch. cbn zeta.
  destruct (bool_decide (req_method request = js "POST") && _) eqn:E1.
  { method_eq E1. cbn [fst]. status_cases Hp. }
  clear E1.
  destruct (bool_decide (req_method request = js "GET") && startsWith _ _) eqn:E2.
  { cbn [fst]. status_cases Hn. }
  clear E2.
  destruct (bool_decide (req_method request = js "GET") && _ && _) eqn:E3.
  { method_eq E3. cbn [fst].
    destruct (get_string_status computeHash
                (split (strip_trailing_slashes (req_pathname request)) 47 !! 2%nat)
                st) as [Hs H500].
    status_cases Hs. }
  clear E3.
  destruct (bool_decide (req_method request = js "DELETE") && _ && _) eqn:E4.
  { method_eq E4. cbn [fst].
    destruct (delete_string_status computeHash
                (split (strip_trailing_slashes (req_pathname request)) 47 !! 2%nat)
                st) as [Hs H500].
    status_cases Hs. }
  clear E4.
  destruct (bool_decide (req_method request = js "GET") && _) eqn:E5.
  { cbn [fst]. rewrite Hg. (split; [in_list|]); repeat apply conj; status_imp. }
  clear E5.
  cbn [fst status json]. (split; [in_list|]); repeat apply conj; status_imp.
Qed.

Lemma fetch_status_v2 request now st :
  let code := status (fetch_v2 request now st).1 in
  code ∈ [200; 201; 204; 400; 404; 409; 422; 500]
  /\ (code ∈ [201; 409; 422] -> req_method request = js "POST")
  /\ (code = 204 -> req_method request = js "DELETE")
  /\ (code = 404 ->
      req_method request = js "GET" \/ req_method request = js "DELETE")
  /\ (code = 500 -> exists s message, decodeURIComponent s = inr message).
Proof.
  cbn zeta.
  pose proof (post_strings_v2_status request now st) as Hp.
  destruct (get_natural_language_status request st) as [_ Hn].
  destruct (get_strings_status request st) as [_ Hg].
  unfold fetch_v2. cbn zeta.
  set (segments := filter _ _).
  destruct (bool_decide (req_method request = js "POST") && _) eqn:E1.
  { method_eq E1. cbn [fst]. status_cases Hp. }
  clear E1.
  destruct (bool_decide (req_method request = js "GET") && _ && _) eqn:E2.
  { cbn [fst]. status_cases Hn. }
  clear E2.
  destruct (bool_decide (req_method request = js "GET") && _) eqn:E3.
  { method_eq E3. cbn [fst].
    destruct (get_string_status computeSHA256 (segments !! 1%nat) st)
      as [Hs H500].
    status_cases Hs. }
  clear E3.
  destruct (bool_decide (req_method request = js "DELETE") && _) eqn:E4.
  { method_eq E4. cbn [fst].
    destruct (delete_string_status computeSHA256 (segments !! 1%nat) st)
      as [Hs H500].
    status_cases Hs. }
  clear E4.
  destruct (bool_decide (req_method request = js "GET") && _) eqn:E5.
  { cbn [fst]. status_cases Hg. }
  clear E5.
  cbn [fst status json]. (split; [in_list|]); repeat apply conj; status_imp.
Qed.

Lemma get_string_undecodable hash_of seg st :
  status (get_string hash_of seg st) = 500 ->
  exists s message,
    seg = Some s /\ decodeURIComponent s = inr message
    /\ get_string hash_of seg st = json (PError (error_message message)) 500.
Proof.
  unfold get_string. destruct seg as [s|]; [|discriminate].
  destruct (decodeURIComponent s) as [value|message] eqn:E.
  - destruct (st !! hash_of value); discriminate.
  - intros _. exists s, message. auto.
Qed.

Lemma delete_string_undecodable hash_of seg st :
  status (delete_string hash_of seg st).1 = 500 ->
  exists s message,
    seg = Some s /\ decodeURIComponent s = inr message
    /\ delete_string hash_of seg st
       = (json (PError (error_message message)) 500, st).
Proof.
  unfold delete_string. destruct seg as [s|]; [|discriminate].
  destruct (decodeURIComponent s) as [value|message] eqn:E.
  - destruct (st !! hash_of value); discriminate.
  - intros _. exists s, message. auto.
Qed.

Ltac not_500 H Hin :=
  exfalso; rewrite H in Hin; absurd_status Hin.

Lemma fetch_undecodable request now st :
  let path := strip_trailing_slashes (req_pathname request) in
  status (fetch request now st).1 = 500 ->
  (req_method request = js "GET" \/ req_method request = js "DELETE")
  /\ exists seg message,
       split path 47 !! 2%nat = Some seg
       /\ decodeURIComponent seg = inr message
       /\ fetch request now st = (json (PError (error_message message)) 500, st).
Proof.
  cbn zeta.
  pose proof (post_strings_status request now st) as Hp.
  destruct (get_natural_language_status request st) as [Hn _].
  unfold fetch. cbn zeta.
  destruct (bool_decide (req_method request = js "POST") && _) eqn:E1.
  { intros H. not_500 H Hp. }
  clear E1.
  destruct (bool_decide (req_method request = js "GET") && startsWith _ _) eqn:E2.
  { cbn [fst]. intros H. not_500 H Hn. }
  clear E2.
  destruct (bool_decide (req_method request = js "GET") && _ && _) eqn:E3.
  { method_eq E3. cbn [fst]. intros H.
    destruct (get_string_undecodable _ _ _ H) as (s & message & Hs & Hd & ->).
    split; [left; exact E3|]. exists s, message. auto. }
  clear E3.
  destruct (bool_decide (req_method request = js "DELETE") && _ && _) eqn:E4.
  { method_eq E4. intros H.
    destruct (delete_string_undecodable _ _ _ H) as (s & message & Hs & Hd & ->).
    split; [right; exact E4|]. exists s, message. auto. }
  clear E4.
  destruct (bool_decide (req_method request = js "GET") && _) eqn:E5;
    cbn [fst]; discriminate.
Qed.

Lemma fetch_v2_undecodable request now st :
  let path := strip_trailing_slashes (req_pathname request) in
  let segments := filter (fun s : jsstring => s <> []) (split path 47) in
  status (fetch_v2 request now st).1 = 500 ->
  (req_method request = js "GET" \/ req_method request = js "DELETE")
  /\ exists seg message,
       segments !! 1%nat = Some seg
       /\ decodeURIComponent seg = inr message
       /\ fetch_v2 request now st
          = (json (PError (error_message message)) 500, st).
Proof.
  cbn zeta.
  pose proof (post_strings_v2_status request now st) as Hp.
  destruct (get_natural_language_status request st) as [_ Hn].
  destruct (get_strings_status request st) as [_ Hg].
  unfold fetch_v2. cbn zeta.
  set (segments := filter _ _).
  destruct (bool_decide (req_method request = js "POST") && _) eqn:E1.
  { intros H. not_500 H Hp. }
  clear E1.
  destruct (bool_decide (req_method request = js "GET") && _ && _) eqn:E2.
  { cbn [fst]. intros H. not_500 H Hn. }
  clear E2.
  destruct (bool_decide (req_method request = js "GET") && _) eqn:E3.
  { method_eq E3. cbn [fst]. intros H.
    destruct (get_string_undecodable _ _ _ H) as (s & message & Hs & Hd & ->).
    split; [left; exact E3|]. exists s, message. auto. }
  clear E3.
  destruct (bool_decide (req_method request = js "DELETE") && _) eqn:E4.
  { method_eq E4. intros H.
    destruct (delete_string_undecodable _ _ _ H) as (s & message & Hs & Hd & ->).
    split; [right; exact E4|]. exists s, message. auto. }
  clear E4.
  destruct (bool_decide (req_method request = js "GET") && _) eqn:E5;
    cbn [fst]; [|discriminate].
  intros H. not_500 H Hg.
Qed.

(** X7. The statuses of [index.ts] are 200, 201, 204, 400, 404, 409 and
    500, never 422; the handler of [README.md] adds 422, for a POST only;
    201 and 409 answer a POST, 204 a DELETE, 404 a GET or a DELETE.  The
    store and the digest being taken not to fail, 500 is the answer only
    to a GET or DELETE of one value whose path segment
    [decodeURIComponent] fails to decode: the answer then carries the
    message of that failure and the store is left as it is. *)
Theorem fetch_statuses (request : Request) (now : jsstring) (st : Store) :
  let code := status (fetch request now st).1 in
  let code2 := status (fetch_v2 request now st).1 in
  let path := strip_trailing_slashes (req_pathname request) in
  let segments := filter (fun s : jsstring => s <> []) (split path 47) in
  (code ∈ [200; 201; 204; 400; 404; 409; 500]
   /\ code2 ∈ [200; 201; 204; 400; 404; 409; 422; 500])
  /\ code <> 422
  /\ (code ∈ [201; 409] -> req_method request = js "POST")
  /\ (code2 ∈ [201; 409; 422] -> req_method request = js "POST")
  /\ (code = 204 \/ code2 = 204 -> req_method request = js "DELETE")
  /\ (code = 404 \/ code2 = 404 ->
      req_method request = js "GET" \/ req_method request = js "DELETE")
  /\ (code = 500 ->
      (req_method request = js "GET" \/ req_method request = js "DELETE")
      /\ exists seg message,
           split path 47 !! 2%nat = Some seg
           /\ decodeURIComponent seg = inr message
           /\ fetch request now st
              = (json (PError (error_message message)) 500, st))
  /\ (code2 = 500 ->
      (req_method request = js "GET" \/ req_method request = js "DELETE")
      /\ exists seg message,
           segments !! 1%nat = Some seg
           /\ decodeURIComponent seg = inr message
           /\ fetch_v2 request now st
              = (json (PError (error_message message)) 500, st)).
Proof.
  cbn zeta.
  destruct (fetch_status_v1 request now st) as (A1 & B1 & C1 & D1 & _).
  destruct (fetch_status_v2 request now st) as (A2 & B2 & C2 & D2 & _).
  cbn zeta in *.
  split; [split; assumption|].
  split.
  { intros E. rewrite E in A1. absurd_status A1. }
  split; [exact B1|]. split; [exact B2|].
  split; [intros [H|H]; auto|].
  split; [intros [H|H]; auto|].
  split; [apply fetch_undecodable|apply fetch_v2_undecodable].
Qed.

(** *** The route of one value *)

Lemma eat_app_both (a b s : jsstring) : eat (a ++ b) (a ++ s) = eat b s.
Proof.
  induction a as [|c a IH]; [reflexivity|].
  cbn [app eat]. rewrite Z.eqb_refl. exact IH.
Qed.

Lemma strip_trailing_slashes_segment (p seg : jsstring) :
  seg <> [] -> 47 ∉ seg ->
  strip_trailing_slashes (p ++ seg) = p ++ seg.
Proof.
  intros Hne Hs. destruct seg as [|c seg] using rev_ind; [congruence|].
  rewrite app_assoc. apply strip_trailing_slashes_keep.
  intros ->. apply Hs. apply elem_of_app. right. left.
Qed.

Lemma value_path (seg : jsstring) :
  seg <> [] -> 47 ∉ seg ->
  let path := js "/strings/" ++ seg in
  strip_trailing_slashes path = path
  /\ split path 47 = [[]; js "strings"; seg]
  /\ startsWith path (js "/strings/") = true
  /\ startsWith path (js "/strings/filter-by-natural-language")
     = startsWith seg (js "filter-by-natural-language")
  /\ path <> js "/strings".
Proof.
  intros Hne Hs. cbn zeta.
  split; [apply strip_trailing_slashes_segment; assumption|].
  split.
  { unfold split.
    change (js "/strings/" ++ seg) with (47 :: js "strings" ++ 47 :: seg).
    cbn [split_on]. rewrite Z.eqb_refl.
    change (js "strings" ++ 47 :: seg)
      with (115 :: 116 :: 114 :: 105 :: 110 :: 103 :: 115 :: 47 :: seg).
    cbn [split_on Z.eqb Pos.eqb app]. rewrite (split_on_no_sep _ _ _ Hs).
    reflexivity. }
  split; [apply (startsWith_app seg)|].
  split.
  { unfold startsWith.
    change (js "/strings/filter-by-natural-language")
      with (js "/strings/" ++ js "filter-by-natural-language").
    rewrite eat_app_both. reflexivity. }
  intros E. apply (f_equal (@length Z)) in E. rewrite length_app in E.
  destruct seg; [congruence|]. cbn in E. lia.
Qed.

Lemma startsWith_refl (s : jsstring) : startsWith s s = true.
Proof. rewrite <- (app_nil_r s) at 1. apply (startsWith_app s). Qed.

(** A request for [/strings/<seg>], with [seg] one path segment that does
    not start with [filter-by-natural-language], reaches the handler of
    one value. *)
Lemma fetch_value_route request now st seg :
  req_pathname request = js "/strings/" ++ seg ->
  seg <> [] -> 47 ∉ seg ->
  startsWith seg (js "filter-by-natural-language") = false ->
  (req_method request = js "GET" ->
   fetch request now st = (get_string computeSHA256 (Some seg) st, st)
   /\ fetch_v2 request now st = (get_string computeSHA256 (Some seg) st, st))
  /\ (req_method request = js "DELETE" ->
      fetch request now st = delete_string computeSHA256 (Some seg) st
      /\ fetch_v2 request now st = delete_string computeSHA256 (Some seg) st).
Proof.
  intros Hp Hne Hs Hnl.
  destruct (value_path seg Hne Hs) as (Hstrip & Hsplit & Hsw & Hswnl & Hneq).
  cbn zeta in *.
  assert (Hseg : seg <> js "filter-by-natural-language").
  { intros ->. rewrite startsWith_refl in Hnl. discriminate. }
  assert (Hsegs : filter (fun s : jsstring => s <> []) [[]; js "strings"; seg]
                  = [js "strings"; seg]).
  { rewrite filter_cons_False by (intros H; apply H; reflexivity).
    rewrite filter_cons_True by discriminate.
    rewrite filter_cons_True by exact Hne. reflexivity. }
  split; intros Hm; unfold fetch, fetch_v2; cbn zeta;
    rewrite Hm, Hp, Hstrip, Hsplit, Hsw, Hswnl, Hnl, Hsegs;
    rewrite (bool_decide_false (_ = js "/strings")) by exact Hneq;
    cbn [lookup list_lookup length];
    rewrite ?(bool_decide_false (Some seg = _)) by congruence;
    split; reflexivity.
Qed.


(** *** The outcomes of a POST *)

Lemma body_value_falsy (body : JSON) :
  (if json_falsy body then None else body_value body) = body_value body.
Proof. destruct body; cbn; try reflexivity; case_match; reflexivity. Qed.

#[local] Set Warnings "-clear-no-such-hyp".

(** X8. The answer to [POST /strings] is decided by the field [value] of
    the body and by the store.  [index.ts] answers 201 exactly for a text
    whose trimmed form is not empty and has no record, 409 exactly when
    that form has a record, and 400 in every other case;  the handler of
    [README.md] does not trim: it answers 201 for any text that is not
    empty and has no record, white space included, 422 exactly for a
    value that is not a text, and 400 for a missing or empty one.  Only
    the answer 201 changes the store. *)
Theorem post_strings_outcomes (request : Request) (now : jsstring) (st : Store) :
  let field := body_value (default JNull (req_json request)) in
  let answer := post_strings request now st in
  let answer2 := post_strings_v2 request now st in
  ((status answer.1 = 201 <->
      exists v, field = Some (JStr v) /\ trim v <> []
                /\ st !! computeSHA256 (trim v) = None)
   /\ (status answer.1 = 409 <->
         exists v, field = Some (JStr v) /\ trim v <> []
                   /\ is_Some (st !! computeSHA256 (trim v)))
   /\ (status answer.1 = 400 <-> forall v, field = Some (JStr v) -> trim v = []))
  /\ ((status answer2.1 = 201 <->
         exists v, field = Some (JStr v) /\ v <> []
                   /\ st !! computeSHA256 v = None)
      /\ (status answer2.1 = 409 <->
            exists v, field = Some (JStr v) /\ v <> []
                      /\ is_Some (st !! computeSHA256 v))
      /\ (status answer2.1 = 422 <->
            exists j, field = Some j /\ forall v, j <> JStr v)
      /\ (status answer2.1 = 400 <-> field = None \/ field = Some (JStr [])))
  /\ (status answer.1 <> 201 -> answer.2 = st)
  /\ (status answer2.1 <> 201 -> answer2.2 = st).
Proof.
  pure idtac. cbn zeta. unfold post_strings, post_strings_v2. cbn zeta.
  rewrite body_value_falsy.
  destruct (body_value (default JNull (req_json request))) as [[| | |v| |]|];
    cbn [analyzeString p_sha256_hash].
  4: rewrite (bool_decide_ext (length v = 0%nat) (v = []) (length_zero_iff_nil v)).
  all: repeat case_bool_decide; repeat case_match;
    cbn [fst snd json status]; unfold is_Some; split_and!;
    try (intros; reflexivity); try naive_solver eauto.
Qed.

#[local] Set Warnings "+clear-no-such-hyp".

(** *** A value through its life *)

Lemma post_strings_created request now st v :
  body_value (default JNull (req_json request)) = Some (JStr v) ->
  (trim v <> [] -> st !! computeSHA256 (trim v) = None ->
   let record :=
     {| r_id := computeSHA256 (trim v); r_value := trim v;
        r_properties := analyzeString (trim v); r_created_at := now |} in
   post_strings request now st
   = (json (PRecord record) 201, <[computeSHA256 (trim v) := record]> st))
  /\ (v <> [] -> st !! computeSHA256 v = None ->
      let record :=
        {| r_id := computeSHA256 v; r_value := v;
           r_properties := analyzeString v; r_created_at := now |} in
      post_strings_v2 request now st
      = (json (PRecord record) 201, <[computeSHA256 v := record]> st)).
Proof.
  intros Hbody. unfold post_strings, post_strings_v2. cbn zeta.
  rewrite body_value_falsy, Hbody. cbn [analyzeString p_sha256_hash].
  split; intros Hne Hfree; rewrite Hfree.
  - rewrite bool_decide_false by exact Hne. reflexivity.
  - rewrite bool_decide_false by (rewrite length_zero_iff_nil; exact Hne).
    reflexivity.
Qed.

(** X9. Create, then read.  A POST of a text without a record answers 201
    with the new record: its [id] is the digest of the stored value, its
    [properties] are the analysis of that value, and it is stored under
    the [id];  a GET of [/strings/<seg>], with [seg] decoding to the
    stored value, then answers 200 with the same record.  The stored value
    is the trimmed text in [index.ts] and the text as sent in the handler
    of [README.md]. *)
Theorem post_then_get
    (request lookup : Request) (now later v seg : jsstring) (st : Store) :
  req_method request = js "POST" ->
  strip_trailing_slashes (req_pathname request) = js "/strings" ->
  body_value (default JNull (req_json request)) = Some (JStr v) ->
  req_method lookup = js "GET" ->
  req_pathname lookup = js "/strings/" ++ seg ->
  seg <> [] -> 47 ∉ seg ->
  startsWith seg (js "filter-by-natural-language") = false ->
  (trim v <> [] -> st !! computeSHA256 (trim v) = None ->
   decodeURIComponent seg = inl (trim v) ->
   let record :=
     {| r_id := computeSHA256 (trim v); r_value := trim v;
        r_properties := analyzeString (trim v); r_created_at := now |} in
   let st' := <[computeSHA256 (trim v) := record]> st in
   fetch request now st = (json (PRecord record) 201, st')
   /\ fetch lookup later st' = (json (PRecord record) 200, st'))
  /\ (v <> [] -> st !! computeSHA256 v = None ->
      decodeURIComponent seg = inl v ->
      let record :=
        {| r_id := computeSHA256 v; r_value := v;
           r_properties := analyzeString v; r_created_at := now |} in
      let st' := <[computeSHA256 v := record]> st in
      fetch_v2 request now st = (json (PRecord record) 201, st')
      /\ fetch_v2 lookup later st' = (json (PRecord record) 200, st')).
Proof.
  intros Hm Hp Hbody Hm' Hp' Hne Hs Hnl.
  destruct (post_strings_created request now st v Hbody) as [H1 H2].
  split; intros Hv Hfree Hseg; cbn zeta.
  - destruct (fetch_post request now st Hm Hp) as [-> _].
    split; [exact (H1 Hv Hfree)|].
    destruct (fetch_value_route lookup later
                (<[computeSHA256 (trim v) :=
                     {| r_id := computeSHA256 (trim v); r_value := trim v;
                        r_properties := analyzeString (trim v);
                        r_created_at := now |}]> st) seg Hp' Hne Hs Hnl)
      as [Hget _].
    destruct (Hget Hm') as [-> _]. unfold get_string.
    rewrite Hseg, lookup_insert_eq. reflexivity.
  - destruct (fetch_post request now st Hm Hp) as [_ ->].
    split; [exact (H2 Hv Hfree)|].
    destruct (fetch_value_route lookup later
                (<[computeSHA256 v :=
                     {| r_id := computeSHA256 v; r_value := v;
                        r_properties := analyzeString v;
                        r_created_at := now |}]> st) seg Hp' Hne Hs Hnl)
      as [Hget _].
    destruct (Hget Hm') as [_ ->]. unfold get_string.
    rewrite Hseg, lookup_insert_eq. reflexivity.
Qed.


(** X11. In [index.ts] the route of the interpreter takes every GET whose
    path starts with [/strings/filter-by-natural-language]: a value that
    starts with these words is never read by [GET /strings/<value>],
    which, without a [query] parameter, answers 400 for it, although
    DELETE of the same path reaches the record.  The handler of
    [README.md] compares the whole segment, and reads such a value. *)
Theorem get_value_shadowed
    (request : Request) (now rest : jsstring) (st : Store) :
  let seg := js "filter-by-natural-language" ++ rest in
  req_pathname request = js "/strings/" ++ seg ->
  47 ∉ rest ->
  (req_method request = js "GET" ->
   fetch request now st = (get_natural_language request st, st)
   /\ (params_get (js "query") (req_searchParams request) = None ->
       fetch request now st
       = (json (PError (js "Missing 'query' parameter")) 400, st))
   /\ (rest <> [] ->
       fetch_v2 request now st = (get_string computeSHA256 (Some seg) st, st)))
  /\ (req_method request = js "DELETE" ->
      fetch request now st = delete_string computeSHA256 (Some seg) st).
Proof.
  cbn zeta. intros Hp Hs.
  set (seg := js "filter-by-natural-language" ++ rest) in *.
  assert (Hne : seg <> []) by discriminate.
  assert (Hs' : 47 ∉ seg).
  { unfold seg. rewrite not_elem_of_app. split; [|exact Hs].
    apply (bool_decide_unpack _). vm_compute. exact I. }
  destruct (value_path seg Hne Hs') as (Hstrip & Hsplit & Hsw & Hswnl & Hneq).
  cbn zeta in *.
  assert (Hnl : startsWith seg (js "filter-by-natural-language") = true)
    by apply (startsWith_app rest).
  assert (Hsegs : filter (fun s : jsstring => s <> []) [[]; js "strings"; seg]
                  = [js "strings"; seg]).
  { rewrite filter_cons_False by (intros H; apply H; reflexivity).
    rewrite filter_cons_True by discriminate.
    rewrite filter_cons_True by exact Hne. reflexivity. }
  split; intros Hm.
  - assert (Hf : fetch request now st = (get_natural_language request st, st)).
    { unfold fetch. cbn zeta.
      rewrite Hm, Hp, Hstrip, Hswnl, Hnl.
      rewrite (bool_decide_false (_ = js "/strings")) by exact Hneq.
      reflexivity. }
    split; [exact Hf|]. split.
    + intros Hq. rewrite Hf. unfold get_natural_language. cbn zeta.
      rewrite Hq. reflexivity.
    + intros Hrest. unfold fetch_v2. cbn zeta.
      rewrite Hm, Hp, Hstrip, Hsplit, Hsegs.
      cbn [lookup list_lookup length].
      rewrite (bool_decide_false (Some seg = _)); [reflexivity|].
      intros [= E]. exact (Hrest E).
  - unfold fetch. cbn zeta.
    rewrite Hm, Hp, Hstrip, Hsplit, Hsw.
    rewrite (bool_decide_false (_ = js "/strings")) by exact Hneq.
    reflexivity.
Qed.

(** *** The listing *)

Lemma store_records_values (st : Store) :
  store_records st = (map_to_list st).*2.
Proof.
  unfold store_records.
  assert (H : forall l : list (jsstring * StringRecord),
           (forall kv, kv ∈ l -> st !! kv.1 = Some kv.2) ->
           (k ← l.*1; match st !! k with Some r => [r] | None => [] end) = l.*2).
  { induction l as [|[k r] l IH]; intros Hl; [reflexivity|].
    cbn [fmap list_fmap fst snd]. rewrite bind_cons.
    pose proof (Hl (k, r) ltac:(left)) as Hk. cbn [fst snd] in Hk.
    rewrite Hk. cbn [app fst snd]. f_equal.
    apply IH. intros kv Hkv. apply Hl. right. exact Hkv. }
  apply H. intros [k r] Hkr. apply elem_of_map_to_list. exact Hkr.
Qed.

Lemma elem_of_store_records (st : Store) r :
  r ∈ store_records st <-> exists k, st !! k = Some r.
Proof.
  rewrite store_records_values, list_elem_of_fmap. split.
  - intros ([k r'] & -> & Hkr). exists k. apply elem_of_map_to_list. exact Hkr.
  - intros [k Hk]. exists (k, r). split; [reflexivity|].
    apply elem_of_map_to_list. exact Hk.
Qed.

Lemma length_store_records (st : Store) : length (store_records st) = size st.
Proof.
  rewrite store_records_values, length_fmap. apply length_map_to_list.
Qed.

Lemma NoDup_store_records (st : Store) : store_inv st -> NoDup (store_records st).
Proof.
  intros Hinv. rewrite store_records_values.
  apply NoDup_fmap_2_strong; [|apply NoDup_map_to_list].
  intros [k r] [k' r'] Hkr Hkr' E. cbn in E. subst r'.
  apply elem_of_map_to_list in Hkr, Hkr'.
  destruct (Hinv _ _ Hkr) as [-> _], (Hinv _ _ Hkr') as [-> _]. reflexivity.
Qed.

Lemma passes_no_filter contains params r :
  (forall name, name ∈ filter_names -> params_has name params = false) ->
  passes contains params r = true.
Proof.
  intros Hno. unfold passes.
  rewrite !Hno by (unfold filter_names; rewrite !elem_of_cons; auto 10).
  reflexivity.
Qed.

(** X12. [GET /strings] answers 200 with records of the store and their
    number: a record is listed exactly when it is stored and passes every
    filter of the request, at most as many records as the store holds are
    listed, none twice when the store is keyed by digest, and without a
    filter the whole store is listed with an empty [filters_applied].
    The handler of [README.md] does the same, with its own containment
    test, once the parameters have passed its checks. *)
Theorem get_strings_lists_store (request : Request) (st : Store) :
  let params := req_searchParams request in
  (exists data applied,
     get_strings request st
     = json (PFiltered data (Z.of_nat (length data)) applied) 200
     /\ (forall r, r ∈ data <->
           (exists k, st !! k = Some r) /\ passes includes params r = true)
     /\ (length data <= size st)%nat
     /\ (store_inv st -> NoDup data)
     /\ ((forall name, name ∈ filter_names -> params_has name params = false) ->
         data = store_records st /\ length data = size st /\ applied = []))
  /\ (invalid_param params = None ->
      exists data applied,
        get_strings_v2 request st
        = json (PFiltered data (Z.of_nat (length data)) applied) 200
        /\ (forall r, r ∈ data <->
              (exists k, st !! k = Some r)
              /\ passes (fun v c => includes (toLowerCase v) (toLowerCase c))
                   params r = true)
        /\ (length data <= size st)%nat
        /\ (store_inv st -> NoDup data)
        /\ ((forall name, name ∈ filter_names -> params_has name params = false) ->
            data = store_records st /\ length data = size st /\ applied = [])).
Proof.
  cbn zeta. split.
  - exists (data (applyFilters (store_records st) (req_searchParams request))),
      (applied (applyFilters (store_records st) (req_searchParams request))).
    split; [reflexivity|].
    rewrite applyFilters_passes.
    split.
    { intros r. rewrite list_elem_of_filter, elem_of_store_records.
      pure ltac:(tauto). }
    split.
    { rewrite <- length_store_records. apply length_filter. }
    split.
    { intros Hinv. apply NoDup_filter, NoDup_store_records, Hinv. }
    intros Hno.
    assert (Hall : filter (fun r => passes includes (req_searchParams request) r = true)
                     (store_records st) = store_records st).
    { apply filter_all_pass. intros r. apply passes_no_filter. exact Hno. }
    rewrite Hall. split; [reflexivity|]. split; [apply length_store_records|].
    unfold applyFilters.
    rewrite !Hno by (unfold filter_names; rewrite !elem_of_cons; auto 10).
    reflexivity.
  - intros Hvalid.
    exists (data (applyFilters_v2 (store_records st) (req_searchParams request))),
      (applied (applyFilters_v2 (store_records st) (req_searchParams request))).
    split; [unfold get_strings_v2; rewrite Hvalid; reflexivity|].
    rewrite applyFilters_v2_passes.
    split.
    { intros r. rewrite list_elem_of_filter, elem_of_store_records.
      pure ltac:(tauto). }
    split.
    { rewrite <- length_store_records. apply length_filter. }
    split.
    { intros Hinv. apply NoDup_filter, NoDup_store_records, Hinv. }
    intros Hno.
    assert (Hall : filter (fun r => passes (fun v c => includes (toLowerCase v)
                                                          (toLowerCase c))
                                      (req_searchParams request) r = true)
                     (store_records st) = store_records st).
    { apply filter_all_pass. intros r. apply passes_no_filter. exact Hno. }
    rewrite Hall. split; [reflexivity|]. split; [apply length_store_records|].
    unfold applyFilters_v2.
    rewrite !Hno by (unfold filter_names; rewrite !elem_of_cons; auto 10).
    reflexivity.
Qed.

(** *** The route of the interpreter *)

Lemma obj_get_elem k v (o : JSObject) :
  NoDup (obj_keys o) -> (k, v) ∈ o -> obj_get k o = Some v.
Proof.
  unfold obj_get, obj_keys. induction o as [|[k' v'] o IH]; intros Hnd Hin.
  - inversion Hin.
  - rewrite fmap_cons in Hnd. apply NoDup_cons in Hnd as [Hk' Hnd].
    cbn [find fst]. apply elem_of_cons in Hin as [[= <- <-]|Hin].
    + rewrite bool_decide_true by reflexivity. reflexivity.
    + rewrite bool_decide_false; [apply IH; assumption|].
      cbn. intros ->. apply Hk'. apply list_elem_of_fmap.
      exists (k, v). split; [reflexivity|exact Hin].
Qed.

Lemma obj_get_Some k v (o : JSObject) : obj_get k o = Some v -> (k, v) ∈ o.
Proof.
  unfold obj_get. induction o as [|[k' v'] o IH]; [discriminate|].
  cbn [find fst]. case_bool_decide as E.
  - cbn in E. subst k'. intros [= <-]. left.
  - intros H. right. apply IH. exact H.
Qed.

Lemma obj_get_None k (o : JSObject) : obj_get k o = None <-> k ∉ obj_keys o.
Proof.
  unfold obj_get, obj_keys. induction o as [|[k' v'] o IH].
  - split; [intros _ H; inversion H|reflexivity].
  - cbn [find fst]. rewrite fmap_cons, not_elem_of_cons. cbn [fst].
    case_bool_decide as E; cbn in E.
    + split; [discriminate|]. intros [H _]. congruence.
    + rewrite IH. split; [intros H; split; [congruence|exact H]|intros [_ H]; exact H].
Qed.

Lemma obj_get_rev k (o : JSObject) :
  NoDup (obj_keys o) -> obj_get k (rev o) = obj_get k o.
Proof.
  intros Hnd.
  assert (Hp : rev o ≡ₚ o) by (symmetry; apply Permutation_rev).
  assert (Hnd' : NoDup (obj_keys (rev o))).
  { unfold obj_keys in *. rewrite Hp. exact Hnd. }
  destruct (obj_get k o) as [v|] eqn:E.
  - apply obj_get_elem; [exact Hnd'|].
    apply obj_get_Some in E. rewrite Hp. exact E.
  - apply obj_get_None. apply obj_get_None in E.
    unfold obj_keys in *. rewrite Hp. exact E.
Qed.

(** What [min_length] can be in an interpretation: infinity, or a natural
    number from 1 on that a double holds. *)
Lemma rules_min_length_value lowered v :
  obj_get (js "min_length") (rules_object lowered) = Some v ->
  v = VNum (Some (Inf false))
  \/ exists k, v = VNum (Some (Fin k)) /\ 1 <= k /\ to_double k = Fin k.
Proof.
  rewrite rules_min_length.
  destruct (match_group1 re_longer_than lowered) as [digits|] eqn:E;
    [|discriminate].
  apply (capture_Some re_longer_than longer_than_occ longer_than_occ_first)
    in E as (pre & a & _ & post & _ & Hd & Hall).
  rewrite (parseInt_digits digits Hd Hall).
  pose proof (digits_value_nonneg digits 0 ltac:(lia) Hall) as Hv.
  pose proof (to_double_not_negative _ Hv) as Hneg.
  destruct (to_double (digits_value 0 digits)) as [x|[|]] eqn:Ex;
    [|congruence|intros [= <-]; left; reflexivity].
  destruct (to_double_idem _ _ Hv Ex) as (_ & Hx & _).
  cbn [double_add].
  pose proof (to_double_not_negative (x + 1) ltac:(lia)) as Hneg'.
  pose proof (to_double_lower (x + 1) 1 ltac:(lia) ltac:(lia) ltac:(lia)) as Hlow.
  destruct (to_double (x + 1)) as [k|[|]] eqn:Ek;
    [|congruence|intros [= <-]; left; reflexivity].
  destruct (to_double_idem (x + 1) k ltac:(lia) Ek) as (Hk & _ & _).
  intros [= <-]. right. exists k. cbn [double_leb] in Hlow.
  apply Z.leb_le in Hlow. auto.
Qed.

(** The parameters built from an interpretation let a record through when
    it meets each key; for [min_length] the condition is on what
    [applyFilters] reads back from the printed number. *)
Lemma passes_rules_read contains lowered r :
  passes contains (params_of_object (rules_object lowered)) r = true
  <-> (obj_get (js "word_count") (rules_object lowered) <> None ->
       p_word_count (r_properties r) = 1)
      /\ (obj_get (js "is_palindrome") (rules_object lowered) <> None ->
          p_is_palindrome (r_properties r) = true)
      /\ (forall v, obj_get (js "min_length") (rules_object lowered) = Some v ->
          num_geb (p_length (r_properties r))
            (parseInt (or_else (Some (String_of v)) (js "0"))) = true)
      /\ (forall c,
            obj_get (js "contains_character") (rules_object lowered) = Some (VStr c) ->
            contains (r_value r) c = true).
Proof.
  unfold passes.
  rewrite !params_has_get, !params_get_of_object.
  rewrite !obj_get_rev by apply rules_keys_NoDup.
  rewrite rules_word_count, rules_is_palindrome,
    rules_no_max_length, rules_contains_character.
  assert (H1 : 0 <= 1 < 10 ^ 21) by (split; [discriminate|reflexivity]).
  assert (H1' : to_double 1 = Fin 1) by reflexivity.
  destruct (obj_get (js "min_length") (rules_object lowered)) as [v|];
  destruct (regex_test re_single_word lowered);
  destruct (regex_test re_palindromic lowered);
  (destruct (match_group1 re_contain_the_letter lowered) as [c|];
   [|destruct (match_group1 re_containing lowered) as [c|]]);
  cbn [fmap option_fmap option_map];
  cbn [String_of];
  rewrite ?(or_else_NumberToString 1 _ H1 H1'), ?(parseInt_NumberToString 1 H1 H1'),
    ?or_else_empty;
  rewrite ?(bool_decide_true (is_Some (Some _))) by eauto;
  rewrite ?(bool_decide_false (is_Some None)) by (intros [? ?]; discriminate);
  rewrite ?(bool_decide_true (Some (js "true") = Some (js "true"))) by reflexivity;
  cbn [num_eqb andb];
  rewrite ?andb_true_r, ?andb_true_iff, ?eqb_true_eq, ?Z.eqb_eq.
  all: split;
    [ intros H; repeat split; intros; simplify_eq; pure ltac:(tauto)
    | intros (A1 & A2 & A3 & A4);
      repeat split;
      first [ apply A1; discriminate | apply A2; discriminate
            | apply A3; reflexivity | apply A4; reflexivity | reflexivity ] ].
Qed.


(** Past 10^21 the printed [min_length] is in exponent notation, and
    [applyFilters] reads its first digit [d] back: that is the bound it
    applies. *)
Lemma passes_rules_exponent contains lowered k d r :
  obj_get (js "min_length") (rules_object lowered) = Some (VNum (Some (Fin k))) ->
  parseInt (NumberToString k) = Some (Fin d) ->
  or_else (Some (NumberToString k)) (js "0") = NumberToString k ->
  passes contains (params_of_object (rules_object lowered)) r = true
  <-> (obj_get (js "word_count") (rules_object lowered) <> None ->
       p_word_count (r_properties r) = 1)
      /\ (obj_get (js "is_palindrome") (rules_object lowered) <> None ->
          p_is_palindrome (r_properties r) = true)
      /\ d <= p_length (r_properties r)
      /\ (forall c,
            obj_get (js "contains_character") (rules_object lowered)
            = Some (VStr c) ->
            contains (r_value r) c = true).
Proof.
  intros E Hread Hor. rewrite passes_rules_read.
  assert (Hmin :
    (forall v, obj_get (js "min_length") (rules_object lowered) = Some v ->
       num_geb (p_length (r_properties r))
         (parseInt (or_else (Some (String_of v)) (js "0"))) = true)
    <-> d <= p_length (r_properties r)).
  { rewrite E. split.
    - intros H. specialize (H _ eq_refl). cbn [String_of] in H.
      rewrite Hor, Hread in H. cbn [num_geb double_leb] in H.
      apply Z.leb_le in H. exact H.
    - intros H v [= <-]. cbn [String_of]. rewrite Hor, Hread.
      cbn [num_geb double_leb]. apply Z.leb_le. exact H. }
  rewrite Hmin. reflexivity.
Qed.

Lemma obj_get_filter_ne k k' (o : JSObject) :
  k <> k' -> obj_get k (filter (fun kv => kv.1 <> k') o) = obj_get k o.
Proof.
  intros Hne. unfold obj_get. induction o as [|[k2 v2] o IH]; [reflexivity|].
  rewrite filter_cons. cbn. case_decide as E; cbn.
  - case_bool_decide; [reflexivity|exact IH].
  - try apply dec_stable in E. cbn in E. subst k2.
    rewrite bool_decide_false by congruence. exact IH.
Qed.

Lemma obj_get_filter_eq k (o : JSObject) :
  obj_get k (filter (fun kv => kv.1 <> k) o) = None.
Proof.
  unfold obj_get. induction o as [|[k2 v2] o IH]; [reflexivity|].
  rewrite filter_cons. cbn. case_decide as E; cbn; [|exact IH].
  rewrite bool_decide_false by exact E. exact IH.
Qed.


(** X22. When the [min_length] of the interpretation is 10^21 or more,
    the route of the interpreter does not apply it: the number is printed
    in exponent notation and [applyFilters] reads back its first digit
    [d], of 1 to 9, so the answer holds the stored records of length [d]
    or more that meet the other keys, while the interpretation it shows
    carries the large [min_length].  Both handlers. *)
Theorem natural_language_large_min_length
    (request : Request) (st : Store) (q : jsstring) (parsed : JSObject) (n : Z) :
  params_get (js "query") (req_searchParams request) = Some q ->
  q <> [] ->
  parseNaturalLanguageQuery q = Some parsed ->
  obj_get (js "min_length") parsed = Some (VNum (Some (Fin n))) ->
  10 ^ 21 <= n ->
  exists d, 1 <= d <= 9
    /\ parseInt (NumberToString n) = Some (Fin d)
    /\ (exists data,
          get_natural_language request st
          = json (PInterpreted data (Z.of_nat (length data)) q parsed) 200
          /\ forall r, r ∈ data <->
               (exists k, st !! k = Some r)
               /\ d <= p_length (r_properties r)
               /\ meets_interpretation includes
                    (filter (fun kv => kv.1 <> js "min_length") parsed) r)
    /\ (exists data,
          get_natural_language_v2 request st
          = json (PInterpreted data (Z.of_nat (length data)) q parsed) 200
          /\ forall r, r ∈ data <->
               (exists k, st !! k = Some r)
               /\ d <= p_length (r_properties r)
               /\ meets_interpretation
                    (fun v c => includes (toLowerCase v) (toLowerCase c))
                    (filter (fun kv => kv.1 <> js "min_length") parsed) r).
Proof.
  intros Hq Hne Hparsed Hmin Hn.
  destruct (interpreted_never_conflicting q parsed Hparsed) as [Hmax Hconf].
  assert (Hor : or_else (Some q) [] = q) by apply or_else_empty.
  pose proof (parseNaturalLanguageQuery_Some q parsed Hparsed) as Hrules.
  assert (Hrest : forall contains r,
    meets_interpretation contains
      (filter (fun kv => kv.1 <> js "min_length") parsed) r
    <-> (obj_get (js "word_count") parsed <> None ->
         p_word_count (r_properties r) = 1)
        /\ (obj_get (js "is_palindrome") parsed <> None ->
            p_is_palindrome (r_properties r) = true)
        /\ (forall c, obj_get (js "contains_character") parsed = Some (VStr c) ->
            contains (r_value r) c = true)).
  { intros contains r. unfold meets_interpretation.
    rewrite (obj_get_filter_ne (js "word_count")) by (vm_compute; congruence).
    rewrite (obj_get_filter_ne (js "is_palindrome")) by (vm_compute; congruence).
    rewrite (obj_get_filter_ne (js "contains_character"))
      by (vm_compute; congruence).
    rewrite obj_get_filter_eq.
    split.
    - intros (A & B & _ & D). split; [exact A|]. split; [exact B|exact D].
    - intros (A & B & D).
      split; [exact A|]. split; [exact B|]. split; [intros ? [=]|exact D]. }
  rewrite Hrules in Hmin.
  destruct (rules_min_length_value _ _ Hmin) as [[=]|(k' & [= <-] & _ & Hk)].
  destruct (parseInt_NumberToString_exponent n Hn Hk) as (d & Hd & Hread & Hprinted).
  pose proof (fun contains r =>
    passes_rules_exponent contains _ n d r Hmin Hread Hprinted) as Hd1.
  exists d. split; [exact Hd|]. split; [exact Hread|]. split.
  - exists (data (applyFilters (store_records st) (params_of_object parsed))).
    split.
    { unfold get_natural_language. cbn zeta. rewrite Hq, Hor.
      rewrite bool_decide_false by exact Hne. rewrite Hparsed, Hconf.
      reflexivity. }
    intros r. rewrite applyFilters_passes, list_elem_of_filter.
    rewrite elem_of_store_records, Hrest. rewrite Hrules, Hd1.
    pure ltac:(tauto).
  - exists (data (applyFilters_v2 (store_records st) (params_of_object parsed))).
    split.
    { unfold get_natural_language_v2. cbn zeta. rewrite Hq, Hor.
      rewrite bool_decide_false by exact Hne. rewrite Hparsed, Hconf.
      reflexivity. }
    intros r. rewrite applyFilters_v2_passes, list_elem_of_filter.
    rewrite elem_of_store_records, Hrest. rewrite Hrules, Hd1.
    pure ltac:(tauto).
Qed.

(** *** What [applyFilters] reports and what it lets through *)

Lemma params_has_Some k v (ps : URLSearchParams) :
  params_get k ps = Some v -> params_has k ps = true.
Proof.
  intros H. rewrite params_has_get, H. apply bool_decide_true. eauto.
Qed.

Ltac applied_cases params :=
  unfold applyFilters, applyFilters_v2;
  destruct (params_has (js "is_palindrome") params) eqn:E1;
  destruct (params_has (js "min_length") params) eqn:E2;
  destruct (params_has (js "max_length") params) eqn:E3;
  destruct (params_has (js "word_count") params) eqn:E4;
  destruct (params_has (js "contains_character") params) eqn:E5;
  cbn [applied].

Lemma applied_keys records params :
  obj_keys (applied (applyFilters records params))
  = filter (fun name => params_has name params = true) filter_names
  /\ obj_keys (applied (applyFilters_v2 records params))
     = filter (fun name => params_has name params = true) filter_names.
Proof.
  unfold filter_names. rewrite !filter_cons, filter_nil.
  applied_cases params; split; reflexivity.
Qed.

Lemma applied_independent records records' params :
  applied (applyFilters records' params) = applied (applyFilters records params)
  /\ applied (applyFilters_v2 records' params)
     = applied (applyFilters_v2 records params).
Proof. applied_cases params; split; reflexivity. Qed.

Ltac applied_value ps Hv :=
  let Hh := fresh "Hh" in
  pose proof (params_has_Some _ _ _ Hv) as Hh;
  applied_cases ps; try congruence; rewrite Hv.

(** X14. The object [filters_applied] holds exactly the filter names that
    occur among the parameters, in the order of the five tests, whatever
    the records are and whatever other parameters there are.  Its values
    are the parameters as the tests read them: [is_palindrome] is [true]
    for the text [true] and [false] for any other text; a number is the
    [parseInt] of the text, and an empty text stands for 0, for 99999
    under [max_length]; [contains_character] is the text itself, and its
    lower-cased form in the handler of [README.md]. *)
Theorem applyFilters_applied
    (records : list StringRecord) (params : URLSearchParams) :
  let out := applied (applyFilters records params) in
  let out2 := applied (applyFilters_v2 records params) in
  (obj_keys out = filter (fun name => params_has name params = true) filter_names
   /\ obj_keys out2 = obj_keys out)
  /\ (forall records',
        applied (applyFilters records' params) = out
        /\ applied (applyFilters_v2 records' params) = out2)
  /\ (forall v, params_get (js "is_palindrome") params = Some v ->
        obj_get (js "is_palindrome") out = Some (VBool (bool_decide (v = js "true")))
        /\ obj_get (js "is_palindrome") out2
           = Some (VBool (bool_decide (v = js "true"))))
  /\ (forall name v,
        name ∈ [js "min_length"; js "max_length"; js "word_count"] ->
        params_get name params = Some v ->
        let read :=
          if bool_decide (v = []) then
            (if bool_decide (name = js "max_length")
             then Some (Fin 99999) else Some (Fin 0))
          else parseInt v in
        obj_get name out = Some (VNum read)
        /\ obj_get name out2 = Some (VNum read))
  /\ (forall c, params_get (js "contains_character") params = Some c ->
        obj_get (js "contains_character") out = Some (VStr c)
        /\ obj_get (js "contains_character") out2 = Some (VStr (toLowerCase c))).
Proof.
  cbn zeta.
  destruct (applied_keys records params) as [Hk Hk2].
  split; [split; congruence|].
  split; [intros records'; apply applied_independent|].
  split.
  { intros v Hv.
    assert (Hb : bool_decide (Some v = Some (js "true")) = bool_decide (v = js "true")).
    { apply bool_decide_ext. split; congruence. }
    applied_value params Hv; rewrite Hb; split; reflexivity. }
  split.
  { intros name v Hname Hv. rewrite !elem_of_cons in Hname.
    destruct Hname as [-> |[-> |[-> |Hname]]]; [| | |inversion Hname].
    all: applied_value params Hv; destruct v; split; reflexivity. }
  intros c Hv. applied_value params Hv; rewrite or_else_empty; split; reflexivity.
Qed.

Lemma filter_none {A} (P : A -> Prop) `{!forall x, Decision (P x)} (l : list A) :
  (forall x, ~ P x) -> filter P l = [].
Proof.
  intros HP. induction l as [|x l IH]; [reflexivity|].
  rewrite filter_cons. destruct (decide (P x)) as [Hx|_]; [|exact IH].
  contradiction (HP x Hx).
Qed.

Lemma or_else_nonempty (v d : jsstring) : v <> [] -> or_else (Some v) d = v.
Proof. destruct v; [congruence|reflexivity]. Qed.

Lemma passes_bounds contains params r vlo vhi lo hi :
  params_get (js "min_length") params = Some vlo ->
  params_get (js "max_length") params = Some vhi ->
  vlo <> [] -> vhi <> [] ->
  parseInt vlo = Some lo -> parseInt vhi = Some hi ->
  passes contains params r = true ->
  double_ltb hi lo = false.
Proof.
  intros Hlo Hhi Hnlo Hnhi Plo Phi. unfold passes.
  rewrite (params_has_Some _ _ _ Hlo), (params_has_Some _ _ _ Hhi), Hlo, Hhi.
  rewrite !or_else_nonempty, Plo, Phi by assumption.
  cbn [num_geb num_leb]. rewrite !andb_true_iff.
  intros ((((_ & Hge) & Hle) & _) & _). revert Hge Hle.
  unfold double_ltb.
  destruct lo as [lo|[|]], hi as [hi|[|]]; cbn [double_leb negb];
    rewrite ?Z.leb_le; try discriminate; try reflexivity.
  intros Hge Hle. apply negb_false_iff, Z.leb_le. lia.
Qed.

Lemma passes_not_a_number contains params r name v :
  name ∈ [js "min_length"; js "max_length"; js "word_count"] ->
  params_get name params = Some v -> v <> [] -> parseInt v = None ->
  passes contains params r = false.
Proof.
  intros Hname Hv Hne Hnan. rewrite !elem_of_cons in Hname.
  unfold passes.
  destruct Hname as [-> |[-> |[-> |Hname]]]; [| | |inversion Hname];
    rewrite (params_has_Some _ _ _ Hv), Hv, (or_else_nonempty _ _ Hne), Hnan;
    cbn [num_geb num_leb num_eqb];
    rewrite ?andb_false_r; reflexivity.
Qed.

Lemma invalid_param_not_a_number params name v :
  name ∈ [js "min_length"; js "max_length"; js "word_count"] ->
  params_get name params = Some v -> v <> [] -> parseInt v = None ->
  invalid_param params <> None.
Proof.
  intros Hname Hv Hne Hnan. rewrite !elem_of_cons in Hname.
  assert (Hd : all_digits v = false).
  { destruct (all_digits v) eqn:E; [|reflexivity].
    apply andb_true_iff in E as [_ E].
    rewrite (parseInt_digits v Hne E) in Hnan. discriminate. }
  unfold invalid_param.
  destruct Hname as [-> |[-> |[-> |Hname]]]; [| | |inversion Hname];
    rewrite (params_has_Some _ _ _ Hv), Hv, (or_else_nonempty _ _ Hne), Hd;
    cbn [negb andb];
    repeat match goal with
    | |- context [if ?c then _ else _] => destruct c
    end; discriminate.
Qed.

(** X15. Requests without a result.  A [min_length] above the
    [max_length] empties the answer of both handlers: no conflict is
    reported for [GET /strings].  A [min_length], [max_length] or
    [word_count] that [parseInt] cannot read lets no record through in
    [index.ts], which still answers 200 with an empty list, where the
    handler of [README.md] answers 400. *)
Theorem applyFilters_no_results
    (request : Request) (st : Store) (records : list StringRecord) :
  let params := req_searchParams request in
  (forall vlo vhi lo hi,
     params_get (js "min_length") params = Some vlo ->
     params_get (js "max_length") params = Some vhi ->
     vlo <> [] -> vhi <> [] ->
     parseInt vlo = Some lo -> parseInt vhi = Some hi ->
     double_ltb hi lo = true ->
     data (applyFilters records params) = []
     /\ data (applyFilters_v2 records params) = []
     /\ exists shown, get_strings request st = json (PFiltered [] 0 shown) 200)
  /\ (forall name v,
        name ∈ [js "min_length"; js "max_length"; js "word_count"] ->
        params_get name params = Some v -> v <> [] -> parseInt v = None ->
        data (applyFilters records params) = []
        /\ (exists shown, get_strings request st = json (PFiltered [] 0 shown) 200)
        /\ status (get_strings_v2 request st) = 400).
Proof.
  cbn zeta. split.
  - intros vlo vhi lo hi Hlo Hhi Hnlo Hnhi Plo Phi Hlt.
    assert (Hnone : forall contains l,
              filter (fun r => passes contains (req_searchParams request) r = true) l
              = []).
    { intros contains l. apply filter_none. intros r Hr.
      pose proof (passes_bounds contains _ r _ _ _ _ Hlo Hhi Hnlo Hnhi Plo Phi Hr).
      congruence. }
    rewrite applyFilters_passes, applyFilters_v2_passes, !Hnone.
    split; [reflexivity|]. split; [reflexivity|].
    unfold get_strings. cbn zeta. rewrite applyFilters_passes, Hnone.
    eexists. reflexivity.
  - intros name v Hname Hv Hne Hnan.
    assert (Hnone : forall l,
              filter (fun r => passes includes (req_searchParams request) r = true) l
              = []).
    { intros l. apply filter_none. intros r Hr.
      rewrite (passes_not_a_number _ _ r name v Hname Hv Hne Hnan) in Hr.
      discriminate. }
    rewrite applyFilters_passes, Hnone. split; [reflexivity|]. split.
    + unfold get_strings. cbn zeta. rewrite applyFilters_passes, Hnone.
      eexists. reflexivity.
    + unfold get_strings_v2.
      destruct (invalid_param (req_searchParams request)) eqn:E; [reflexivity|].
      contradiction (invalid_param_not_a_number _ name v Hname Hv Hne Hnan E).
Qed.

(** *** The records of the store *)

Lemma fetch_records (P : jsstring -> StringRecord -> Prop) request now st :
  (forall v, trim v <> [] ->
     P (computeSHA256 (trim v))
       {| r_id := computeSHA256 (trim v); r_value := trim v;
          r_properties := analyzeString (trim v); r_created_at := now |}) ->
  (forall k r, st !! k = Some r -> P k r) ->
  forall k r, (fetch request now st).2 !! k = Some r -> P k r.
Proof.
  intros Hnew Hold k r. unfold fetch, post_strings, delete_string. cbn zeta.
  repeat case_match; cbn [snd analyzeString p_sha256_hash];
    try discriminate; try apply Hold.
  - rewrite lookup_insert.
    match goal with |- context [decide (?a = k)] =>
      destruct (decide (a = k)) as [E|E] end; [|apply Hold].
    intros [= <-]. subst k. apply Hnew.
    match goal with H : bool_decide (trim _ = []) = false |- _ =>
      apply bool_decide_eq_false in H; exact H end.
  - rewrite lookup_delete.
    match goal with |- context [decide (?a = k)] =>
      destruct (decide (a = k)) as [E|E] end; [discriminate|apply Hold].
Qed.

Lemma fetch_v2_records (P : jsstring -> StringRecord -> Prop) request now st :
  (forall v, v <> [] ->
     P (computeSHA256 v)
       {| r_id := computeSHA256 v; r_value := v;
          r_properties := analyzeString v; r_created_at := now |}) ->
  (forall k r, st !! k = Some r -> P k r) ->
  forall k r, (fetch_v2 request now st).2 !! k = Some r -> P k r.
Proof.
  intros Hnew Hold k r. unfold fetch_v2, post_strings_v2, delete_string. cbn zeta.
  repeat case_match; cbn [snd analyzeString p_sha256_hash];
    try discriminate; try apply Hold.
  - rewrite lookup_insert.
    match goal with |- context [decide (?a = k)] =>
      destruct (decide (a = k)) as [E|E] end; [|apply Hold].
    intros [= <-]. subst k. apply Hnew.
    match goal with H : bool_decide (length _ = _) = false |- _ =>
      apply bool_decide_eq_false in H; rewrite length_zero_iff_nil in H; exact H end.
  - rewrite lookup_delete.
    match goal with |- context [decide (?a = k)] =>
      destruct (decide (a = k)) as [E|E] end; [discriminate|apply Hold].
Qed.

Lemma countWords_word_starts (value : jsstring) :
  countWords value = Z.of_nat (word_starts true value).
Proof.
  unfold countWords. case_bool_decide as E.
  - apply trim_nil, word_starts_zero in E. rewrite E. reflexivity.
  - destruct (trim_ends value) as [Hh Hl].
    rewrite (countWords_trimmed (trim value) E Hh Hl), word_starts_trim.
    reflexivity.
Qed.

(** X16. What the store holds.  Every request keeps the records of the
    store consistent: a record is stored under its [id], its properties
    are the analysis of its value, and its [id] is the digest among them.
    In [index.ts] no stored value is empty or has white space around it,
    so that every record counts at least one word;  in the handler of
    [README.md] no stored value is empty, but a value of white space only
    may be stored, with a count of no word. *)
Theorem fetch_keeps_records (request : Request) (now : jsstring) (st : Store) :
  (store_analysed ∅ /\ store_nonempty ∅ /\ store_trimmed ∅)
  /\ (store_analysed st ->
      store_analysed (fetch request now st).2
      /\ store_analysed (fetch_v2 request now st).2)
  /\ (store_nonempty st ->
      store_nonempty (fetch request now st).2
      /\ store_nonempty (fetch_v2 request now st).2)
  /\ (store_trimmed st -> store_trimmed (fetch request now st).2)
  /\ (store_analysed st -> store_nonempty st -> store_trimmed st ->
      forall k r, st !! k = Some r ->
        p_length (r_properties r) = Z.of_nat (length (r_value r))
        /\ 1 <= p_length (r_properties r)
        /\ 1 <= p_word_count (r_properties r))
  /\ (forall v : jsstring, v <> [] -> forallb is_space v = true ->
      p_word_count (analyzeString v) = 0).
Proof.
  split.
  { split; [|split]; intros k r H; rewrite lookup_empty in H; discriminate. }
  split.
  { intros Hst. split.
    - refine (fetch_records
                (fun k r => k = r_id r
                            /\ r_properties r = analyzeString (r_value r)
                            /\ r_id r = p_sha256_hash (r_properties r))
                request now st _ Hst).
      intros v _. repeat split.
    - refine (fetch_v2_records
                (fun k r => k = r_id r
                            /\ r_properties r = analyzeString (r_value r)
                            /\ r_id r = p_sha256_hash (r_properties r))
                request now st _ Hst).
      intros v _. repeat split. }
  split.
  { intros Hst. split.
    - refine (fetch_records (fun k r => r_value r <> []) request now st _ Hst).
      intros v Hv. exact Hv.
    - refine (fetch_v2_records (fun k r => r_value r <> []) request now st _ Hst).
      intros v Hv. exact Hv. }
  split.
  { intros Hst.
    refine (fetch_records (fun k r => trim (r_value r) = r_value r)
              request now st _ Hst).
    intros v _. apply trim_idem. }
  split.
  { intros Ha Hn Ht k r Hk.
    destruct (Ha k r Hk) as (_ & -> & _).
    pose proof (Hn k r Hk) as Hne. pose proof (Ht k r Hk) as Htr.
    cbn [analyzeString p_length p_word_count].
    split; [reflexivity|]. split.
    - destruct (r_value r); [congruence|]. cbn [length]. lia.
    - rewrite countWords_word_starts.
      destruct (word_starts true (r_value r)) eqn:E; [|lia].
      apply word_starts_zero, trim_nil in E. congruence. }
  intros v Hne Hsp. cbn [analyzeString p_word_count].
  rewrite countWords_word_starts.
  apply word_starts_zero in Hsp. rewrite Hsp. reflexivity.
Qed.

(** *** The route table *)

Lemma strip_trailing_slashes_replicate (p : jsstring) n :
  strip_trailing_slashes (p ++ replicate n 47) = strip_trailing_slashes p.
Proof.
  induction n as [|n IH]; [rewrite app_nil_r; reflexivity|].
  rewrite replicate_S_end, app_assoc, strip_trailing_slashes_snoc. exact IH.
Qed.

(** X17. The route table.  Slashes at the end of the path do not matter
    to either handler.  A request that no route takes is answered with
    200 and the banner, and changes nothing: such is every request whose
    method is not GET, POST or DELETE, and every request whose path is
    neither [/strings] nor under it. *)
Theorem fetch_routing (request : Request) (now : jsstring) (st : Store) :
  let fallback := ({| status := 200; body := BText banner |}, st) in
  let path := strip_trailing_slashes (req_pathname request) in
  (forall n,
     let request' :=
       {| req_method := req_method request;
          req_pathname := req_pathname request ++ replicate n 47;
          req_searchParams := req_searchParams request;
          req_json := req_json request |} in
     fetch request' now st = fetch request now st
     /\ fetch_v2 request' now st = fetch_v2 request now st)
  /\ (req_method request ∉ [js "GET"; js "POST"; js "DELETE"] ->
      fetch request now st = fallback /\ fetch_v2 request now st = fallback)
  /\ (path <> js "/strings" -> startsWith path (js "/strings/") = false ->
      fetch request now st = fallback)
  /\ (head (filter (fun s : jsstring => s <> []) (split path 47))
      <> Some (js "strings") ->
      fetch_v2 request now st = fallback).
Proof.
  cbn zeta. split.
  { intros n. unfold fetch, fetch_v2, post_strings, post_strings_v2,
      get_natural_language, get_natural_language_v2, get_strings, get_strings_v2.
    cbn [req_method req_pathname req_searchParams req_json].
    rewrite strip_trailing_slashes_replicate. split; reflexivity. }
  split.
  { intros Hm. rewrite !not_elem_of_cons in Hm. destruct Hm as (Hg & Hp & Hd & _).
    unfold fetch, fetch_v2. cbn zeta.
    rewrite !(bool_decide_false (req_method request = js "GET")) by exact Hg.
    rewrite !(bool_decide_false (req_method request = js "POST")) by exact Hp.
    rewrite !(bool_decide_false (req_method request = js "DELETE")) by exact Hd.
    split; reflexivity. }
  split.
  { intros Hne Hsw. unfold fetch. cbn zeta.
    assert (Hnl : startsWith (strip_trailing_slashes (req_pathname request))
                    (js "/strings/filter-by-natural-language") = false).
    { destruct (startsWith _ (js "/strings/filter-by-natural-language")) eqn:E;
        [|reflexivity].
      change (js "/strings/filter-by-natural-language")
        with (js "/strings/" ++ js "filter-by-natural-language") in E.
      apply startsWith_prefix in E. congruence. }
    rewrite Hnl, Hsw.
    rewrite !(bool_decide_false (_ = js "/strings")) by exact Hne.
    rewrite !andb_false_r. reflexivity. }
  intros Hhead. unfold fetch_v2. cbn zeta.
  rewrite <- head_lookup.
  rewrite !(bool_decide_false (head _ = Some (js "strings"))) by exact Hhead.
  rewrite !andb_false_r. reflexivity.
Qed.

(** *** The shape of an interpretation *)

(** X18. What an interpretation can be.  An interpretation is never
    empty; its keys come in the order [word_count], [is_palindrome],
    [min_length], [contains_character]; [word_count] is always 1,
    [is_palindrome] always [true], [min_length] a number that is at least
    1, and [contains_character] one lower-case letter of [a] to [z]. *)
Theorem parseNaturalLanguageQuery_shape (q : jsstring) (parsed : JSObject) :
  parseNaturalLanguageQuery q = Some parsed ->
  parsed <> []
  /\ sublist (obj_keys parsed)
       [js "word_count"; js "is_palindrome"; js "min_length";
        js "contains_character"]
  /\ (forall v, obj_get (js "word_count") parsed = Some v -> v = VNum (Some (Fin 1)))
  /\ (forall v, obj_get (js "is_palindrome") parsed = Some v -> v = VBool true)
  /\ (forall v, obj_get (js "min_length") parsed = Some v ->
        exists n, v = VNum (Some n) /\ double_leb (Fin 1) n = true)
  /\ (forall v, obj_get (js "contains_character") parsed = Some v ->
        exists c, v = VStr [c] /\ is_lower c = true).
Proof.
  intros Hparsed.
  assert (Hne : parsed <> []).
  { rewrite parseNaturalLanguageQuery_unfold in Hparsed. cbn zeta in Hparsed.
    case_bool_decide as E; [discriminate|]. injection Hparsed as <-.
    intros E'. rewrite E' in E. apply E. reflexivity. }
  apply parseNaturalLanguageQuery_Some in Hparsed. subst parsed.
  set (lowered := trim (toLowerCase q)) in *. clearbody lowered.
  split; [exact Hne|]. split.
  { rules_cases lowered; cbn zeta; vm_compute;
      repeat first [apply sublist_nil | apply sublist_skip | apply sublist_cons]. }
  split.
  { rewrite rules_word_count.
    destruct (regex_test re_single_word lowered); congruence. }
  split.
  { rewrite rules_is_palindrome.
    destruct (regex_test re_palindromic lowered); congruence. }
  rewrite rules_contains_character.
  split.
  - intros v Hv.
    destruct (rules_min_length_value lowered v Hv) as [->|(k & -> & Hk & _)].
    + eexists. split; reflexivity.
    + eexists. split; [reflexivity|]. apply Z.leb_le. exact Hk.
  - intros v.
    destruct (match_group1 re_contain_the_letter lowered) as [d|] eqn:E.
    + apply (capture_Some re_contain_the_letter the_letter_occ) in E
        as (pre & a & _ & c & ending & post & -> & Hc & _).
      * intros [= <-]. eauto.
      * intros b a x Hx. apply (the_letter_ms b). apply head_elem. exact Hx.
    + destruct (match_group1 re_containing lowered) as [d|] eqn:E';
        [|discriminate].
      apply (capture_Some re_containing containing_occ containing_occ_first)
        in E' as (pre & a & _ & c & -> & Hc & _).
      intros [= <-]. eauto.
Qed.

(** *** The errors *)

Lemma post_strings_errors request now st msg :
  (body (post_strings request now st).1 = BJson (PError msg) ->
   msg ∈ error_messages)
  /\ (body (post_strings_v2 request now st).1 = BJson (PError msg) ->
      msg ∈ error_messages
      \/ msg = js "Invalid data type for 'value' (must be string)").
Proof.
  unfold post_strings, post_strings_v2, error_messages. cbn zeta.
  split; repeat case_match; cbn [fst json body]; intros [= <-];
    first [right; reflexivity | left; in_list | in_list].
Qed.

Lemma get_natural_language_errors request st msg :
  (body (get_natural_language request st) = BJson (PError msg) ->
   msg ∈ error_messages)
  /\ (body (get_natural_language_v2 request st) = BJson (PError msg) ->
      msg ∈ error_messages).
Proof.
  unfold get_natural_language, get_natural_language_v2, error_messages.
  cbn zeta.
  case_bool_decide; [split; cbn [json body]; intros [= <-]; in_list|].
  destruct (parseNaturalLanguageQuery _) as [parsed|] eqn:Hq;
    [|split; cbn [json body]; intros [= <-]; in_list].
  destruct (interpreted_never_conflicting _ _ Hq) as [_ ->].
  split; cbn [json body]; discriminate.
Qed.

Lemma get_string_errors hash_of s st msg :
  body (get_string hash_of (Some s) st) = BJson (PError msg) ->
  msg ∈ error_messages
  \/ exists seg message,
       decodeURIComponent seg = inr message /\ msg = error_message message.
Proof.
  unfold get_string, error_messages.
  destruct (decodeURIComponent s) as [value|message] eqn:E.
  - destruct (st !! hash_of value); cbn [json body]; intros [= <-].
    left. in_list.
  - cbn [json body]. intros [= <-]. right. eauto.
Qed.

Lemma delete_string_errors hash_of s st msg :
  body (delete_string hash_of (Some s) st).1 = BJson (PError msg) ->
  msg ∈ error_messages
  \/ exists seg message,
       decodeURIComponent seg = inr message /\ msg = error_message message.
Proof.
  unfold delete_string, error_messages.
  destruct (decodeURIComponent s) as [value|message] eqn:E.
  - destruct (st !! hash_of value); cbn [fst json body]; [discriminate|].
    intros [= <-]. left. in_list.
  - cbn [fst json body]. intros [= <-]. right. eauto.
Qed.

Lemma value_segment_v1 (path : jsstring) :
  length (split path 47) = 3%nat -> exists s, split path 47 !! 2%nat = Some s.
Proof.
  intros Hl. destruct (split path 47) as [|a [|b [|c l]]]; try discriminate.
  eauto.
Qed.

Lemma value_segment_v2 (segments : list jsstring) :
  length segments = 2%nat -> exists s, segments !! 1%nat = Some s.
Proof.
  intros Hl. destruct segments as [|a [|b l]]; try discriminate. eauto.
Qed.

Ltac route_conditions :=
  repeat match goal with
  | H : _ && _ = true |- _ => apply andb_true_iff in H as [? ?]
  | H : bool_decide _ = true |- _ => apply bool_decide_eq_true in H
  end.

(** X19. The errors.  Whatever the request, an error of [index.ts]
    carries one of six messages, or the message of the failure to decode
    the path segment (the store and the digest being taken not to fail);
    the handler of [README.md] adds the message of a value that is not a
    text and the five messages that name an invalid query parameter.
    The answer 400 [Invalid path] of the routes of one value is never
    given: where these routes are taken, the segment is there. *)
Theorem fetch_error_messages
    (request : Request) (now : jsstring) (st : Store) (msg : jsstring) :
  let undecodable :=
    exists seg message,
      decodeURIComponent seg = inr message /\ msg = error_message message in
  (body (fetch request now st).1 = BJson (PError msg) ->
   msg ∈ error_messages \/ undecodable)
  /\ (body (fetch_v2 request now st).1 = BJson (PError msg) ->
      msg ∈ error_messages
      \/ msg = js "Invalid data type for 'value' (must be string)"
      \/ (exists name,
            name ∈ filter_names
            /\ msg = js "Invalid query parameter '" ++ name ++ js "'")
      \/ undecodable)
  /\ (fetch request now st).1 <> json (PError (js "Invalid path")) 400
  /\ (fetch_v2 request now st).1 <> json (PError (js "Invalid path")) 400.
Proof.
  cbn zeta.
  destruct (post_strings_errors request now st msg) as [Hp Hp2].
  destruct (get_natural_language_errors request st msg) as [Hn Hn2].
  assert (H1 : forall m,
    body (fetch request now st).1 = BJson (PError m) ->
    (m = msg -> msg ∈ error_messages
                \/ exists seg message,
                     decodeURIComponent seg = inr message
                     /\ msg = error_message message)
    /\ (status (fetch request now st).1 = 400 -> m <> js "Invalid path")).
  { intros m. unfold fetch. cbn zeta.
    destruct (bool_decide (req_method request = js "POST") && _) eqn:E1.
    { cbn [fst]. intros Hb. split.
      - intros ->. left. exact (Hp Hb).
      - intros _ ->.
        destruct (post_strings_errors request now st (js "Invalid path"))
          as [Hc _]. specialize (Hc Hb). revert Hc.
        apply (bool_decide_unpack _). vm_compute. exact I. }
    clear E1.
    destruct (bool_decide (req_method request = js "GET") && startsWith _ _) eqn:E2.
    { cbn [fst]. intros Hb. split.
      - intros ->. left. exact (Hn Hb).
      - intros _ ->.
        destruct (get_natural_language_errors request st (js "Invalid path"))
          as [Hc _]. specialize (Hc Hb). revert Hc.
        apply (bool_decide_unpack _). vm_compute. exact I. }
    clear E2.
    destruct (bool_decide (req_method request = js "GET") && _ && _) eqn:E3.
    { cbn [fst]. route_conditions.
      match goal with H : length _ = 3%nat |- _ =>
        destruct (value_segment_v1 _ H) as [s ->] end.
      intros Hb. split.
      - intros ->. exact (get_string_errors _ _ _ _ Hb).
      - unfold get_string in *. destruct (decodeURIComponent s);
          [destruct (st !! _)|]; cbn [json status body] in *;
          discriminate. }
    clear E3.
    destruct (bool_decide (req_method request = js "DELETE") && _ && _) eqn:E4.
    { route_conditions.
      match goal with H : length _ = 3%nat |- _ =>
        destruct (value_segment_v1 _ H) as [s ->] end.
      intros Hb. split.
      - intros ->. exact (delete_string_errors _ _ _ _ Hb).
      - unfold delete_string in *. destruct (decodeURIComponent s);
          [destruct (st !! _)|]; cbn [fst json status body] in *;
          discriminate. }
    clear E4.
    destruct (bool_decide (req_method request = js "GET") && _) eqn:E5;
      cbn [fst]; intros Hb; discriminate Hb. }
  assert (H2 : forall m,
    body (fetch_v2 request now st).1 = BJson (PError m) ->
    (m = msg -> msg ∈ error_messages
                \/ msg = js "Invalid data type for 'value' (must be string)"
                \/ (exists name,
                      name ∈ filter_names
                      /\ msg = js "Invalid query parameter '" ++ name ++ js "'")
                \/ exists seg message,
                     decodeURIComponent seg = inr message
                     /\ msg = error_message message)
    /\ (status (fetch_v2 request now st).1 = 400 -> m <> js "Invalid path")).
  { intros m. unfold fetch_v2. cbn zeta.
    set (segments := filter _ _).
    destruct (bool_decide (req_method request = js "POST") && _) eqn:E1.
    { cbn [fst]. intros Hb. split.
      - intros ->. destruct (Hp2 Hb) as [Hc|Hc]; auto.
      - intros _ ->.
        destruct (post_strings_errors request now st (js "Invalid path"))
          as [_ Hc]. specialize (Hc Hb). revert Hc.
        intros [Hc|Hc]; revert Hc; [apply (bool_decide_unpack _)|]; vm_compute;
          [exact I|discriminate]. }
    clear E1.
    destruct (bool_decide (req_method request = js "GET") && _ && _) eqn:E2.
    { cbn [fst]. intros Hb. split.
      - intros ->. left. exact (Hn2 Hb).
      - intros _ ->.
        destruct (get_natural_language_errors request st (js "Invalid path"))
          as [_ Hc]. specialize (Hc Hb). revert Hc.
        apply (bool_decide_unpack _). vm_compute. exact I. }
    clear E2.
    destruct (bool_decide (req_method request = js "GET") && _) eqn:E3.
    { cbn [fst]. route_conditions.
      match goal with H : length segments = 2%nat |- _ =>
        destruct (value_segment_v2 _ H) as [s ->] end.
      intros Hb. split.
      - intros ->. destruct (get_string_errors _ _ _ _ Hb) as [Hc|Hc]; auto.
      - unfold get_string in *. destruct (decodeURIComponent s);
          [destruct (st !! _)|]; cbn [json status body] in *;
          discriminate. }
    clear E3.
    destruct (bool_decide (req_method request = js "DELETE") && _) eqn:E4.
    { route_conditions.
      match goal with H : length segments = 2%nat |- _ =>
        destruct (value_segment_v2 _ H) as [s ->] end.
      intros Hb. split.
      - intros ->. destruct (delete_string_errors _ _ _ _ Hb) as [Hc|Hc]; auto.
      - unfold delete_string in *. destruct (decodeURIComponent s);
          [destruct (st !! _)|]; cbn [fst json status body] in *;
          discriminate. }
    clear E4.
    destruct (bool_decide (req_method request = js "GET") && _) eqn:E5;
      cbn [fst]; [|intros Hb; discriminate Hb].
    unfold get_strings_v2.
    destruct (invalid_param (req_searchParams request)) as [name|] eqn:Ei;
      cbn [json body status]; [|discriminate].
    intros [= <-]. split.
    - intros <-. right. right. left. exists name.
      split; [exact (invalid_param_name _ _ Ei)|reflexivity].
    - intros _ E. vm_compute in E. discriminate E. }
  split; [intros Hb; exact (proj1 (H1 msg Hb) eq_refl)|].
  split; [intros Hb; exact (proj1 (H2 msg Hb) eq_refl)|].
  split.
  - intros E. apply (proj2 (H1 (js "Invalid path") ltac:(rewrite E; reflexivity)));
      [rewrite E|]; reflexivity.
  - intros E. apply (proj2 (H2 (js "Invalid path") ltac:(rewrite E; reflexivity)));
      [rewrite E|]; reflexivity.
Qed.

(** *** What the checks of the parameters accept *)






End Worker.

(** ** The properties on concrete runs *)

Lemma checksum_bytes data : forallb (in_range 0 255) (checksum data) = true.
Proof.
  unfold checksum, in_range. cbn [forallb].
  pose proof (Z.mod_pos_bound (Z.of_nat (length data)) 256).
  pose proof (Z.mod_pos_bound (fold_right Z.add 0 data) 256). lia.
Qed.

(** The printer that stands in for [Number.prototype.toString] prints as
    ECMA-262 asks. *)
Lemma print_integer_numeral z :
  0 <= z < 10 ^ 21 -> to_double z = Fin z ->
  print_integer z <> []
  /\ forallb is_digit (print_integer z) = true
  /\ to_double (digits_value 0 (print_integer z)) = Fin z.
Proof.
  intros [Hz Hlt] Hd. unfold print_integer.
  rewrite (proj2 (Z.ltb_lt _ _) Hlt).
  destruct (decimal_numeral z Hz) as (Hne & Hall & Hv).
  rewrite Hv. auto.
Qed.

Lemma print_integer_exponent z :
  10 ^ 21 <= z -> to_double z = Fin z ->
  exists d c rest,
    print_integer z = d :: c :: rest /\ 49 <= d <= 57 /\ (c = 46 \/ c = 101).
Proof.
  intros Hz _. unfold print_integer.
  rewrite (proj2 (Z.ltb_ge _ _) Hz).
  exists 49, 101, (js "+21"). split; [reflexivity|]. split; [lia|auto].
Qed.

(** The first example of the specification, end to end: the request
    creates the record, with status 201, in both handlers. *)
Lemma post_racecar_created :
  fetch ascii_toLowerCase checksum decode_plain empty_to_zero print_integer
    post_racecar (js "2025-10-17T10:00:00.000Z") ∅
  = (json (PRecord record_racecar) 201, store_racecar)
  /\ fetch_v2 ascii_toLowerCase checksum decode_plain empty_to_zero print_integer
       post_racecar (js "2025-10-17T10:00:00.000Z") ∅
     = (json (PRecord record_racecar) 201, store_racecar).
Proof. split; vm_compute; reflexivity. Qed.

Lemma store_racecar_lookup :
  store_racecar !! computeSHA256 checksum (js "racecar") = Some record_racecar.
Proof. vm_compute. reflexivity. Qed.

Lemma store_racecar_inv : store_inv checksum store_racecar.
Proof.
  pose proof (fetch_inv ascii_toLowerCase checksum decode_plain empty_to_zero print_integer
                post_racecar (js "2025-10-17T10:00:00.000Z") ∅
                (store_inv_empty checksum)) as H.
  rewrite (proj1 post_racecar_created) in H. exact H.
Qed.

Lemma isPalindrome_strip_lower_reverse_witness :
  isPalindrome ascii_toLowerCase (js "Race, car!") = true.
Proof.
  destruct (isPalindrome_strip_lower_reverse ascii_toLowerCase
              (fun _ _ => eq_refl) (js "Race, car!")) as [H _].
  apply H. vm_compute. reflexivity.
Defined.


(** C3 as stated fails: numbers are doubles, and N + 1 is not always one.
    For [longer than 9007199254740992 characters], that is N = 2^53,
    [min_length] is N itself. *)
Lemma parseNaturalLanguageQuery_min_length_rounded :
  parsed_key ascii_toLowerCase (js "min_length")
    (js "strings longer than 9007199254740992 characters")
  = Some (VNum (Some (Fin 9007199254740992)))
  /\ parsed_key ascii_toLowerCase (js "min_length")
       (js "strings longer than 9007199254740992 characters")
     <> Some (VNum (Some (Fin (9007199254740992 + 1)))).
Proof.
  assert (E : parsed_key ascii_toLowerCase (js "min_length")
                (js "strings longer than 9007199254740992 characters")
              = Some (VNum (Some (Fin 9007199254740992))))
    by (vm_compute; reflexivity).
  split; [exact E|]. rewrite E. intros [= H].
Qed.

Lemma parseNaturalLanguageQuery_null_witness :
  get_natural_language ascii_toLowerCase empty_to_zero print_integer
    (get_natural "the quick brown fox") store_racecar
  = json (PError (js "Unable to parse natural language query")) 400.
Proof.
  destruct (parseNaturalLanguageQuery_null ascii_toLowerCase checksum
              decode_plain empty_to_zero print_integer (fun _ _ => eq_refl)
              (js "the quick brown fox") (get_natural "the quick brown fox")
              [] store_racecar) as (_ & _ & H & _).
  apply H; [vm_compute; congruence|vm_compute; reflexivity].
Defined.


Lemma post_duplicate_rejected_witness :
  fetch ascii_toLowerCase checksum decode_plain empty_to_zero print_integer
    post_racecar (js "2025-10-18T09:30:00.000Z") store_racecar
  = (json (PError (js "String already exists")) 409, store_racecar).
Proof.
  pose proof store_racecar_inv as Hinv.
  destruct (post_duplicate_rejected ascii_toLowerCase checksum decode_plain
              empty_to_zero print_integer post_racecar (js "2025-10-18T09:30:00.000Z")
              store_racecar (js "racecar") Hinv eq_refl) as [H _].
  apply H.
  - vm_compute. congruence.
  - exists (computeSHA256 checksum (js "racecar")), record_racecar.
    split; [exact store_racecar_lookup|reflexivity].
  - reflexivity.
  - reflexivity.
Defined.

Lemma get_strings_validation_witness :
  get_strings_v2 ascii_toLowerCase
    {| req_method := js "GET"; req_pathname := js "/strings";
       req_searchParams := [(js "word_count", js "x"); (js "min_length", js "abc")];
       req_json := None |}
    store_racecar
  = json (PError (js "Invalid query parameter '" ++ js "min_length" ++ js "'")) 400.
Proof.
  destruct (get_strings_validation ascii_toLowerCase
              {| req_method := js "GET"; req_pathname := js "/strings";
                 req_searchParams :=
                   [(js "word_count", js "x"); (js "min_length", js "abc")];
                 req_json := None |}
              (get_strings_with "min_length" "abc") store_racecar)
    as (_ & H & _).
  apply (H (js "min_length")). split.
  - exists (js "abc"). split; [reflexivity|]. right. left.
    split; [left|].
    intros [_ Hd]. inversion Hd as [|c l Hc Hl]. discriminate Hc.
  - intros i j other Hi Hj Hlt [v [Hv _]].
    destruct j as [|[|j]]; [discriminate Hj| |].
    + destruct i as [|i]; [|lia]. injection Hi as <-. discriminate Hv.
    + destruct j as [|[|[|j]]]; discriminate Hj.
Defined.

Lemma max_length_never_interpreted_witness :
  obj_get (js "max_length") [(js "min_length", VNum (Some (Fin 11)))] = None
  /\ conflicting empty_to_zero [(js "min_length", VNum (Some (Fin 11)))] = false.
Proof.
  destruct (max_length_never_interpreted ascii_toLowerCase checksum decode_plain
              empty_to_zero print_integer (js "strings longer than 10 characters")
              (get_natural "strings longer than 10 characters") []
              store_racecar) as [H _].
  apply H. vm_compute. reflexivity.
Defined.

(** C7 as stated fails: a parameter with a name outside the five filters
    is not refused. [GET /strings?color=red] is answered with status 200
    and the records of the store by both handlers. *)
Lemma get_strings_unrecognized_name_accepted :
  (fetch ascii_toLowerCase checksum decode_plain empty_to_zero print_integer
     (get_strings_with "color" "red") [] store_racecar).1
  = json (PFiltered [record_racecar] 1 []) 200
  /\ (fetch_v2 ascii_toLowerCase checksum decode_plain empty_to_zero print_integer
        (get_strings_with "color" "red") [] store_racecar).1
     = json (PFiltered [record_racecar] 1 []) 200
  /\ (js "color" ∉ filter_names)
  /\ status (fetch_v2 ascii_toLowerCase checksum decode_plain empty_to_zero print_integer
               (get_strings_with "color" "red") [] store_racecar).1 <> 400.
Proof.
  split; [vm_compute; reflexivity|].
  split; [vm_compute; reflexivity|].
  split; [|vm_compute; congruence].
  unfold filter_names. rewrite !not_elem_of_cons.
  repeat split; try (vm_compute; congruence). intros H. inversion H.
Qed.

(** ** The further properties on concrete runs *)

Lemma isPalindrome_symmetries_witness :
  isPalindrome ascii_toLowerCase (js "A man, a plan, a canal: Panama")
  = isPalindrome ascii_toLowerCase (js "amanaplanacanalpanama").
Proof.
  destruct (isPalindrome_symmetries ascii_toLowerCase (fun _ _ => eq_refl)
              (js "A man, a plan, a canal: Panama")
              (js "amanaplanacanalpanama") 32) as [H _].
  apply H. vm_compute. reflexivity.
Defined.

Lemma computeSHA256_identifies_witness :
  computeSHA256 checksum (js "racecar")
  = checksum (js "racecar") ≫= (fun b => hex_byte b).
Proof.
  destruct (computeSHA256_identifies checksum checksum_bytes
              (js "racecar") (js "racecar")) as (_ & _ & _ & H).
  apply H. vm_compute. reflexivity.
Defined.

Lemma post_then_get_witness :
  fetch ascii_toLowerCase checksum decode_plain empty_to_zero print_integer
    (get_value "racecar") (js "2025-10-18T09:30:00.000Z") store_racecar
  = (json (PRecord record_racecar) 200, store_racecar).
Proof.
  destruct (post_then_get ascii_toLowerCase checksum decode_plain empty_to_zero print_integer
              post_racecar (get_value "racecar")
              (js "2025-10-17T10:00:00.000Z") (js "2025-10-18T09:30:00.000Z")
              (js "racecar") (js "racecar") ∅) as [H _].
  - reflexivity.
  - vm_compute. reflexivity.
  - reflexivity.
  - reflexivity.
  - reflexivity.
  - discriminate.
  - apply (bool_decide_unpack _). vm_compute. exact I.
  - vm_compute. reflexivity.
  - destruct H as [_ H].
    + vm_compute. congruence.
    + apply lookup_empty.
    + reflexivity.
    + vm_compute in H. vm_compute. exact H.
Defined.


Lemma get_value_shadowed_witness :
  fetch ascii_toLowerCase checksum decode_plain empty_to_zero print_integer
    (get_value "filter-by-natural-language-tips")
    (js "2025-10-18T09:30:00.000Z") store_racecar
  = (json (PError (js "Missing 'query' parameter")) 400, store_racecar).
Proof.
  destruct (get_value_shadowed ascii_toLowerCase checksum decode_plain
              empty_to_zero print_integer (get_value "filter-by-natural-language-tips")
              (js "2025-10-18T09:30:00.000Z") (js "-tips") store_racecar)
    as [H _].
  - reflexivity.
  - apply (bool_decide_unpack _). vm_compute. exact I.
  - destruct H as (_ & H & _); [reflexivity|]. apply H. reflexivity.
Defined.


Lemma natural_language_large_min_length_witness :
  exists data,
    get_natural_language ascii_toLowerCase empty_to_zero print_integer
      (get_natural "strings longer than 1000000000000000000000 characters")
      store_racecar
    = json (PInterpreted data (Z.of_nat (length data))
              (js "strings longer than 1000000000000000000000 characters")
              [(js "min_length", VNum (Some (Fin (10 ^ 21))))]) 200
    /\ record_racecar ∈ data.
Proof.
  destruct (natural_language_large_min_length ascii_toLowerCase empty_to_zero
              print_integer print_integer_numeral print_integer_exponent
              (get_natural "strings longer than 1000000000000000000000 characters")
              store_racecar
              (js "strings longer than 1000000000000000000000 characters")
              [(js "min_length", VNum (Some (Fin (10 ^ 21))))] (10 ^ 21))
    as (d & _ & Hd & (data & Heq & Hin) & _).
  - reflexivity.
  - discriminate.
  - vm_compute. reflexivity.
  - reflexivity.
  - reflexivity.
  - exists data. split; [exact Heq|]. apply Hin.
    assert (d = 1) as -> by (vm_compute in Hd; congruence).
    split; [exists (js "07d1"); reflexivity|].
    split; [vm_compute; discriminate|].
    repeat split; intros; discriminate.
Defined.

Lemma parseNaturalLanguageQuery_shape_witness :
  sublist
    (obj_keys [(js "min_length", VNum (Some (Fin 11)));
               (js "contains_character", VStr (js "z"))])
    [js "word_count"; js "is_palindrome"; js "min_length";
     js "contains_character"].
Proof.
  destruct (parseNaturalLanguageQuery_shape ascii_toLowerCase
              (js "Strings longer than 10 characters containing the letter Z")
              [(js "min_length", VNum (Some (Fin 11)));
               (js "contains_character", VStr (js "z"))]) as (_ & H & _).
  - vm_compute. reflexivity.
  - exact H.
Defined.

Lemma get_strings_lists_store_witness :
  exists data shown,
    get_strings (get_strings_with "color" "red") store_racecar
    = json (PFiltered data (Z.of_nat (length data)) shown) 200
    /\ data = store_records store_racecar
    /\ length data = size store_racecar
    /\ shown = [].
Proof.
  destruct (get_strings_lists_store ascii_toLowerCase checksum
              (get_strings_with "color" "red") store_racecar)
    as [(data & shown & H1 & _ & _ & _ & H5) _].
  exists data, shown. split; [exact H1|]. apply H5.
  intros name Hname. unfold filter_names in Hname.
  rewrite !elem_of_cons in Hname.
  destruct Hname as [-> |[-> |[-> |[-> |[-> |Hname]]]]];
    [reflexivity..|inversion Hname].
Defined.

Lemma applyFilters_no_results_witness :
  data (applyFilters [record_racecar] [(js "min_length", js "abc")]) = []
  /\ status (get_strings_v2 ascii_toLowerCase
               (get_strings_with "min_length" "abc") store_racecar) = 400.
Proof.
  destruct (applyFilters_no_results ascii_toLowerCase
              (get_strings_with "min_length" "abc") store_racecar
              [record_racecar]) as [_ H].
  destruct (H (js "min_length") (js "abc")) as (H1 & _ & H3).
  - left.
  - reflexivity.
  - discriminate.
  - reflexivity.
  - split; [exact H1|exact H3].
Defined.
